(** * The protobuf delta encoder of m3 (package proto, encoder.go)

    A shallow embedding of [encoder.Encode] and of the functions it calls,
    followed by the properties of the emitted frames and of the encoder
    state.  Go pointers to messages are locations of an explicit message
    store, so that the encoder's writes to the caller's message and the
    alias kept in [lastEncoded] are visible.  A Go panic is an outcome of
    its own, distinct from a returned [error]. *)

From Stdlib Require Import ZArith List Bool Lia String.
From stdpp Require Import base option list gmap strings fin_maps.

Local Open Scope Z_scope.

(** ** Bit stream *)

Module OStream.

(** Modelled from the spec: the bit sink [encoding.OStream] lives in another
    package of the repository.  It is the append-only bit buffer of
    section 4.1; bit groups and bytes are written most significant bit
    first. *)
Fixpoint bits_msb (n : nat) (v : Z) : list bool :=
  match n with
  | O => []
  | S k => Z.testbit v (Z.of_nat k) :: bits_msb k v
  end.

Definition WriteBit (s : list bool) (b : bool) : list bool := s ++ [b].

Definition WriteBits (s : list bool) (v : Z) (numBits : Z) : list bool :=
  s ++ bits_msb (Z.to_nat (Z.min numBits 64)) v.

Definition bytes_bits (bs : list Z) : list bool :=
  flat_map (bits_msb 8) bs.

Definition WriteBytes (s : list bool) (bs : list Z) : list bool :=
  s ++ bytes_bits bs.

End OStream.

(** ** Floating-point bit patterns *)

(** A [float64] is its IEEE-754 bit pattern, a [Z] below [2^64];
    [math.Float64bits] is then the identity. *)
Definition Float64bits (v : Z) : Z := v.

(** Go's conversion [float64(x)] of a [float32], on bit patterns.  Every
    [float32] number is a [float64], so the conversion is exact: the exponent
    is re-biased, the fraction moves up by 29 bits, and a subnormal becomes
    normal.  A NaN keeps its sign and payload and comes out quiet (the top
    fraction bit set), as IEEE 754 conversions deliver it. *)
Definition float32_to_float64 (b : Z) : Z :=
  let s := Z.land (Z.shiftr b 31) 1 in
  let e := Z.land (Z.shiftr b 23) 255 in
  let f := Z.land b 8388607 in
  let sign := Z.shiftl s 63 in
  if e =? 255 then
    if f =? 0 then Z.lor sign (Z.shiftl 2047 52)
    else Z.lor sign (Z.lor (Z.shiftl 2047 52) (Z.lor (Z.shiftl 1 51) (Z.shiftl f 29)))
  else if e =? 0 then
    if f =? 0 then sign
    else let k := Z.log2 f in
         Z.lor sign (Z.lor (Z.shiftl (k - 149 + 1023) 52)
                           (Z.shiftl (f - Z.shiftl 1 k) (52 - k)))
  else Z.lor sign (Z.lor (Z.shiftl (e - 127 + 1023) 52) (Z.shiftl f 29)).

(** Modelled from the spec: the narrowing on read of section 4.2, on bit
    patterns.  It is exact on a [float64] that is the widening of a
    [float32]: the exponent is re-biased and the 29 low fraction bits, zero
    there, are dropped; the small exponents are the subnormals. *)
Definition float64_to_float32 (b : Z) : Z :=
  let s := Z.land (Z.shiftr b 63) 1 in
  let e := Z.land (Z.shiftr b 52) 2047 in
  let f := Z.land b (2 ^ 52 - 1) in
  let sign := Z.shiftl s 31 in
  if e =? 2047 then
    if f =? 0 then Z.lor sign (Z.shiftl 255 23)
    else Z.lor sign (Z.lor (Z.shiftl 255 23) (Z.lor (Z.shiftl 1 22) (Z.shiftr f 29)))
  else if 1150 <? e then Z.lor sign (Z.shiftl 255 23)
  else if 896 <? e then Z.lor sign (Z.lor (Z.shiftl (e - 896) 23) (Z.shiftr f 29))
  else if 873 <? e then Z.lor sign (Z.shiftr (Z.lor (Z.shiftl 1 52) f) (926 - e))
  else sign.

(** A signalling NaN: the exponent is all ones, the fraction is not zero and
    its top bit is clear. *)
Definition signallingNaN (b : Z) : bool :=
  (Z.land (Z.shiftr b 23) 255 =? 255) && (0 <? Z.land b 8388607)
  && (Z.land b 8388607 <? 2 ^ 22).

(** Sign, exponent and fraction of a [float32]. *)
Definition float32_parts (b s e f : Z) : Prop :=
  b = s * 2 ^ 31 + e * 2 ^ 23 + f /\ 0 <= s < 2 /\ 0 <= e < 256 /\ 0 <= f < 2 ^ 23.

(** ** XOR compression of one value *)

Module m3tsz.

Definition LeadingZeros64 (x : Z) : Z :=
  if x =? 0 then 64 else 63 - Z.log2 x.

(** The number of low bits of [x] that are zero before the first one, at
    most [n]. *)
Fixpoint lowZeros (n : nat) (x : Z) : Z :=
  match n with
  | O => 0
  | S k => if Z.odd x then 0 else 1 + lowZeros k (Z.div2 x)
  end.

Definition TrailingZeros64 (x : Z) : Z :=
  if x =? 0 then 64 else lowZeros 64 x.

(** Modelled from the spec: [m3tsz.WriteXOR] lives in another package of
    the repository.  Section 4.3: a zero XOR is one [0] bit; otherwise a
    [1] bit, then either [0] and the middle bits in the previous window, or
    [1], the leading-zero count on 5 bits, the number of significant bits
    on 6 bits and the significant bits.  The section asks that decoding is
    the exact inverse, so the header must hold the window: a count of
    leading zeros above 31 is written as 31, the significant bits then
    starting with zeros, and 64 significant bits are written as [0] on the
    6 bits, which no other window uses. *)
Definition WriteXOR (s : list bool) (prevXOR curXOR : Z) : list bool :=
  if curXOR =? 0 then OStream.WriteBit s false
  else
    let L := LeadingZeros64 curXOR in
    let T := TrailingZeros64 curXOR in
    let Lp := LeadingZeros64 prevXOR in
    let Tp := TrailingZeros64 prevXOR in
    let s := OStream.WriteBit s true in
    if (Lp <=? L) && (Tp <=? T) then
      OStream.WriteBits (OStream.WriteBit s false)
                        (Z.shiftr curXOR Tp) (64 - Lp - Tp)
    else
      let L := Z.min L 31 in
      let s := OStream.WriteBit s true in
      let s := OStream.WriteBits s L 5 in
      let s := OStream.WriteBits s ((64 - L - T) mod 64) 6 in
      OStream.WriteBits s (Z.shiftr curXOR T) (64 - L - T).

End m3tsz.

(** ** Variable-length integers *)

(** [binary.PutUvarint] of the Go library on a buffer of [room] bytes: seven
    bits per byte, least significant group first, the high bit of a byte set
    when more follow.  It indexes past the buffer, and panics ([None]), when
    the value needs more than [room] bytes. *)
Fixpoint PutUvarint (room : nat) (x : Z) : option (list Z) :=
  match room with
  | O => None
  | S room' =>
      if 128 <=? x then
        cons (Z.lor (x mod 256) 128) <$> PutUvarint room' (Z.shiftr x 7)
      else Some [x mod 256]
  end.

(** The base-128 encoding of section 4.1, least significant group first,
    without a buffer: ten bytes hold any [uint64]. *)
Fixpoint uvarintN (fuel : nat) (x : Z) : list Z :=
  match fuel with
  | O => []
  | S fuel' =>
      if 128 <=? x then Z.lor (x mod 256) 128 :: uvarintN fuel' (Z.shiftr x 7)
      else [x mod 256]
  end.

Definition uvarint (x : Z) : list Z := uvarintN 10 x.

(** ** Schemas and dynamic messages *)

Inductive FieldType : Type :=
| TYPE_DOUBLE
| TYPE_FLOAT
| TYPE_INT64
| TYPE_BOOL
| TYPE_STRING
| TYPE_BYTES.

Record FieldDescriptor : Type := mkField {
  GetNumber : Z;
  GetType : FieldType
}.

Record MessageDescriptor : Type := mkDescriptor {
  GetFullyQualifiedName : string;
  GetFields : list FieldDescriptor
}.

(** A field value as Go's [interface{}] holds it: the dynamic type is the
    constructor. *)
Inductive Value : Type :=
| VFloat64 (bits : Z)
| VFloat32 (bits : Z)
| VInt64 (z : Z)
| VBool (b : bool)
| VString (s : string)
| VBytes (bs : list Z).

#[global] Instance FieldType_eq_dec : EqDecision FieldType.
Proof. solve_decision. Defined.
#[global] Instance FieldDescriptor_eq_dec : EqDecision FieldDescriptor.
Proof. solve_decision. Defined.
#[global] Instance MessageDescriptor_eq_dec : EqDecision MessageDescriptor.
Proof. solve_decision. Defined.
#[global] Instance Value_eq_dec : EqDecision Value.
Proof. solve_decision. Defined.

(** Errors built by the encoder. *)
Inductive error : Type :=
| ErrGetField (fieldNum : Z)
| ErrMarshal.

(** What a Go call does: it returns, or it panics. *)
Inductive outcome (A : Type) : Type :=
| Returned (a : A)
| Panicked.
Arguments Returned {A} a.
Arguments Panicked {A}.

Module dynamic.

(** Modelled from the spec: the structured value of section 6
    ([getField], cleared fields, clone).  [dynamic.Message] is a type of
    the protoreflect library: a descriptor and the values of the fields
    that are set.  A field the descriptor declares and the message does not
    set reads as the default of its type; a number the descriptor does not
    declare is an error for the [Try] functions and a panic for the
    others. *)
Record Message : Type := mkMessage {
  md : MessageDescriptor;
  values : gmap Z Value
}.

Definition NewMessage (schema : MessageDescriptor) : Message :=
  {| md := schema; values := ∅ |}.

Definition FindFieldDescriptor (m : Message) (n : Z) : option FieldDescriptor :=
  List.find (fun fd => GetNumber fd =? n) (GetFields (md m)).

Definition GetDefaultValue (t : FieldType) : Value :=
  match t with
  | TYPE_DOUBLE => VFloat64 0
  | TYPE_FLOAT => VFloat32 0
  | TYPE_INT64 => VInt64 0
  | TYPE_BOOL => VBool false
  | TYPE_STRING => VString EmptyString
  | TYPE_BYTES => VBytes []
  end.

Definition TryGetFieldByNumber (m : Message) (n : Z) : error + Value :=
  match FindFieldDescriptor m n with
  | None => inl (ErrGetField n)
  | Some fd =>
      match values m !! n with
      | Some v => inr v
      | None => inr (GetDefaultValue (GetType fd))
      end
  end.

Definition GetFieldByNumber (m : Message) (n : Z) : outcome Value :=
  match TryGetFieldByNumber m n with
  | inl _ => Panicked
  | inr v => Returned v
  end.

Definition ClearFieldByNumber (m : Message) (n : Z) : outcome Message :=
  match FindFieldDescriptor m n with
  | None => Panicked
  | Some _ => Returned {| md := md m; values := delete n (values m) |}
  end.

(** [m.MergeFrom(src)]: the set fields of [src] are copied over those of
    [m]; messages of different types do not merge. *)
Definition MergeFrom (m src : Message) : outcome Message :=
  if decide (GetFullyQualifiedName (md m) = GetFullyQualifiedName (md src))
  then Returned {| md := md m; values := values src ∪ values m |}
  else Panicked.

End dynamic.

Import dynamic.

(** Modelled from the spec: [fieldsEqual] lives in another file of the
    package.  Section 6, [equalField]: two field values are equal when they
    are the same value of the same type. *)
Definition fieldsEqual (lhs rhs : Value) : bool := bool_decide (lhs = rhs).

#[global] Instance Message_eq_dec : EqDecision Message.
Proof. solve_decision. Defined.

(** ** The encoder *)

Record tszFieldState : Type := mkTsz {
  fieldNum : Z;
  prevXOR : Z;
  prevFloatBits : Z
}.

Record encoder : Type := mkEncoder {
  stream : list bool;
  schema : MessageDescriptor;
  hasWrittenFirstTSZ : bool;
  lastEncoded : option positive;
  tszFields : list tszFieldState
}.

Definition isTSZType (t : FieldType) : bool :=
  match t with
  | TYPE_DOUBLE | TYPE_FLOAT => true
  | _ => false
  end.

Definition numTSZFields (schema : MessageDescriptor) : nat :=
  length (filter (fun fd => isTSZType (GetType fd) = true) (GetFields schema)).

(** [tszFields(nil, schema)]: one zeroed state per DOUBLE or FLOAT field, in
    the order of the schema. *)
Definition newTszFields (schema : MessageDescriptor) : list tszFieldState :=
  (fun fd => mkTsz (GetNumber fd) 0 0) <$>
    filter (fun fd => isTSZType (GetType fd) = true) (GetFields schema).

(** The test of both loops: the type is DOUBLE or FLOAT. *)
Definition isDoubleOrFloat (field : FieldDescriptor) : bool :=
  bool_decide (GetType field = TYPE_DOUBLE) || bool_decide (GetType field = TYPE_FLOAT).

(** [numTSZFields]: the loop that counts. *)
Definition numTSZFieldsLoop (schema : MessageDescriptor) : nat :=
  fold_left (fun numTSZFields field =>
               if isDoubleOrFloat field then S numTSZFields else numTSZFields)
            (GetFields schema) O.

(** [tszFields(s, schema)] on a slice [s] of capacity [cap_s]: [s] is cut to
    length zero when its capacity suffices and replaced by a new slice
    otherwise, and the loop appends to it. *)
Definition tszFieldsLoop (s : list tszFieldState) (cap_s : nat)
    (schema : MessageDescriptor) : list tszFieldState :=
  let numTSZFields := numTSZFieldsLoop schema in
  let s := if (numTSZFields <=? cap_s)%nat then take 0 s else [] in
  fold_left (fun s field =>
               if isDoubleOrFloat field then s ++ [mkTsz (GetNumber field) 0 0] else s)
            (GetFields schema) s.

(** [NewEncoder(b, schema, opts)]: the stream starts with the bytes of [b]. *)
Definition NewEncoder (b : list Z) (schema : MessageDescriptor) : encoder :=
  {| stream := OStream.bytes_bits b;
     schema := schema;
     hasWrittenFirstTSZ := false;
     lastEncoded := None;
     tszFields := newTszFields schema |}.

(** *** Encoder methods: state, message store, panics *)

(** A method of [*encoder] runs on the encoder and the store of the messages
    that Go pointers refer to. *)
Definition Go (A : Type) : Type :=
  encoder * gmap positive Message -> outcome (A * (encoder * gmap positive Message)).

Definition ret {A} (a : A) : Go A := fun w => Returned (a, w).

Definition bind {A B} (c : Go A) (k : A -> Go B) : Go B :=
  fun w => match c w with
           | Returned (a, w') => k a w'
           | Panicked => Panicked
           end.

Definition panic {A} : Go A := fun _ => Panicked.

Notation "'let*' x ':=' c 'in' k" := (bind c (fun x => k))
  (at level 10, x pattern, c at level 100, k at level 200).
Notation "c ';;' k" := (bind c (fun _ => k))
  (at level 100, k at level 200, right associativity).

Definition liftO {A} (o : outcome A) : Go A :=
  fun w => match o with Returned a => Returned (a, w) | Panicked => Panicked end.

Definition getEnc : Go encoder := fun w => Returned (w.1, w).

Definition modifyEnc (f : encoder -> encoder) : Go unit :=
  fun w => Returned (tt, (f w.1, w.2)).

(** Reading through a pointer; a pointer to no message is a nil
    dereference. *)
Definition deref (p : positive) : Go Message :=
  fun w => match w.2 !! p with
           | Some m => Returned (m, w)
           | None => Panicked
           end.

Definition store (p : positive) (m : Message) : Go unit :=
  fun w => Returned (tt, (w.1, <[p := m]> w.2)).

Definition set_stream (s : list bool) (e : encoder) : encoder :=
  mkEncoder s (schema e) (hasWrittenFirstTSZ e) (lastEncoded e) (tszFields e).
Definition set_hasWrittenFirstTSZ (b : bool) (e : encoder) : encoder :=
  mkEncoder (stream e) (schema e) b (lastEncoded e) (tszFields e).
Definition set_lastEncoded (p : option positive) (e : encoder) : encoder :=
  mkEncoder (stream e) (schema e) (hasWrittenFirstTSZ e) p (tszFields e).
Definition set_tszFields (fs : list tszFieldState) (e : encoder) : encoder :=
  mkEncoder (stream e) (schema e) (hasWrittenFirstTSZ e) (lastEncoded e) fs.

Definition WriteBit (b : bool) : Go unit :=
  modifyEnc (fun e => set_stream (OStream.WriteBit (stream e) b) e).
Definition WriteBits (v numBits : Z) : Go unit :=
  modifyEnc (fun e => set_stream (OStream.WriteBits (stream e) v numBits) e).
Definition WriteBytes (bs : list Z) : Go unit :=
  modifyEnc (fun e => set_stream (OStream.WriteBytes (stream e) bs) e).

Definition fieldsContains (fieldNum : Z) (fields : list FieldDescriptor) : bool :=
  existsb (fun field => GetNumber field =? fieldNum) fields.

(** [enc.tszFields[i]], with Go's bounds check. *)
Definition tszFieldAt (i : nat) : Go tszFieldState :=
  let* e := getEnc in
  match tszFields e !! i with
  | Some st => ret st
  | None => panic
  end.

Definition writeFirstTSZValue (i : nat) (v : Z) : Go unit :=
  let fb := Float64bits v in
  WriteBits fb 64;;
  let* st := tszFieldAt i in
  modifyEnc (fun e => set_tszFields (<[i := mkTsz (fieldNum st) fb fb]> (tszFields e)) e).

Definition writeNextTSZValue (i : nat) (next : Z) : Go unit :=
  let curFloatBits := Float64bits next in
  let* st := tszFieldAt i in
  let curXOR := Z.lxor (prevFloatBits st) curFloatBits in
  modifyEnc (fun e => set_stream (m3tsz.WriteXOR (stream e) (prevXOR st) curXOR) e);;
  modifyEnc (fun e =>
    set_tszFields (<[i := mkTsz (fieldNum st) curXOR curFloatBits]> (tszFields e)) e).

(** [writeVarInt]: the buffer has 8 bytes. *)
Definition writeVarInt (x : Z) : Go unit :=
  match PutUvarint 8 x with
  | Some buf => WriteBytes buf
  | None => panic
  end.

Definition bitsetMax (vals : list Z) : Z :=
  fold_left (fun max v => if max <? v then v else max) vals 0.

(** The bit loop of [writeBitset] over the indices [0 .. max]: a [1] when
    the index is one of the values, a [0] otherwise. *)
Fixpoint writeBitsetLoop (idx vals : list Z) : Go unit :=
  match idx with
  | [] => ret tt
  | i :: rest =>
      (if existsb (Z.eqb i) vals then WriteBit true else WriteBit false);;
      writeBitsetLoop rest vals
  end.

Definition writeBitset (vals : list Z) : Go unit :=
  let max := bitsetMax vals in
  writeVarInt (max + 1);;
  writeBitsetLoop (seqZ 0 (max + 1)) vals.

(** The loop of [encodeTSZValues] from index [i] on; [Some err] is the early
    [return] of an error, [None] the end of the loop. *)
Fixpoint encodeTSZLoop (m : positive) (i : nat) (fields : list tszFieldState)
  : Go (option error) :=
  match fields with
  | [] => ret None
  | tszField :: rest =>
      let* msg := deref m in
      match TryGetFieldByNumber msg (fieldNum tszField) with
      | inl _ => ret (Some (ErrGetField (fieldNum tszField)))
      | inr iVal =>
          let* val :=
            match iVal with
            | VFloat64 typedVal => ret typedVal
            | VFloat32 v32 => ret (float32_to_float64 v32)
            | _ => panic
            end in
          let* enc := getEnc in
          (if negb (hasWrittenFirstTSZ enc)
           then writeFirstTSZValue i val
           else writeNextTSZValue i val);;
          let* msg := deref m in
          let* cleared := liftO (ClearFieldByNumber msg (fieldNum tszField)) in
          store m cleared;;
          encodeTSZLoop m (S i) rest
      end
  end.

Definition encodeTSZValues (m : positive) : Go (option error) :=
  let* enc := getEnc in
  let* err := encodeTSZLoop m 0 (tszFields enc) in
  match err with
  | Some e => ret (Some e)
  | None => modifyEnc (set_hasWrittenFirstTSZ true);; ret None
  end.

(** The loop of [encodeProtoValues] over the schema's fields, on the clone
    [m] and the message [lastEncoded] points to. *)
Fixpoint diffLoop (last : positive) (fields : list FieldDescriptor)
    (m : Message) (changedFields : list Z) : Go (Message * list Z) :=
  match fields with
  | [] => ret (m, changedFields)
  | field :: rest =>
      let* prev := deref last in
      let* prevVal := liftO (GetFieldByNumber prev (GetNumber field)) in
      let* curVal := liftO (GetFieldByNumber m (GetNumber field)) in
      if fieldsEqual curVal prevVal then
        let* m' := liftO (ClearFieldByNumber m (GetNumber field)) in
        diffLoop last rest m' changedFields
      else
        diffLoop last rest m (changedFields ++ [GetNumber field])
  end.

Section Encoder.

(** [m.Marshal()] of the protoreflect library: the wire bytes of a message,
    or an error. *)
Variable Marshal : Message -> option (list Z).

Definition encodeProtoValues (p : positive) : Go (option error) :=
  let* enc := getEnc in
  let* orig := deref p in
  let* diff :=
    match lastEncoded enc with
    | Some last =>
        let* clone := liftO (MergeFrom (NewMessage (schema enc)) orig) in
        diffLoop last (GetFields (schema enc)) clone []
    | None => ret (orig, [])
    end in
  let m := diff.1 in
  let changedFields := diff.2 in
  if (length changedFields =? 0)%nat && bool_decide (lastEncoded enc <> None) then
    WriteBit false;; ret None
  else
    match Marshal m with
    | None => ret (Some ErrMarshal)
    | Some marshaled =>
        WriteBit true;;
        writeBitset changedFields;;
        writeVarInt (Z.of_nat (length marshaled));;
        WriteBytes marshaled;;
        ret None
    end.

(** [Encode] drops what [encodeTSZValues] and [encodeProtoValues] return
    and returns [nil]. *)
Definition Encode (m : positive) : Go (option error) :=
  let* _ := encodeTSZValues m in
  let* _ := encodeProtoValues m in
  modifyEnc (set_lastEncoded (Some m));;
  ret None.

End Encoder.

(** ** A wire format for the examples *)

Module wire.

Fixpoint fixedLE (n : nat) (x : Z) : list Z :=
  match n with
  | O => []
  | S k => x mod 256 :: fixedLE k (Z.shiftr x 8)
  end.

Definition string_bytes (s : string) : list Z :=
  (fun a => Z.of_N (Ascii.N_of_ascii a)) <$> list_ascii_of_string s.

Definition key (n wiretype : Z) : list Z :=
  uvarint (Z.lor (Z.shiftl n 3) wiretype).

Definition field (n : Z) (v : Value) : list Z :=
  match v with
  | VFloat64 b => key n 1 ++ fixedLE 8 b
  | VFloat32 b => key n 5 ++ fixedLE 4 b
  | VInt64 z => key n 0 ++ uvarint (z mod 2 ^ 64)
  | VBool b => key n 0 ++ [if b then 1 else 0]
  | VString s =>
      key n 2 ++ uvarint (Z.of_nat (length (string_bytes s))) ++ string_bytes s
  | VBytes bs => key n 2 ++ uvarint (Z.of_nat (length bs)) ++ bs
  end.

(** The set fields of the message in the order of its descriptor, each as
    key and value of the protobuf wire format. *)
Definition Marshal (m : Message) : option (list Z) :=
  Some (flat_map
          (fun fd => match values m !! GetNumber fd with
                     | Some v => field (GetNumber fd) v
                     | None => []
                     end)
          (GetFields (md m))).

(** The reading side, for the same fields: a varint, a little-endian fixed
    width number, and the value of a field by the type that the descriptor
    gives its number. *)
Fixpoint readUvarint (fuel : nat) (bs : list Z) : option (Z * list Z) :=
  match fuel, bs with
  | S fuel', b :: rest =>
      if 128 <=? b then
        match readUvarint fuel' rest with
        | Some (x, rest') => Some (b mod 128 + 128 * x, rest')
        | None => None
        end
      else Some (b, rest)
  | _, _ => None
  end.

Fixpoint readFixedLE (n : nat) (bs : list Z) : option (Z * list Z) :=
  match n with
  | O => Some (0, bs)
  | S k =>
      match bs with
      | b :: rest =>
          match readFixedLE k rest with
          | Some (x, rest') => Some (b + 256 * x, rest')
          | None => None
          end
      | [] => None
      end
  end.

Definition bytes_string (bs : list Z) : string :=
  string_of_list_ascii ((fun b => Ascii.ascii_of_N (Z.to_N b)) <$> bs).

Definition readLengthDelimited (bs : list Z) : option (list Z * list Z) :=
  match readUvarint 10 bs with
  | Some (len, rest) =>
      if (Z.to_nat len <=? length rest)%nat then
        Some (take (Z.to_nat len) rest, drop (Z.to_nat len) rest)
      else None
  | None => None
  end.

Definition readValue (t : FieldType) (wiretype : Z) (bs : list Z)
  : option (Value * list Z) :=
  match t, wiretype with
  | TYPE_DOUBLE, 1 => prod_map VFloat64 id <$> readFixedLE 8 bs
  | TYPE_FLOAT, 5 => prod_map VFloat32 id <$> readFixedLE 4 bs
  | TYPE_INT64, 0 =>
      prod_map (fun x => VInt64 (if x <? 2 ^ 63 then x else x - 2 ^ 64)) id
        <$> readUvarint 10 bs
  | TYPE_BOOL, 0 => prod_map (fun x => VBool (negb (x =? 0))) id <$> readUvarint 10 bs
  | TYPE_STRING, 2 => prod_map (fun b => VString (bytes_string b)) id <$> readLengthDelimited bs
  | TYPE_BYTES, 2 => prod_map VBytes id <$> readLengthDelimited bs
  | _, _ => None
  end.

Fixpoint readFields (fuel : nat) (sc : MessageDescriptor) (bs : list Z)
    (vs : gmap Z Value) : option (gmap Z Value) :=
  match bs, fuel with
  | [], _ => Some vs
  | _, O => None
  | _, S fuel' =>
      match readUvarint 10 bs with
      | Some (k, rest) =>
          let n := Z.shiftr k 3 in
          match List.find (fun fd => GetNumber fd =? n) (GetFields sc) with
          | Some fd =>
              match readValue (GetType fd) (Z.land k 7) rest with
              | Some (v, rest') => readFields fuel' sc rest' (<[n := v]> vs)
              | None => None
              end
          | None => None
          end
      | None => None
      end
  end.

(** A message of the descriptor with the fields that the bytes hold. *)
Definition Unmarshal (sc : MessageDescriptor) (bs : list Z) : option Message :=
  mkMessage sc <$> readFields (length bs) sc bs ∅.

End wire.

(** ** Schemas, encoder states and messages that the theorems are about *)

(** The numbers of the DOUBLE and FLOAT fields, in schema order. *)
Definition tszNums (schema : MessageDescriptor) : list Z :=
  GetNumber <$> filter (fun fd => isTSZType (GetType fd) = true) (GetFields schema).

(** The numbers of the fields that are neither DOUBLE nor FLOAT, in schema
    order. *)
Definition generalNums (sc : MessageDescriptor) : list Z :=
  GetNumber <$> filter (fun fd => isTSZType (GetType fd) = false) (GetFields sc).

(** Field numbers are unique, positive and fit Go's [int32]. *)
Definition wf_schema (schema : MessageDescriptor) : Prop :=
  NoDup (GetNumber <$> GetFields schema) /\
  Forall (fun fd => 0 < GetNumber fd < 2 ^ 31) (GetFields schema).

(** The per-field states are those of the schema's float fields, as
    [NewEncoder] builds them. *)
Definition wf_encoder (enc : encoder) : Prop :=
  fieldNum <$> tszFields enc = tszNums (schema enc).

(** The [float64] that [encodeTSZValues] reads from field [n] of [m], when
    it reads one: a [float64] as it is, a [float32] widened. *)
Definition tszValue (m : Message) (n : Z) : option Z :=
  match TryGetFieldByNumber m n with
  | inr (VFloat64 v) => Some v
  | inr (VFloat32 v) => Some (float32_to_float64 v)
  | _ => None
  end.

(** [vals] are the values that the message holds for the float fields of the
    encoder, in order, each as the [float64] the encoder reads. *)
Definition floatValues (enc : encoder) (m : Message) (vals : list Z) : Prop :=
  Forall2 (fun st v => tszValue m (fieldNum st) = Some v) (tszFields enc) vals.

(** [m] after [ClearFieldByNumber] on each of [nums]. *)
Fixpoint clearFields (nums : list Z) (m : Message) : Message :=
  match nums with
  | [] => m
  | n :: rest => clearFields rest (mkMessage (md m) (delete n (values m)))
  end.

(** ** Frames, as lists of bits *)

(** Bits written for one float field with value [v], and its state
    afterwards; [written] is [hasWrittenFirstTSZ]. *)
Definition tszOut (written : bool) (st : tszFieldState) (v : Z) : list bool :=
  if written then m3tsz.WriteXOR [] (prevXOR st) (Z.lxor (prevFloatBits st) v)
  else OStream.bits_msb 64 v.

Definition tszUpd (written : bool) (st : tszFieldState) (v : Z) : tszFieldState :=
  if written then mkTsz (fieldNum st) (Z.lxor (prevFloatBits st) v) v
  else mkTsz (fieldNum st) v v.

(** The numeric run of a frame: the bits of each float field in turn. *)
Definition numericRun (written : bool) (fields : list tszFieldState) (vals : list Z)
  : list bool :=
  concat (zip_with (tszOut written) fields vals).

(** The largest of the values, [0] for none. *)
Definition maxField (vals : list Z) : Z := foldr Z.max 0 vals.

(** The changed-field bitmap: one bit per number from [0] to the largest
    value, set for the values. *)
Definition bitmap (vals : list Z) : list bool :=
  (fun i => bool_decide (i ∈ vals)) <$> seqZ 0 (maxField vals + 1).

(** The number of bits set. *)
Definition popcount (bits : list bool) : nat :=
  length (filter (fun b => b = true) bits).

(** The general run of a frame that carries a payload: control bit, length
    of the bitmap, bitmap, length of the payload, payload. *)
Definition generalRun (changed : list Z) (payload : list Z) : list bool :=
  [true] ++ OStream.bytes_bits (uvarint (maxField changed + 1)) ++ bitmap changed
  ++ OStream.bytes_bits (uvarint (Z.of_nat (length payload)))
  ++ OStream.bytes_bits payload.

(** ** The diff of the general fields *)

#[global] Instance error_eq_dec : EqDecision error.
Proof. solve_decision. Defined.

(** Field [n] reads differently in [cur] and in [prev]. *)
Definition fieldChanged (prev cur : Message) (n : Z) : Prop :=
  TryGetFieldByNumber cur n <> TryGetFieldByNumber prev n.

#[global] Instance fieldChanged_dec prev cur n : Decision (fieldChanged prev cur n).
Proof. unfold fieldChanged. apply _. Defined.

(** The numbers among [nums] whose field changed, in order. *)
Definition changedNums (prev cur : Message) (nums : list Z) : list Z :=
  filter (fieldChanged prev cur) nums.

Definition unchangedNums (prev cur : Message) (nums : list Z) : list Z :=
  filter (fun n => ~ fieldChanged prev cur n) nums.

(** The message that the diff of [cur] against [prev] leaves to marshal: the
    fields of the schema that read the same in both are cleared. *)
Definition diffMessage (schema : MessageDescriptor) (prev cur : Message) : Message :=
  clearFields (unchangedNums prev cur (GetNumber <$> GetFields schema)) cur.

(** The message [lastEncoded] points to, if any. *)
Definition lastMessage (enc : encoder) (h : gmap positive Message) : option Message :=
  match lastEncoded enc with
  | Some last => h !! last
  | None => None
  end.

(** [lastEncoded], when set, points to a message of the schema. *)
Definition wf_last (enc : encoder) (h : gmap positive Message) : Prop :=
  match lastEncoded enc with
  | None => True
  | Some last =>
      match h !! last with
      | Some prev => md prev = schema enc
      | None => False
      end
  end.

(** The message [lastEncoded] points to has no float field set: [Encode]
    cleared them. *)
Definition lastCleared (enc : encoder) (h : gmap positive Message) : Prop :=
  match lastMessage enc h with
  | Some prev => Forall (fun n => values prev !! n = None) (tszNums (schema enc))
  | None => True
  end.

(** The message that [encodeProtoValues] marshals for [cur] when the message
    [lastEncoded] points to is [prev]: the whole message the first time, the
    diff afterwards, none when no field changed. *)
Definition toMarshal (sc : MessageDescriptor) (prev : option Message)
    (cur : Message) : option Message :=
  match prev with
  | None => Some cur
  | Some prev =>
      match changedNums prev cur (GetNumber <$> GetFields sc) with
      | [] => None
      | _ => Some (diffMessage sc prev cur)
      end
  end.

(** The payload, if there is one, has a length that the 8 bytes of
    [writeVarInt] hold. *)
Definition payloadFits (Marshal : Message -> option (list Z))
    (m : option Message) : Prop :=
  match m ≫= Marshal with
  | Some payload => Z.of_nat (length payload) < 2 ^ 56
  | None => True
  end.

(** The general run that [encodeProtoValues] writes for [cur] when the
    message [lastEncoded] points to is [prev]; nothing when [Marshal]
    fails. *)
Definition generalRunOf (Marshal : Message -> option (list Z))
    (sc : MessageDescriptor) (prev : option Message) (cur : Message) : list bool :=
  match prev with
  | None =>
      match Marshal cur with
      | Some payload => generalRun [] payload
      | None => []
      end
  | Some prev =>
      match changedNums prev cur (GetNumber <$> GetFields sc) with
      | [] => [false]
      | changed =>
          match Marshal (diffMessage sc prev cur) with
          | Some payload => generalRun changed payload
          | None => []
          end
      end
  end.

(** The message that [lastEncoded] points to when the diff of the message
    [m] at [p] runs: the float fields of the message at [p] are cleared by
    then. *)
Definition diffBase (enc : encoder) (h : gmap positive Message) (p : positive)
    (m : Message) : option Message :=
  lastMessage enc (<[p := clearFields (tszNums (schema enc)) m]> h).

(** The message whose marshalling is the payload of the frame that
    [Encode] writes for the message [m] at [p], if the frame has one. *)
Definition framePayload (enc : encoder) (h : gmap positive Message) (p : positive)
    (m : Message) : option Message :=
  toMarshal (schema enc) (diffBase enc h p m) (clearFields (tszNums (schema enc)) m).

(** [changedFields] of [encodeProtoValues]: the general fields of the
    schema whose value in [m] differs from the value in the message
    [lastEncoded] points to; none for the first message, for which the diff
    does not run. *)
Definition changedGeneral (enc : encoder) (h : gmap positive Message) (p : positive)
    (m : Message) : list Z :=
  match diffBase enc h p m with
  | None => []
  | Some prev => changedNums prev m (generalNums (schema enc))
  end.

(** Every field that the message sets is declared by its descriptor. *)
Definition declaredOnly (m : Message) : Prop :=
  map_Forall (fun k _ => k ∈ GetNumber <$> GetFields (md m)) (values m).

(** C7 as the specification states it: after [Encode] of the message [m]
    at [p], [lastEncoded] refers to a message equal to [m]. *)
Definition lastEncoded_is_input (Marshal : Message -> option (list Z))
    (enc : encoder) (h : gmap positive Message) (p : positive) (m : Message) : Prop :=
  forall err enc' h',
    Encode Marshal p (enc, h) = Returned (err, (enc', h')) ->
    lastMessage enc' h' = Some m.

(** The changed set of section 4.4, step 2, for the message [m] at [p]:
    every general field of the schema when [m] is the first message of the
    stream, the general fields whose value differs from the message encoded
    before otherwise. *)
Definition changedSet (enc : encoder) (h : gmap positive Message) (p : positive)
    (m : Message) : list Z :=
  match diffBase enc h p m with
  | None => generalNums (schema enc)
  | Some prev => changedNums prev m (generalNums (schema enc))
  end.

(** C5 as the specification states it: after the numeric run of the values
    [vals], [Encode] of the message [m] at [p] writes the general run of
    the changed set of step 2 and of some payload. *)
Definition general_run_of_changed_set (Marshal : Message -> option (list Z))
    (enc : encoder) (h : gmap positive Message) (p : positive) (m : Message)
    (vals : list Z) : Prop :=
  exists enc' h' payload,
    Encode Marshal p (enc, h) = Returned (None, (enc', h')) /\
    stream enc' =
      stream enc ++ numericRun (hasWrittenFirstTSZ enc) (tszFields enc) vals
      ++ generalRun (changedSet enc h p m) payload.

(** C8 as the specification states it, at a call that fails: when
    [encodeTSZValues] stops with an error on the message at [p], that
    message is not processed, and after [Encode] the states of the float
    fields hold the values of [good], the message processed last. *)
Definition prevFloatBits_of_last_success (Marshal : Message -> option (list Z))
    (w : encoder * gmap positive Message) (p : positive) (good : Message) : Prop :=
  forall err w1 r w',
    encodeTSZValues p w = Returned (Some err, w1) ->
    Encode Marshal p w = Returned (r, w') ->
    Forall (fun st => tszValue good (fieldNum st) = Some (prevFloatBits st))
           (tszFields w'.1).

(** C10 as the specification states it: whenever [Encode] returns, the
    message at [p] has no float field of the schema set. *)
Definition Encode_clears_every_float_field (Marshal : Message -> option (list Z))
    (w : encoder * gmap positive Message) (p : positive) : Prop :=
  forall r w',
    Encode Marshal p w = Returned (r, w') ->
    exists m', w'.2 !! p = Some m' /\
      forall n, n ∈ tszNums (schema w.1) -> values m' !! n = None.

(** ** The decoder of the specification *)

(** Modelled from the spec: the decoder is not part of [encoder.go].  What
    follows is the reading side as sections 4.1, 4.3, 4.4 and 6 describe
    it. *)

(** The readers of section 4.1: a reader takes bits from the front of the
    input and fails when the input ends. *)
Definition ReadBit (s : list bool) : option (bool * list bool) :=
  match s with
  | b :: rest => Some (b, rest)
  | [] => None
  end.

Fixpoint ReadBitsFrom (n : nat) (acc : Z) (s : list bool) : option (Z * list bool) :=
  match n with
  | O => Some (acc, s)
  | S k =>
      match s with
      | b :: rest => ReadBitsFrom k (2 * acc + Z.b2z b) rest
      | [] => None
      end
  end.

(** [n] bits, the most significant first. *)
Definition ReadBits (n : nat) (s : list bool) : option (Z * list bool) :=
  ReadBitsFrom n 0 s.

Fixpoint ReadBytes (n : nat) (s : list bool) : option (list Z * list bool) :=
  match n with
  | O => Some ([], s)
  | S k =>
      match ReadBits 8 s with
      | Some (b, s1) =>
          match ReadBytes k s1 with
          | Some (bs, s2) => Some (b :: bs, s2)
          | None => None
          end
      | None => None
      end
  end.

(** Bytes are read until one has the continuation bit clear. *)
Fixpoint ReadVarintN (fuel : nat) (s : list bool) : option (Z * list bool) :=
  match fuel with
  | O => None
  | S fuel' =>
      match ReadBits 8 s with
      | Some (b, s1) =>
          if 128 <=? b then
            match ReadVarintN fuel' s1 with
            | Some (x, s2) => Some (b mod 128 + 128 * x, s2)
            | None => None
            end
          else Some (b, s1)
      | None => None
      end
  end.

Definition ReadVarint (s : list bool) : option (Z * list bool) := ReadVarintN 10 s.

(** The bits of a bitmap, as they are. *)
Fixpoint ReadBitmap (n : nat) (s : list bool) : option (list bool * list bool) :=
  match n with
  | O => Some ([], s)
  | S k =>
      match s with
      | b :: rest =>
          match ReadBitmap k rest with
          | Some (bs, s') => Some (b :: bs, s')
          | None => None
          end
      | [] => None
      end
  end.

(** Bit [n] of a bitmap is set. *)
Definition marked (bm : list bool) (n : Z) : bool :=
  (0 <=? n) && default false (bm !! Z.to_nat n).

(** Section 4.3, decode: the inverse of [m3tsz.WriteXOR].  A [0] is a zero
    XOR; [1 0] is followed by the middle bits in the window of the previous
    XOR; [1 1] by the leading-zero count on 5 bits, the number of
    significant bits on 6 bits, [0] standing for 64, and the significant
    bits. *)
Definition ReadXOR (previousXor : Z) (s : list bool) : option (Z * list bool) :=
  match ReadBit s with
  | Some (false, s) => Some (0, s)
  | Some (true, s) =>
      match ReadBit s with
      | Some (false, s) =>
          let Lp := m3tsz.LeadingZeros64 previousXor in
          let Tp := m3tsz.TrailingZeros64 previousXor in
          match ReadBits (Z.to_nat (64 - Lp - Tp)) s with
          | Some (sig, s) => Some (Z.shiftl sig Tp, s)
          | None => None
          end
      | Some (true, s) =>
          match ReadBits 5 s with
          | Some (L, s) =>
              match ReadBits 6 s with
              | Some (n, s) =>
                  let n := if n =? 0 then 64 else n in
                  match ReadBits (Z.to_nat n) s with
                  | Some (sig, s) => Some (Z.shiftl sig (64 - L - n), s)
                  | None => None
                  end
              | None => None
              end
          | None => None
          end
      | None => None
      end
  | None => None
  end.

(** The two states of a field of section 4.3. *)
Inductive FloatState : Type :=
| Uninitialized
| Initialized (previousBits previousXor : Z).

(** One value of a float field: 64 raw bits the first time, an XOR against
    the previous bits afterwards.  The previous XOR becomes the XOR read, as
    the encoder keeps it. *)
Definition decodeFloat (st : FloatState) (s : list bool)
  : option (Z * FloatState * list bool) :=
  match st with
  | Uninitialized =>
      match ReadBits 64 s with
      | Some (v, s) => Some (v, Initialized v v, s)
      | None => None
      end
  | Initialized previousBits previousXor =>
      match ReadXOR previousXor s with
      | Some (x, s) =>
          let v := Z.lxor previousBits x in
          Some (v, Initialized v x, s)
      | None => None
      end
  end.

(** The bits read, as a value of the kind of the field: a [float64] as it
    is, a [float32] narrowed. *)
Definition floatOf (t : FieldType) (bits : Z) : Value :=
  match t with
  | TYPE_FLOAT => VFloat32 (float64_to_float32 bits)
  | _ => VFloat64 bits
  end.

Record decoder : Type := mkDecoder {
  dschema : MessageDescriptor;
  dfields : list (FieldDescriptor * FloatState);
  LastMessage : option Message
}.

(** The numeric fields are classified as by the encoder (section 4.2). *)
Definition NewDecoder (sc : MessageDescriptor) : decoder :=
  {| dschema := sc;
     dfields := (fun fd => (fd, Uninitialized)) <$>
                  filter (fun fd => isTSZType (GetType fd) = true) (GetFields sc);
     LastMessage := None |}.

(** Step 1 of decode: the numeric run, one value per numeric field in schema
    order, assigned to the output. *)
Fixpoint decodeTSZValues (fields : list (FieldDescriptor * FloatState))
    (s : list bool)
  : option (list (FieldDescriptor * FloatState) * gmap Z Value * list bool) :=
  match fields with
  | [] => Some ([], ∅, s)
  | (fd, st) :: rest =>
      match decodeFloat st s with
      | Some (v, st', s) =>
          match decodeTSZValues rest s with
          | Some (rest', vs, s) =>
              Some ((fd, st') :: rest',
                    <[GetNumber fd := floatOf (GetType fd) v]> vs, s)
          | None => None
          end
      | None => None
      end
  end.

(** The general fields that a message sets. *)
Definition generalValues (sc : MessageDescriptor) (m : option Message) : gmap Z Value :=
  match m with
  | Some m => filter (fun kv => kv.1 ∈ generalNums sc) (values m)
  | None => ∅
  end.

Section Decoder.

(** [unmarshal(bytes, schema)] of section 6. *)
Variable Unmarshal : MessageDescriptor -> list Z -> option Message.

(** Steps 2 and 3 of decode: the general fields of the output.  After a [0]
    they are those of [LastMessage]; after a [1] they are the fields of the
    payload at the numbers that the bitmap marks and the fields of
    [LastMessage] at the numbers that it does not mark. *)
Definition decodeProtoValues (sc : MessageDescriptor) (last : option Message)
    (s : list bool) : option (gmap Z Value * list bool) :=
  match ReadBit s with
  | Some (false, s) => Some (generalValues sc last, s)
  | Some (true, s) =>
      match ReadVarint s with
      | Some (bitmapLen, s) =>
          match ReadBitmap (Z.to_nat bitmapLen) s with
          | Some (bm, s) =>
              match ReadVarint s with
              | Some (payloadLen, s) =>
                  match ReadBytes (Z.to_nat payloadLen) s with
                  | Some (payload, s) =>
                      match Unmarshal sc payload with
                      | Some partial =>
                          Some (filter (fun kv => marked bm kv.1 = true)
                                       (values partial) ∪
                                  filter (fun kv => marked bm kv.1 = false)
                                         (generalValues sc last), s)
                      | None => None
                      end
                  | None => None
                  end
              | None => None
              end
          | None => None
          end
      | None => None
      end
  | None => None
  end.

(** Decode of one frame (section 4.4): the message, the decoder afterwards
    and the rest of the input. *)
Definition Decode (dec : decoder) (s : list bool)
  : option (Message * decoder * list bool) :=
  match decodeTSZValues (dfields dec) s with
  | Some (fields', numeric, s) =>
      match decodeProtoValues (dschema dec) (LastMessage dec) s with
      | Some (general, s) =>
          let out := mkMessage (dschema dec) (numeric ∪ general) in
          Some (out, mkDecoder (dschema dec) fields' (Some out), s)
      | None => None
      end
  | None => None
  end.

Fixpoint decodeAll (n : nat) (dec : decoder) (s : list bool)
  : option (list Message * decoder * list bool) :=
  match n with
  | O => Some ([], dec, s)
  | S k =>
      match Decode dec s with
      | Some (m, dec', s') =>
          match decodeAll k dec' s' with
          | Some (ms, dec'', s'') => Some (m :: ms, dec'', s'')
          | None => None
          end
      | None => None
      end
  end.

End Decoder.

(** ** Encoding a sequence and decoding it *)

(** [Encode] on each of the messages at [ps] in turn. *)
Fixpoint encodeAll (Marshal : Message -> option (list Z)) (ps : list positive)
    (w : encoder * gmap positive Message) : outcome (encoder * gmap positive Message) :=
  match ps with
  | [] => Returned w
  | p :: rest =>
      match Encode Marshal p w with
      | Returned (_, w') => encodeAll Marshal rest w'
      | Panicked => Panicked
      end
  end.

(** The state after a call of [Encode]. *)
Definition afterEncode (Marshal : Message -> option (list Z)) (p : positive)
    (w : encoder * gmap positive Message) : encoder * gmap positive Message :=
  match Encode Marshal p w with
  | Returned (_, w') => w'
  | Panicked => w
  end.

(** The two messages read the same at every field of the schema. *)
Definition sameFields (sc : MessageDescriptor) (out m : Message) : Prop :=
  md out = sc /\
  forall n, n ∈ GetNumber <$> GetFields sc ->
    TryGetFieldByNumber out n = TryGetFieldByNumber m n.

(** C1 as the specification states it: the messages at [ps], encoded in
    turn by a new encoder, are what decoding the stream gives back, and the
    stream is used up. *)
Definition roundTrips (Marshal : Message -> option (list Z))
    (Unmarshal : MessageDescriptor -> list Z -> option Message)
    (sc : MessageDescriptor) (h : gmap positive Message) (ps : list positive) : Prop :=
  exists w' outs dec',
    encodeAll Marshal ps (NewEncoder [] sc, h) = Returned w' /\
    decodeAll Unmarshal (length ps) (NewDecoder sc) (stream w'.1)
      = Some (outs, dec', []) /\
    Forall2 (fun p out => exists m, h !! p = Some m /\ sameFields sc out m) ps outs.

(** A pattern of 64 bits. *)
Definition bits64 (v : Z) : Prop := 0 <= v < 2 ^ 64.

(** A float field holds nothing, or a float of its kind: 64 bits in a
    DOUBLE field, 32 bits other than a signalling NaN in a FLOAT field. *)
Definition floatTyped (t : FieldType) (v : option Value) : bool :=
  match v, t with
  | None, _ => true
  | Some (VFloat64 x), TYPE_DOUBLE => bool_decide (bits64 x)
  | Some (VFloat32 b), TYPE_FLOAT => bool_decide (0 <= b < 2 ^ 32) && negb (signallingNaN b)
  | _, _ => false
  end.

(** A well-typed message of the schema. *)
Definition wellTyped (sc : MessageDescriptor) (m : Message) : Prop :=
  md m = sc /\
  Forall (fun fd => floatTyped (GetType fd) (values m !! GetNumber fd) = true)
         (filter (fun fd => isTSZType (GetType fd) = true) (GetFields sc)).

(** The [float64] bits of a float field: zero when it is not set. *)
Definition floatBitsOf (v : option Value) : Z :=
  match v with
  | Some (VFloat64 x) => x
  | Some (VFloat32 b) => float32_to_float64 b
  | _ => 0
  end.

(** The bits of the float fields of the message, in schema order. *)
Definition floatBits (sc : MessageDescriptor) (m : Message) : list Z :=
  (fun fd => floatBitsOf (values m !! GetNumber fd)) <$>
    filter (fun fd => isTSZType (GetType fd) = true) (GetFields sc).

(** Each float field of the schema reads in [m] as the value of its kind
    that the decoder makes of the bits [vals] that the encoder writes: a
    [float32] comes back from its widening. *)
Definition floatsExact (sc : MessageDescriptor) (m : Message) (vals : list Z) : Prop :=
  Forall2 (fun fd v =>
             TryGetFieldByNumber m (GetNumber fd) = inr (floatOf (GetType fd) v))
          (filter (fun fd => isTSZType (GetType fd) = true) (GetFields sc)) vals.

(** The payload message, when the frame has one, marshals to bytes of a
    length that [writeVarInt] holds, and unmarshals from them. *)
Definition payloadExact (Marshal : Message -> option (list Z))
    (Unmarshal : MessageDescriptor -> list Z -> option Message)
    (sc : MessageDescriptor) (x : option Message) : Prop :=
  match x with
  | None => True
  | Some x =>
      exists payload,
        Marshal x = Some payload /\
        Z.of_nat (length payload) < 2 ^ 56 /\
        Forall (fun b => 0 <= b < 256) payload /\
        Unmarshal sc payload = Some x
  end.

(** The message reads at every general field of the schema as a message
    that sets none. *)
Definition generalUnset (sc : MessageDescriptor) (m : Message) : Prop :=
  forall n, n ∈ generalNums sc ->
    TryGetFieldByNumber m n = TryGetFieldByNumber (NewMessage sc) n.

(** What the round trip of the message at [p] needs when the encoder is in
    the state [w]: the message is well typed, the payload survives
    marshalling, and the first message of a stream sets no general field
    (the bitmap of its frame marks none). *)
Definition frameDecodable (Marshal : Message -> option (list Z))
    (Unmarshal : MessageDescriptor -> list Z -> option Message)
    (w : encoder * gmap positive Message) (p : positive) : Prop :=
  exists m,
    w.2 !! p = Some m /\
    wellTyped (schema w.1) m /\
    (lastEncoded w.1 = None -> generalUnset (schema w.1) m) /\
    payloadExact Marshal Unmarshal (schema w.1) (framePayload w.1 w.2 p m).

(** [frameDecodable] for each message of the sequence, in the state that
    the encoder has reached by then. *)
Fixpoint decodable (Marshal : Message -> option (list Z))
    (Unmarshal : MessageDescriptor -> list Z -> option Message)
    (w : encoder * gmap positive Message) (ps : list positive) : Prop :=
  match ps with
  | [] => True
  | p :: rest =>
      frameDecodable Marshal Unmarshal w p /\
      decodable Marshal Unmarshal (afterEncode Marshal p w) rest
  end.

(** *** Encoder and decoder in step *)

(** The state that the decoder holds for a float field when the encoder
    holds [st]. *)
Definition stateOf (written : bool) (st : tszFieldState) : FloatState :=
  if written then Initialized (prevFloatBits st) (prevXOR st) else Uninitialized.

(** The values that [decodeTSZValues] assigns when it reads [vals]. *)
Definition numericValues (fds : list FieldDescriptor) (vals : list Z) : gmap Z Value :=
  list_to_map (zip_with (fun fd v => (GetNumber fd, floatOf (GetType fd) v)) fds vals).

(** [LastMessage] of the decoder reads as the message [lastEncoded] points
    to at every general field. *)
Definition lastSync (sc : MessageDescriptor) (prev last : option Message) : Prop :=
  match prev, last with
  | None, None => True
  | Some prev, Some last =>
      md last = sc /\
      forall n, n ∈ generalNums sc ->
        TryGetFieldByNumber last n = TryGetFieldByNumber prev n
  | _, _ => False
  end.

(** The decoder has read what the encoder has written: same schema, same
    float fields in the same states, same last message. *)
Definition synced (w : encoder * gmap positive Message) (dec : decoder) : Prop :=
  wf_schema (schema w.1) /\ wf_encoder w.1 /\ wf_last w.1 w.2 /\ lastCleared w.1 w.2 /\
  dschema dec = schema w.1 /\
  (dfields dec).*1 =
    filter (fun fd => isTSZType (GetType fd) = true) (GetFields (schema w.1)) /\
  (dfields dec).*2 = stateOf (hasWrittenFirstTSZ w.1) <$> tszFields w.1 /\
  (hasWrittenFirstTSZ w.1 = true ->
   Forall (fun st => bits64 (prevXOR st) /\ bits64 (prevFloatBits st)) (tszFields w.1)) /\
  lastSync (schema w.1) (lastMessage w.1 w.2) (LastMessage dec).

(** ** What a call may change *)

(** [w'] is [w] with bits appended to the stream. *)
Definition onlyAppends (w w' : encoder * gmap positive Message) : Prop :=
  exists bits, w' = (set_stream (stream w.1 ++ bits) w.1, w.2).

(** What a call on the message at [p] may change: bits are appended to the
    stream, the states of the float fields and the two flags may change, and
    the message at [p] may lose float fields.  The schema, the field numbers
    of the states, the other messages, and the descriptor and the other
    fields of the message at [p] stay. *)
Definition frameRule (p : positive) (w w' : encoder * gmap positive Message) : Prop :=
  stream w.1 `prefix_of` stream w'.1 /\
  schema w'.1 = schema w.1 /\
  fieldNum <$> tszFields w'.1 = fieldNum <$> tszFields w.1 /\
  (hasWrittenFirstTSZ w.1 = true -> hasWrittenFirstTSZ w'.1 = true) /\
  (forall q, q <> p -> w'.2 !! q = w.2 !! q) /\
  (forall m, w.2 !! p = Some m ->
     exists m', w'.2 !! p = Some m' /\ md m' = md m /\
       forall n, n ∉ fieldNum <$> tszFields w.1 -> values m' !! n = values m !! n).

(** ** Example data: the scenario of section 8 *)

Module Scenario.

(** Schema [{1: float64 "value", 2: string "tag"}]. *)
Definition sch : MessageDescriptor :=
  mkDescriptor "pkg.Msg" [mkField 1 TYPE_DOUBLE; mkField 2 TYPE_STRING].

Definition msg (value : Z) (tag : string) : Message :=
  mkMessage sch (<[1 := VFloat64 value]> (<[2 := VString tag]> ∅)).

(** The bit patterns of [10.0] and [10.5]. *)
Definition f10_0 : Z := 0x4024000000000000.
Definition f10_5 : Z := 0x4025000000000000.

Definition m1 : Message := msg f10_0 "a".
Definition m2 : Message := msg f10_0 "a".
Definition m3 : Message := msg f10_5 "b".

(** Three distinct message objects. *)
Definition h0 : gmap positive Message :=
  <[1%positive := m1]> (<[2%positive := m2]> (<[3%positive := m3]> ∅)).

(** A message of a descriptor that does not declare field 1. *)
Definition tagOnly : Message :=
  mkMessage (mkDescriptor "pkg.Msg" [mkField 2 TYPE_STRING]) (<[2 := VString "a"]> ∅).

(** A message of a descriptor that declares field 1 as a string. *)
Definition stringValue : Message :=
  mkMessage (mkDescriptor "pkg.Msg" [mkField 1 TYPE_STRING; mkField 2 TYPE_STRING])
            (<[1 := VString "x"]> (<[2 := VString "a"]> ∅)).

(** The scenario with a first message that sets no tag. *)
Definition hUntagged : gmap positive Message :=
  <[1%positive := mkMessage sch (<[1 := VFloat64 f10_0]> ∅)]> h0.

(** Schema [{1: float64, 2: string, 3: float32}] and messages of other
    descriptors: one that does not declare field 3, one that declares it as
    a string. *)
Definition sch3 : MessageDescriptor :=
  mkDescriptor "pkg.Msg"
    [mkField 1 TYPE_DOUBLE; mkField 2 TYPE_STRING; mkField 3 TYPE_FLOAT].

Definition noThird : Message :=
  mkMessage (mkDescriptor "pkg.Msg" [mkField 1 TYPE_DOUBLE; mkField 2 TYPE_STRING])
            (<[1 := VFloat64 f10_0]> (<[2 := VString "a"]> ∅)).

Definition stringThird : Message :=
  mkMessage (mkDescriptor "pkg.Msg"
               [mkField 1 TYPE_DOUBLE; mkField 2 TYPE_STRING; mkField 3 TYPE_STRING])
            (<[1 := VFloat64 f10_0]> (<[3 := VString "x"]> ∅)).

(** A message of [sch3] that sets its two float fields only. *)
Definition msg3 (value single : Z) : Message :=
  mkMessage sch3 (<[1 := VFloat64 value]> (<[3 := VFloat32 single]> ∅)).

(** The bit pattern of the [float32] [1.0]. *)
Definition single1_0 : Z := 0x3F800000.

(** One message with a [float32] signalling NaN, and one with the quiet NaN
    of the same payload. *)
Definition hSignalling : gmap positive Message :=
  <[1%positive := msg3 f10_0 0x7F800001]> ∅.

Definition hQuiet : gmap positive Message :=
  <[1%positive := msg3 f10_0 0x7FC00001]> ∅.

(** A message of a descriptor that does not declare field 3, with the value
    [10.5] in field 1; and the store of a message of [sch3] followed by
    it. *)
Definition noThirdNext : Message :=
  mkMessage (mkDescriptor "pkg.Msg" [mkField 1 TYPE_DOUBLE; mkField 2 TYPE_STRING])
            (<[1 := VFloat64 f10_5]> (<[2 := VString "a"]> ∅)).

Definition hStops : gmap positive Message :=
  <[1%positive := msg3 f10_0 single1_0]> (<[2%positive := noThirdNext]> ∅).

(** A message of a descriptor that does not declare field 1 and sets the
    float field 3. *)
Definition noFirst : Message :=
  mkMessage (mkDescriptor "pkg.Msg" [mkField 2 TYPE_STRING; mkField 3 TYPE_FLOAT])
            (<[2 := VString "a"]> (<[3 := VFloat32 single1_0]> ∅)).

(** A [Marshal] that fails. *)
Definition failingMarshal (m : Message) : option (list Z) := None.

End Scenario.

(** ** The scenario, run *)

Module Run.

Import Scenario.

(** The state after one more call of [Encode]. *)
Definition after (w : encoder * gmap positive Message) (p : positive)
  : encoder * gmap positive Message :=
  match Encode wire.Marshal p w with
  | Returned (_, w') => w'
  | Panicked => w
  end.

(** The stream that a new encoder for the schema [sc] writes for the
    messages at [ps]. *)
Definition streamOf (sc : MessageDescriptor) (h : gmap positive Message)
    (ps : list positive) : option (list bool) :=
  match encodeAll wire.Marshal ps (NewEncoder [] sc, h) with
  | Returned w => Some (stream w.1)
  | Panicked => None
  end.

Definition w0 : encoder * gmap positive Message := (NewEncoder [] sch, h0).

(** A new encoder for the schema with two float fields. *)
Definition enc3 : encoder := NewEncoder [] sch3.

(** The state after a call of [encodeProtoValues] alone. *)
Definition afterProto (w : encoder * gmap positive Message) (p : positive)
  : encoder * gmap positive Message :=
  match encodeProtoValues wire.Marshal p w with
  | Returned (_, w') => w'
  | Panicked => w
  end.
Definition w1 := after w0 1%positive.
Definition w2 := after w1 2%positive.
Definition w3 := after w2 3%positive.

(** The state after [Encode] of the first message of [hStops]. *)
Definition v1 : encoder * gmap positive Message := after (enc3, hStops) 1%positive.

End Run.

(** * Properties *)

Arguments OStream.bits_msb : simpl never.
Arguments m3tsz.WriteXOR : simpl never.
Arguments float32_to_float64 : simpl never.

(** Runs the monadic code as far as the state is known. *)
Ltac go_run :=
  cbv [bind ret panic getEnc modifyEnc deref store liftO
       WriteBit WriteBits WriteBytes tszFieldAt
       writeFirstTSZValue writeNextTSZValue
       set_stream set_hasWrittenFirstTSZ set_lastEncoded set_tszFields
       ClearFieldByNumber GetFieldByNumber Float64bits
       OStream.WriteBit OStream.WriteBits OStream.WriteBytes fst snd negb];
  cbn [stream schema hasWrittenFirstTSZ lastEncoded tszFields].

(** Closes a decidable hypothesis on concrete data. *)
Ltac by_compute := apply (bool_decide_unpack _); vm_compute; exact I.

(** ** Basic facts *)

Lemma md_clearFields nums : forall m, md (clearFields nums m) = md m.
Proof. induction nums as [|n nums IH]; intros m; simpl; [done | by rewrite IH]. Qed.

Lemma lookup_clearFields nums : forall m k,
  values (clearFields nums m) !! k =
    if decide (k ∈ nums) then None else values m !! k.
Proof.
  induction nums as [|n nums IH]; intros m k; cbn [clearFields].
  - destruct (decide (k ∈ [])) as [Hk|_]; [by apply elem_of_nil in Hk | done].
  - rewrite IH. cbn [values]. destruct (decide (k = n)) as [->|Hne].
    + rewrite lookup_delete_eq. rewrite (decide_True _ _ (list_elem_of_here n nums)).
      by case_decide.
    + rewrite lookup_delete_ne by done.
      destruct (decide (k ∈ nums)) as [Hin|Hnin].
      * by rewrite decide_True by (by apply list_elem_of_further).
      * rewrite decide_False; [done|]. intros [?|?]%elem_of_cons; done.
Qed.

Lemma length_bits_msb n v : length (OStream.bits_msb n v) = n.
Proof. induction n as [|n IH]; simpl; [done | by rewrite IH]. Qed.

Lemma WriteXOR_app s prev cur :
  m3tsz.WriteXOR s prev cur = s ++ m3tsz.WriteXOR [] prev cur.
Proof.
  unfold m3tsz.WriteXOR, OStream.WriteBits, OStream.WriteBit.
  repeat case_match; simpl; rewrite <- ?app_assoc; reflexivity.
Qed.

Lemma WriteXOR_zero s prev : m3tsz.WriteXOR s prev 0 = s ++ [false].
Proof. reflexivity. Qed.

Lemma FindFieldDescriptor_clear m n k :
  FindFieldDescriptor (mkMessage (md m) (delete n (values m))) k = FindFieldDescriptor m k.
Proof. reflexivity. Qed.

Lemma tszValue_clear_ne m n k :
  k <> n -> tszValue (mkMessage (md m) (delete n (values m))) k = tszValue m k.
Proof.
  intros Hne. unfold tszValue, TryGetFieldByNumber. simpl.
  rewrite FindFieldDescriptor_clear. by rewrite lookup_delete_ne.
Qed.

Lemma tszValue_known m n v :
  tszValue m n = Some v -> exists fd, FindFieldDescriptor m n = Some fd.
Proof.
  unfold tszValue, TryGetFieldByNumber.
  destruct (FindFieldDescriptor m n) as [fd|]; [eauto | done].
Qed.

Lemma Forall2_tszValue_clear msg n fields vals :
  n ∉ fieldNum <$> fields ->
  Forall2 (fun st v => tszValue msg (fieldNum st) = Some v) fields vals ->
  Forall2 (fun st v =>
    tszValue (mkMessage (md msg) (delete n (values msg))) (fieldNum st) = Some v)
    fields vals.
Proof.
  intros Hn Hv. induction Hv as [|st v fields vals Hst Hv IH]; constructor.
  - rewrite tszValue_clear_ne; [done|]. intros Heq. apply Hn. rewrite <- Heq.
    rewrite fmap_cons. apply list_elem_of_here.
  - apply IH. intros Hin. apply Hn. rewrite fmap_cons. by apply list_elem_of_further.
Qed.

(** ** The numeric run *)

(** One iteration of the loop on a field that holds a float. *)
Lemma encodeTSZLoop_cons p i st rest enc (h : gmap positive Message) msg v :
  h !! p = Some msg ->
  tszValue msg (fieldNum st) = Some v ->
  tszFields enc !! i = Some st ->
  encodeTSZLoop p i (st :: rest) (enc, h) =
    encodeTSZLoop p (S i) rest
      (mkEncoder
         (stream enc ++ tszOut (hasWrittenFirstTSZ enc) st v)
         (schema enc) (hasWrittenFirstTSZ enc) (lastEncoded enc)
         (<[i := tszUpd (hasWrittenFirstTSZ enc) st v]> (tszFields enc)),
       <[p := mkMessage (md msg) (delete (fieldNum st) (values msg))]> h).
Proof.
  intros Hp Hv Hi.
  destruct (tszValue_known _ _ _ Hv) as [fd Hfd].
  unfold tszValue in Hv.
  destruct enc as [s sc written le fs]. cbn [tszFields stream schema hasWrittenFirstTSZ lastEncoded] in *.
  cbn [encodeTSZLoop]. unfold bind at 1, deref at 1. cbn [fst snd]. rewrite Hp.
  destruct (TryGetFieldByNumber msg (fieldNum st)) as [e|iVal]; [done|].
  assert (Hstep : forall val, 
    (let* enc := getEnc in
     (if negb (hasWrittenFirstTSZ enc)
      then writeFirstTSZValue i val else writeNextTSZValue i val);;
     let* msg0 := deref p in
     let* cleared := liftO (ClearFieldByNumber msg0 (fieldNum st)) in
     store p cleared;; encodeTSZLoop p (S i) rest) (mkEncoder s sc written le fs, h) =
    encodeTSZLoop p (S i) rest
      (mkEncoder (s ++ tszOut written st val) sc written le
                 (<[i := tszUpd written st val]> fs),
       <[p := mkMessage (md msg) (delete (fieldNum st) (values msg))]> h)).
  { intros val.
    destruct written; go_run; rewrite Hi; go_run; rewrite Hp; go_run;
      rewrite Hfd; go_run; unfold tszOut, tszUpd.
    - by rewrite (WriteXOR_app s).
    - reflexivity. }
  destruct iVal; try done; injection Hv as <-; unfold bind at 1, ret at 1;
    apply Hstep.
Qed.

Lemma encodeTSZLoop_ok p : forall fields pre enc (h : gmap positive Message) msg vals,
  tszFields enc = pre ++ fields ->
  h !! p = Some msg ->
  NoDup (fieldNum <$> fields) ->
  Forall2 (fun st v => tszValue msg (fieldNum st) = Some v) fields vals ->
  encodeTSZLoop p (length pre) fields (enc, h) =
    Returned (None,
      (mkEncoder
         (stream enc ++ concat (zip_with (tszOut (hasWrittenFirstTSZ enc)) fields vals))
         (schema enc) (hasWrittenFirstTSZ enc) (lastEncoded enc)
         (pre ++ zip_with (tszUpd (hasWrittenFirstTSZ enc)) fields vals),
       <[p := clearFields (fieldNum <$> fields) msg]> h)).
Proof.
  induction fields as [|st rest IH]; intros pre enc h msg vals Hf Hp Hnd Hv.
  - apply Forall2_nil_inv_l in Hv as ->. cbn.
    rewrite !app_nil_r, insert_id by done. rewrite app_nil_r in Hf.
    destruct enc; cbn in *; by subst.
  - apply Forall2_cons_inv_l in Hv as (v & vals' & Hv1 & Hv & ->).
    rewrite fmap_cons in Hnd. apply NoDup_cons in Hnd as [Hnotin Hnd].
    assert (Hlk : tszFields enc !! length pre = Some st)
      by (by rewrite Hf, list_lookup_middle).
    rewrite (encodeTSZLoop_cons p _ st rest enc h msg v Hp Hv1 Hlk).
    specialize (IH (pre ++ [tszUpd (hasWrittenFirstTSZ enc) st v])).
    rewrite length_app, Nat.add_1_r in IH. 
    erewrite IH; [| | apply lookup_insert_eq | exact Hnd
                  | by apply Forall2_tszValue_clear ].
    + cbn [stream schema hasWrittenFirstTSZ lastEncoded tszFields zip_with concat
           fmap list_fmap clearFields].
      by rewrite insert_insert_eq, <- !app_assoc.
    + cbn [tszFields]. rewrite Hf.
      rewrite <- (Nat.add_0_r (length pre)), insert_app_r. 
      by rewrite <- app_assoc.
Qed.

Lemma encodeTSZValues_ok p enc (h : gmap positive Message) msg vals :
  h !! p = Some msg ->
  NoDup (fieldNum <$> tszFields enc) ->
  Forall2 (fun st v => tszValue msg (fieldNum st) = Some v) (tszFields enc) vals ->
  encodeTSZValues p (enc, h) =
    Returned (None,
      (mkEncoder
         (stream enc ++ concat (zip_with (tszOut (hasWrittenFirstTSZ enc)) (tszFields enc) vals))
         (schema enc) true (lastEncoded enc)
         (zip_with (tszUpd (hasWrittenFirstTSZ enc)) (tszFields enc) vals),
       <[p := clearFields (fieldNum <$> tszFields enc) msg]> h)).
Proof.
  intros Hp Hnd Hv. unfold encodeTSZValues.
  unfold bind at 1, getEnc at 1. cbn [fst].
  pose proof (encodeTSZLoop_ok p (tszFields enc) [] enc h msg vals eq_refl Hp Hnd Hv)
    as Hloop.
  cbn [length app] in Hloop. unfold bind at 1. rewrite Hloop. reflexivity.
Qed.

Lemma numericRun_first fields : forall vals,
  length fields = length vals ->
  numericRun false fields vals = concat (OStream.bits_msb 64 <$> vals).
Proof.
  unfold numericRun.
  induction fields as [|st fields IH]; intros [|v vals] Hlen; try done.
  cbn [zip_with concat fmap list_fmap]. rewrite IH by (cbn in Hlen; lia). done.
Qed.

Lemma tszUpd_first fields : forall nums vals,
  fieldNum <$> fields = nums ->
  length fields = length vals ->
  zip_with (tszUpd false) fields vals = zip_with (fun n v => mkTsz n v v) nums vals.
Proof.
  induction fields as [|st fields IH]; intros nums [|v vals] <- Hlen; try done.
  cbn [zip_with fmap list_fmap]. f_equal. apply IH; [done | cbn in Hlen; lia].
Qed.

(** The numeric run of a message whose float values are those of the states:
    one [0] bit per field. *)
Lemma numericRun_same fields :
  numericRun true fields (prevFloatBits <$> fields) = replicate (length fields) false.
Proof.
  unfold numericRun. induction fields as [|st fields IH]; [done|].
  cbn [zip_with concat fmap list_fmap length replicate]. rewrite IH.
  unfold tszOut. by rewrite Z.lxor_nilpotent, WriteXOR_zero.
Qed.

Lemma tszNums_NoDup sc : wf_schema sc -> NoDup (tszNums sc).
Proof.
  intros [Hnd _]. unfold tszNums.
  eapply sublist_NoDup; [exact Hnd | apply fmap_sublist, sublist_filter].
Qed.

Lemma wf_encoder_NoDup enc :
  wf_schema (schema enc) -> wf_encoder enc -> NoDup (fieldNum <$> tszFields enc).
Proof. intros Hsc Henc. rewrite Henc. by apply tszNums_NoDup. Qed.

Lemma fieldNum_tszUpd written fields : forall vals,
  length vals = length fields ->
  fieldNum <$> zip_with (tszUpd written) fields vals = fieldNum <$> fields.
Proof.
  induction fields as [|st fields IH]; intros [|v vals] Hlen; try done.
  cbn. f_equal; [by destruct written | apply IH; cbn in Hlen; lia].
Qed.

Lemma prevFloatBits_tszUpd written fields : forall vals,
  length vals = length fields ->
  prevFloatBits <$> zip_with (tszUpd written) fields vals = vals.
Proof.
  induction fields as [|st fields IH]; intros [|v vals] Hlen; try done.
  cbn. f_equal; [by destruct written | apply IH; cbn in Hlen; lia].
Qed.

Lemma tszUpd_values written m fields vals :
  Forall2 (fun st v => tszValue m (fieldNum st) = Some v) fields vals ->
  Forall (fun st => tszValue m (fieldNum st) = Some (prevFloatBits st))
         (zip_with (tszUpd written) fields vals).
Proof.
  induction 1 as [|st v fields vals Hst Hrest IH]; cbn [zip_with]; constructor;
    [by destruct written | exact IH].
Qed.

Lemma newTszFields_fieldNum sc : fieldNum <$> newTszFields sc = tszNums sc.
Proof.
  unfold newTszFields, tszNums. rewrite <- list_fmap_compose.
  by apply list_fmap_ext.
Qed.

Lemma newTszFields_length sc : length (newTszFields sc) = numTSZFields sc.
Proof. unfold newTszFields, numTSZFields. by rewrite length_fmap. Qed.

Lemma NewEncoder_wf b sc : wf_encoder (NewEncoder b sc).
Proof. unfold wf_encoder. cbn. apply newTszFields_fieldNum. Qed.

(** ** Variable-length integers and the bitmap *)

Lemma bind_run {A B} (c : Go A) (k : A -> Go B) w a w' :
  c w = Returned (a, w') -> bind c k w = k a w'.
Proof. intros H. unfold bind. by rewrite H. Qed.

Lemma PutUvarint_uvarintN room : forall fuel x,
  room <> O -> 0 <= x < 2 ^ (7 * Z.of_nat room) -> (room <= fuel)%nat ->
  PutUvarint room x = Some (uvarintN fuel x).
Proof.
  induction room as [|room IH]; intros fuel x Hroom Hx Hle; [done|].
  destruct fuel as [|fuel]; [lia|]. cbn [PutUvarint uvarintN].
  destruct (128 <=? x) eqn:E; [|done]. apply Z.leb_le in E.
  destruct (decide (room = O)) as [->|Hne].
  { change (2 ^ (7 * Z.of_nat 1)) with 128 in Hx. lia. }
  rewrite (IH fuel); [done|done| |lia].
  rewrite Z.shiftr_div_pow2 by lia.
  replace (7 * Z.of_nat (S room)) with (7 + 7 * Z.of_nat room) in Hx by lia.
  rewrite Z.pow_add_r in Hx by lia. split.
  - apply Z.div_pos; lia.
  - apply Z.div_lt_upper_bound; lia.
Qed.

Lemma PutUvarint_uvarint x :
  0 <= x < 2 ^ 56 -> PutUvarint 8 x = Some (uvarint x).
Proof. intros Hx. apply PutUvarint_uvarintN; [done | exact Hx | lia]. Qed.

Lemma writeVarInt_run x enc (h : gmap positive Message) :
  0 <= x < 2 ^ 56 ->
  writeVarInt x (enc, h) =
    Returned (tt, (set_stream (stream enc ++ OStream.bytes_bits (uvarint x)) enc, h)).
Proof. intros Hx. unfold writeVarInt. by rewrite PutUvarint_uvarint. Qed.

Lemma bitsetMax_maxField vals : bitsetMax vals = maxField vals.
Proof.
  unfold bitsetMax, maxField.
  enough (H : forall a, 0 <= a ->
            fold_left (fun max v => if max <? v then v else max) vals a
            = Z.max a (foldr Z.max 0 vals)).
  { rewrite H by lia. assert (0 <= foldr Z.max 0 vals); [|lia].
    clear. induction vals; cbn; lia. }
  induction vals as [|v vals IH]; intros a Ha; cbn [fold_left foldr]; [lia|].
  destruct (a <? v) eqn:E.
  - apply Z.ltb_lt in E. rewrite IH by lia. lia.
  - apply Z.ltb_ge in E. rewrite IH by lia. lia.
Qed.

Lemma existsb_eqb_elem_of i (vals : list Z) :
  existsb (Z.eqb i) vals = bool_decide (i ∈ vals).
Proof.
  induction vals as [|v vals IH]; cbn [existsb].
  - symmetry. apply bool_decide_eq_false. apply not_elem_of_nil.
  - rewrite IH. destruct (Z.eqb_spec i v) as [->|Hne]; cbn [orb].
    + symmetry. apply bool_decide_eq_true. apply list_elem_of_here.
    + apply bool_decide_ext. rewrite elem_of_cons. tauto.
Qed.

Lemma writeBitsetLoop_run vals : forall idx enc (h : gmap positive Message),
  writeBitsetLoop idx vals (enc, h) =
    Returned (tt, (set_stream
                     (stream enc ++ ((fun i => bool_decide (i ∈ vals)) <$> idx)) enc, h)).
Proof.
  induction idx as [|i idx IH]; intros enc h; cbn [writeBitsetLoop fmap list_fmap].
  - unfold ret, set_stream. rewrite app_nil_r. by destruct enc.
  - rewrite <- existsb_eqb_elem_of.
    destruct (existsb (Z.eqb i) vals); go_run; rewrite IH; go_run;
      by rewrite <- app_assoc.
Qed.

Lemma maxField_nonneg vals : 0 <= maxField vals.
Proof. unfold maxField. induction vals as [|v vals IH]; cbn; lia. Qed.

Lemma maxField_bound vals b :
  0 <= b -> Forall (fun v => v <= b) vals -> maxField vals <= b.
Proof. unfold maxField. induction 2; cbn; lia. Qed.

Lemma writeBitset_run vals enc (h : gmap positive Message) :
  maxField vals + 1 < 2 ^ 56 ->
  writeBitset vals (enc, h) =
    Returned (tt, (set_stream
      (stream enc ++ OStream.bytes_bits (uvarint (maxField vals + 1)) ++ bitmap vals)
      enc, h)).
Proof.
  intros Hmax. unfold writeBitset. rewrite bitsetMax_maxField.
  pose proof (maxField_nonneg vals).
  erewrite bind_run by (apply writeVarInt_run; lia).
  rewrite writeBitsetLoop_run. unfold bitmap, set_stream. cbn.
  by rewrite <- app_assoc.
Qed.

Lemma length_bitmap vals : Z.of_nat (length (bitmap vals)) = maxField vals + 1.
Proof.
  unfold bitmap. rewrite length_fmap, length_seqZ.
  pose proof (maxField_nonneg vals). lia.
Qed.

Lemma lookup_bitmap vals i :
  0 <= i <= maxField vals ->
  bitmap vals !! Z.to_nat i = Some (bool_decide (i ∈ vals)).
Proof.
  intros Hi. unfold bitmap. rewrite list_lookup_fmap.
  rewrite lookup_seqZ_lt by lia. cbn.
  by replace (Z.of_nat (Z.to_nat i)) with i by lia.
Qed.

Lemma maxField_ge vals n : n ∈ vals -> n <= maxField vals.
Proof.
  unfold maxField. induction vals as [|v vals IH]; intros Hn.
  - by apply elem_of_nil in Hn.
  - apply elem_of_cons in Hn as [->|Hn]; cbn; [lia|]. specialize (IH Hn). lia.
Qed.

Lemma maxField_elem_of vals :
  vals <> [] -> Forall (fun v => 0 <= v) vals -> maxField vals ∈ vals.
Proof.
  unfold maxField. induction vals as [|v vals IH]; intros Hne Hpos; [done|].
  apply Forall_cons in Hpos as [Hv Hpos]. cbn [foldr].
  destruct vals as [|v' vals].
  - cbn. rewrite Z.max_l by lia. apply list_elem_of_here.
  - specialize (IH ltac:(done) Hpos).
    destruct (Z.max_spec v (foldr Z.max 0 (v' :: vals))) as [[_ ->]|[_ ->]].
    + by apply list_elem_of_further.
    + apply list_elem_of_here.
Qed.

Lemma fmap_const_replicate {A B} (f : A -> B) c l :
  Forall (fun x => f x = c) l -> f <$> l = replicate (length l) c.
Proof. induction 1 as [|x l Hx _ IH]; cbn; [done | by rewrite Hx, IH]. Qed.

(** The bitmap of one field number: zeros up to the number, then a one. *)
Lemma bitmap_singleton n :
  0 <= n -> bitmap [n] = replicate (Z.to_nat n) false ++ [true].
Proof.
  intros Hn. unfold bitmap, maxField. cbn [foldr]. rewrite Z.max_l by lia.
  rewrite seqZ_app by lia. rewrite fmap_app. f_equal.
  - rewrite (fmap_const_replicate _ false), length_seqZ; [done|].
    apply Forall_seqZ. intros i Hi. apply bool_decide_eq_false.
    intros ->%list_elem_of_singleton. lia.
  - rewrite seqZ_cons, seqZ_nil by lia. cbn. f_equal.
    apply bool_decide_eq_true. replace (0 + n) with n by lia.
    apply list_elem_of_here.
Qed.

Lemma popcount_singleton n : popcount (replicate n false ++ [true]) = 1%nat.
Proof.
  unfold popcount. induction n as [|n IH]; [done|].
  cbn [replicate app]. by rewrite filter_cons_False.
Qed.

(** ** The general run *)

Lemma TryGet_clear_ne m n k :
  k <> n ->
  TryGetFieldByNumber (mkMessage (md m) (delete n (values m))) k = TryGetFieldByNumber m k.
Proof.
  intros Hne. unfold TryGetFieldByNumber. rewrite FindFieldDescriptor_clear.
  cbn [values]. by rewrite lookup_delete_ne.
Qed.

Lemma filter_ext_elem_of {A} (P Q : A -> Prop)
    `{!forall x, Decision (P x), !forall x, Decision (Q x)} (l : list A) :
  (forall x, x ∈ l -> (P x <-> Q x)) -> filter P l = filter Q l.
Proof.
  induction l as [|a l IH]; intros Hext; [done|].
  rewrite !filter_cons.
  assert (Ha : P a <-> Q a) by (apply Hext, list_elem_of_here).
  rewrite IH by (intros x Hx; apply Hext; by apply list_elem_of_further).
  destruct (decide (P a)), (decide (Q a)); tauto.
Qed.

Lemma changedNums_clear_notin prev m n nums :
  n ∉ nums ->
  changedNums prev (mkMessage (md m) (delete n (values m))) nums = changedNums prev m nums
  /\ unchangedNums prev (mkMessage (md m) (delete n (values m))) nums
     = unchangedNums prev m nums.
Proof.
  intros Hn. unfold changedNums, unchangedNums, fieldChanged.
  split; apply filter_ext_elem_of; intros k Hk;
    (rewrite TryGet_clear_ne; [done|]); intros ->; done.
Qed.

Lemma diffLoop_ok last prev (h : gmap positive Message) enc :
  h !! last = Some prev ->
  forall fields m changed,
  NoDup (GetNumber <$> fields) ->
  Forall (fun fd => is_Some (FindFieldDescriptor prev (GetNumber fd)) /\
                    is_Some (FindFieldDescriptor m (GetNumber fd))) fields ->
  diffLoop last fields m changed (enc, h) =
    Returned ((clearFields (unchangedNums prev m (GetNumber <$> fields)) m,
               changed ++ changedNums prev m (GetNumber <$> fields)), (enc, h)).
Proof.
  intros Hlast. induction fields as [|fd fields IH]; intros m changed Hnd Hknown.
  - cbn. by rewrite app_nil_r.
  - rewrite fmap_cons in Hnd. apply NoDup_cons in Hnd as [Hnotin Hnd].
    apply Forall_cons in Hknown as [[[fp Hfp] [fm Hfm]] Hknown].
    assert (Eprev : exists prevVal, TryGetFieldByNumber prev (GetNumber fd) = inr prevVal).
    { unfold TryGetFieldByNumber. rewrite Hfp. destruct (values prev !! _); eauto. }
    assert (Ecur : exists curVal, TryGetFieldByNumber m (GetNumber fd) = inr curVal).
    { unfold TryGetFieldByNumber. rewrite Hfm. destruct (values m !! _); eauto. }
    destruct Eprev as [prevVal Eprev], Ecur as [curVal Ecur].
    destruct (changedNums_clear_notin prev m (GetNumber fd) (GetNumber <$> fields) Hnotin)
      as [Hc Hu].
    unfold changedNums, unchangedNums. rewrite fmap_cons, !filter_cons.
    fold (changedNums prev m (GetNumber <$> fields)).
    fold (unchangedNums prev m (GetNumber <$> fields)).
    cbn [diffLoop]. go_run. rewrite Hlast.
    destruct (decide (curVal = prevVal)) as [->|Hne].
    + rewrite (decide_False (P := fieldChanged prev m (GetNumber fd)))
        by (unfold fieldChanged; rewrite Eprev, Ecur; intros Hx; by apply Hx).
      rewrite (decide_True (P := ~ fieldChanged prev m (GetNumber fd)))
        by (unfold fieldChanged; rewrite Eprev, Ecur; intros Hx; by apply Hx).
      rewrite Eprev, Ecur. unfold fieldsEqual.
      rewrite bool_decide_eq_true_2 by done. rewrite Hfm.
      rewrite IH; [| done |].
      * cbn [clearFields]. by rewrite Hc, Hu.
      * eapply Forall_impl; [exact Hknown|]. cbn. intros fd' [? ?].
        by rewrite FindFieldDescriptor_clear.
    + rewrite (decide_True (P := fieldChanged prev m (GetNumber fd)))
        by (unfold fieldChanged; rewrite Eprev, Ecur; congruence).
      rewrite (decide_False (P := ~ fieldChanged prev m (GetNumber fd)))
        by (unfold fieldChanged; rewrite Eprev, Ecur; intros Hx; apply Hx; congruence).
      rewrite Eprev, Ecur. unfold fieldsEqual.
      rewrite bool_decide_eq_false_2 by done.
      rewrite IH by done.
      by rewrite <- app_assoc.
Qed.

Lemma FindFieldDescriptor_declared m fd :
  fd ∈ GetFields (md m) -> is_Some (FindFieldDescriptor m (GetNumber fd)).
Proof.
  unfold FindFieldDescriptor. intros Hin.
  destruct (List.find _ _) as [fd'|] eqn:E; [eauto|].
  apply list_elem_of_In in Hin.
  pose proof (List.find_none _ _ E fd Hin) as Hnone. cbn in Hnone. lia.
Qed.

Lemma changedNums_subseteq prev cur nums n :
  n ∈ changedNums prev cur nums -> n ∈ nums /\ fieldChanged prev cur n.
Proof. unfold changedNums. rewrite list_elem_of_filter. tauto. Qed.

Lemma changedNums_self m nums : changedNums m m nums = [].
Proof.
  unfold changedNums, fieldChanged. induction nums as [|n nums IH]; [done|].
  rewrite filter_cons, IH. by rewrite decide_False by (intros Hx; by apply Hx).
Qed.

Lemma lookup_diffMessage sc prev cur k :
  values (diffMessage sc prev cur) !! k =
    if decide (k ∈ unchangedNums prev cur (GetNumber <$> GetFields sc))
    then None else values cur !! k.
Proof. unfold diffMessage. apply lookup_clearFields. Qed.

Lemma schema_number_inj sc fd fd' :
  wf_schema sc -> fd ∈ GetFields sc -> fd' ∈ GetFields sc ->
  GetNumber fd = GetNumber fd' -> fd = fd'.
Proof.
  intros [Hnd _] [i Hi]%list_elem_of_lookup [j Hj]%list_elem_of_lookup Heq.
  assert (i = j) as ->.
  { eapply NoDup_lookup; [exact Hnd| |]; rewrite list_lookup_fmap.
    - by rewrite Hi.
    - rewrite Hj. cbn. by rewrite Heq. }
  congruence.
Qed.

Lemma general_not_tsz sc n :
  wf_schema sc -> n ∈ generalNums sc -> n ∉ tszNums sc.
Proof.
  unfold generalNums, tszNums.
  intros Hsc (fd & -> & [Hg Hfd]%list_elem_of_filter)%list_elem_of_fmap
    (fd' & Heq & [Ht Hfd']%list_elem_of_filter)%list_elem_of_fmap.
  assert (fd = fd') as -> by (by eapply schema_number_inj). congruence.
Qed.

Lemma filter_fmap_filter {A B} (f : A -> B) (P Q : B -> Prop) (R : A -> Prop)
    `{!forall x, Decision (P x), !forall x, Decision (Q x), !forall x, Decision (R x)}
    (l : list A) :
  (forall x, x ∈ l -> (P (f x) <-> R x /\ Q (f x))) ->
  filter P (f <$> l) = filter Q (f <$> filter R l).
Proof.
  induction l as [|a l IH]; intros Hext; [done|].
  assert (Ha : P (f a) <-> R a /\ Q (f a)) by (apply Hext, list_elem_of_here).
  specialize (IH (fun x Hx => Hext x (list_elem_of_further _ _ _ Hx))).
  rewrite fmap_cons, !filter_cons, IH.
  destruct (decide (R a)) as [HR|HR].
  - rewrite fmap_cons, filter_cons.
    destruct (decide (P (f a))), (decide (Q (f a))); tauto.
  - destruct (decide (P (f a))); tauto.
Qed.

(** Against a message whose float fields are cleared, the fields that
    changed are the general fields whose value differs. *)
Lemma changed_general sc prev m :
  wf_schema sc -> md m = sc -> md prev = sc ->
  Forall (fun n => values prev !! n = None) (tszNums sc) ->
  changedNums prev (clearFields (tszNums sc) m) (GetNumber <$> GetFields sc)
  = changedNums prev m (generalNums sc).
Proof.
  intros Hsc Hmd Hmdp Hcl. unfold changedNums, generalNums.
  apply filter_fmap_filter. intros fd Hfd. unfold fieldChanged, TryGetFieldByNumber.
  unfold FindFieldDescriptor. rewrite md_clearFields, Hmd, Hmdp, lookup_clearFields.
  destruct (isTSZType (GetType fd)) eqn:Et.
  - assert (Hin : GetNumber fd ∈ tszNums sc).
    { unfold tszNums. apply list_elem_of_fmap. exists fd. split; [done|].
      by apply list_elem_of_filter. }
    rewrite decide_True by done.
    rewrite Forall_forall in Hcl. rewrite (Hcl _ Hin).
    split; [intros Hx; by destruct Hx | intros [? _]; done].
  - rewrite decide_False; [tauto|].
    apply general_not_tsz; [done|]. unfold generalNums.
    apply list_elem_of_fmap. exists fd. split; [done|].
    by apply list_elem_of_filter.
Qed.

Lemma changedNums_unchangedNums prev cur nums n :
  n ∈ nums -> n ∉ changedNums prev cur nums -> n ∈ unchangedNums prev cur nums.
Proof.
  unfold changedNums, unchangedNums. rewrite !list_elem_of_filter. tauto.
Qed.

Lemma changedNums_not_unchanged prev cur nums n :
  n ∈ changedNums prev cur nums -> n ∉ unchangedNums prev cur nums.
Proof.
  unfold changedNums, unchangedNums. rewrite !list_elem_of_filter. tauto.
Qed.

Lemma changedNums_general_elem sc prev cur n :
  n ∈ changedNums prev cur (generalNums sc) -> n ∈ generalNums sc.
Proof. unfold changedNums. rewrite list_elem_of_filter. tauto. Qed.

Section EncoderRuns.

Variable Marshal : Message -> option (list Z).

Lemma encodeProtoValues_first p enc (h : gmap positive Message) m payload :
  lastEncoded enc = None ->
  h !! p = Some m ->
  Marshal m = Some payload ->
  Z.of_nat (length payload) < 2 ^ 56 ->
  encodeProtoValues Marshal p (enc, h) =
    Returned (None, (set_stream (stream enc ++ generalRun [] payload) enc, h)).
Proof.
  intros Hlast Hp Hm Hlen. unfold encodeProtoValues.
  unfold bind at 1, getEnc at 1. cbn [fst].
  unfold bind at 1, deref at 1. cbn [snd]. rewrite Hp, Hlast.
  unfold bind at 1, ret at 1. cbn [fst snd length Nat.eqb andb].
  rewrite bool_decide_eq_false_2 by (intros Hx; by apply Hx). rewrite Hm.
  erewrite bind_run by reflexivity.
  erewrite bind_run by (apply writeBitset_run; cbn; lia).
  erewrite bind_run by (apply writeVarInt_run; cbn; lia).
  go_run. unfold generalRun. cbn [set_stream stream]. by rewrite <- !app_assoc.
Qed.

(** The state of the diff: the clone of a message of the schema is the
    message, and the loop leaves [diffMessage] and the changed numbers. *)
Lemma encodeProtoValues_diff last enc (h : gmap positive Message) m prev :
  h !! last = Some prev ->
  md m = schema enc ->
  md prev = schema enc ->
  NoDup (GetNumber <$> GetFields (schema enc)) ->
  (let* clone := liftO (MergeFrom (NewMessage (schema enc)) m) in
   diffLoop last (GetFields (schema enc)) clone []) (enc, h) =
    Returned ((diffMessage (schema enc) prev m,
               changedNums prev m (GetNumber <$> GetFields (schema enc))), (enc, h)).
Proof.
  intros Hprev Hmd Hmdp Hnd.
  unfold MergeFrom, NewMessage. cbn [md values].
  rewrite Hmd, decide_True by done. rewrite (right_id_L ∅ (∪)).
  assert (Hrec : mkMessage (schema enc) (values m) = m)
    by (destruct m; cbn in *; by subst).
  rewrite Hrec. go_run.
  rewrite (diffLoop_ok last prev h enc Hprev); [done|done|].
  apply Forall_forall. intros fd Hfd.
  split; apply FindFieldDescriptor_declared; by rewrite ?Hmd, ?Hmdp.
Qed.

Lemma encodeProtoValues_same p last enc (h : gmap positive Message) m prev :
  lastEncoded enc = Some last ->
  h !! p = Some m ->
  h !! last = Some prev ->
  md m = schema enc ->
  md prev = schema enc ->
  NoDup (GetNumber <$> GetFields (schema enc)) ->
  changedNums prev m (GetNumber <$> GetFields (schema enc)) = [] ->
  encodeProtoValues Marshal p (enc, h) =
    Returned (None, (set_stream (stream enc ++ [false]) enc, h)).
Proof.
  intros Hlast Hp Hprev Hmd Hmdp Hnd Hchanged. unfold encodeProtoValues.
  unfold bind at 1, getEnc at 1. cbn [fst].
  unfold bind at 1, deref at 1. cbn [snd]. rewrite Hp, Hlast.
  erewrite bind_run by (by apply encodeProtoValues_diff).
  cbn [fst snd]. rewrite Hchanged. cbn [length Nat.eqb andb].
  rewrite bool_decide_eq_true_2 by done. reflexivity.
Qed.

Lemma encodeProtoValues_changed p last enc (h : gmap positive Message) m prev payload :
  lastEncoded enc = Some last ->
  h !! p = Some m ->
  h !! last = Some prev ->
  md m = schema enc ->
  md prev = schema enc ->
  wf_schema (schema enc) ->
  changedNums prev m (GetNumber <$> GetFields (schema enc)) <> [] ->
  Marshal (diffMessage (schema enc) prev m) = Some payload ->
  Z.of_nat (length payload) < 2 ^ 56 ->
  encodeProtoValues Marshal p (enc, h) =
    Returned (None,
      (set_stream
         (stream enc ++
          generalRun (changedNums prev m (GetNumber <$> GetFields (schema enc))) payload)
         enc, h)).
Proof.
  intros Hlast Hp Hprev Hmd Hmdp [Hnd Hrange] Hchanged Hm Hlen.
  unfold encodeProtoValues.
  unfold bind at 1, getEnc at 1. cbn [fst].
  unfold bind at 1, deref at 1. cbn [snd]. rewrite Hp, Hlast.
  erewrite bind_run by (by apply encodeProtoValues_diff).
  cbn [fst snd].
  destruct (changedNums prev m (GetNumber <$> GetFields (schema enc)))
    as [|c cs] eqn:Ec; [done|]. cbn [length Nat.eqb andb]. rewrite Hm.
  assert (Hmax : maxField (c :: cs) + 1 < 2 ^ 56).
  { enough (maxField (c :: cs) <= 2 ^ 31) by lia.
    apply maxField_bound; [lia|]. apply Forall_forall. intros n Hn.
    rewrite <- Ec in Hn. apply changedNums_subseteq in Hn as [Hn _].
    apply list_elem_of_fmap in Hn as (fd & -> & Hfd).
    rewrite Forall_forall in Hrange. specialize (Hrange fd Hfd). lia. }
  erewrite bind_run by reflexivity.
  erewrite bind_run by (by apply writeBitset_run).
  erewrite bind_run by (apply writeVarInt_run; lia).
  go_run. unfold generalRun. cbn [set_stream stream]. by rewrite <- !app_assoc.
Qed.

End EncoderRuns.

(** ** One call of [Encode] *)

Section EncodeCall.

Variable Marshal : Message -> option (list Z).

Lemma encodeProtoValues_run p enc (h : gmap positive Message) m :
  wf_schema (schema enc) ->
  wf_last enc h ->
  h !! p = Some m ->
  md m = schema enc ->
  payloadFits Marshal (toMarshal (schema enc) (lastMessage enc h) m) ->
  exists err,
    encodeProtoValues Marshal p (enc, h) =
      Returned (err,
        (set_stream (stream enc ++ generalRunOf Marshal (schema enc) (lastMessage enc h) m)
                    enc, h)).
Proof.
  intros Hsc Hlast Hp Hmd. unfold generalRunOf, lastMessage, wf_last, payloadFits, toMarshal in *.
  destruct (lastEncoded enc) as [last|] eqn:El.
  - destruct (h !! last) as [prev|] eqn:Hprev; [|done]. rename Hlast into Hmdp.
    destruct (changedNums prev m (GetNumber <$> GetFields (schema enc)))
      as [|c cs] eqn:Ec.
    + intros _. exists None. eapply encodeProtoValues_same; eauto. apply Hsc.
    + cbn [mbind option_bind].
      destruct (Marshal (diffMessage (schema enc) prev m)) as [payload|] eqn:Em.
      * intros Hfit. exists None. rewrite <- Ec.
        eapply encodeProtoValues_changed; eauto. by rewrite Ec.
      * intros _. exists (Some ErrMarshal). unfold encodeProtoValues.
        unfold bind at 1, getEnc at 1. cbn [fst].
        unfold bind at 1, deref at 1. cbn [snd]. rewrite Hp, El.
        erewrite bind_run by (apply encodeProtoValues_diff; [done..|apply Hsc]).
        cbn [fst snd]. rewrite Ec, Em. cbn [length Nat.eqb andb].
        unfold ret, set_stream. rewrite app_nil_r. by destruct enc.
  - cbn [mbind option_bind]. destruct (Marshal m) as [payload|] eqn:Em.
    + intros Hfit. exists None. eapply encodeProtoValues_first; eauto.
    + intros _. exists (Some ErrMarshal). unfold encodeProtoValues.
      unfold bind at 1, getEnc at 1. cbn [fst].
      unfold bind at 1, deref at 1. cbn [snd]. rewrite Hp, El.
      unfold bind at 1, ret at 1. cbn [fst snd length Nat.eqb andb].
      rewrite bool_decide_eq_false_2 by (intros Hx; by apply Hx). rewrite Em.
      unfold ret, set_stream. rewrite app_nil_r. by destruct enc.
Qed.

(** What a call of [Encode] on a message of the schema does: the numeric
    run and the general run are appended to the stream, the float fields
    of the caller's message are cleared, and [lastEncoded] is the caller's
    pointer. *)
Lemma Encode_run p enc (h : gmap positive Message) m vals :
  wf_schema (schema enc) ->
  wf_encoder enc ->
  wf_last enc h ->
  h !! p = Some m ->
  md m = schema enc ->
  floatValues enc m vals ->
  let cleared := clearFields (tszNums (schema enc)) m in
  let h' := <[p := cleared]> h in
  payloadFits Marshal (toMarshal (schema enc) (lastMessage enc h') cleared) ->
  Encode Marshal p (enc, h) =
    Returned (None,
      (mkEncoder
         (stream enc ++ numericRun (hasWrittenFirstTSZ enc) (tszFields enc) vals
                     ++ generalRunOf Marshal (schema enc) (lastMessage enc h') cleared)
         (schema enc) true (Some p)
         (zip_with (tszUpd (hasWrittenFirstTSZ enc)) (tszFields enc) vals),
       h')).
Proof.
  intros Hsc Henc Hlast Hp Hmd Hv cleared h' Hfit.
  unfold Encode.
  erewrite bind_run
    by (apply encodeTSZValues_ok; [exact Hp | by apply wf_encoder_NoDup | exact Hv]).
  rewrite Henc. fold cleared. fold h'.
  set (enc1 := mkEncoder _ _ _ _ _).
  assert (Hlast1 : wf_last enc1 h').
  { unfold wf_last in *. cbn [lastEncoded schema enc1].
    destruct (lastEncoded enc) as [last|]; [|done].
    unfold h'. destruct (decide (last = p)) as [->|Hne].
    - rewrite lookup_insert_eq. unfold cleared. by rewrite md_clearFields.
    - by rewrite lookup_insert_ne. }
  destruct (encodeProtoValues_run p enc1 h' cleared Hsc Hlast1) as [err Hrun].
  { unfold h'. apply lookup_insert_eq. }
  { unfold cleared. by rewrite md_clearFields. }
  { exact Hfit. }
  erewrite bind_run by exact Hrun.
  unfold bind, modifyEnc, ret, set_lastEncoded, set_stream, numericRun. cbn.
  by rewrite <- app_assoc.
Qed.

End EncodeCall.

(** [Encode] keeps the encoder and the store well formed for the next
    call. *)
Lemma Encode_run_wf enc (h : gmap positive Message) p m vals out :
  wf_encoder enc ->
  md m = schema enc ->
  floatValues enc m vals ->
  let enc' := mkEncoder out (schema enc) true (Some p)
                (zip_with (tszUpd (hasWrittenFirstTSZ enc)) (tszFields enc) vals) in
  let h' := <[p := clearFields (tszNums (schema enc)) m]> h in
  wf_encoder enc' /\ wf_last enc' h' /\ lastCleared enc' h' /\
  prevFloatBits <$> tszFields enc' = vals.
Proof.
  intros Henc Hmd Hv enc' h'.
  pose proof (Forall2_length _ _ _ Hv) as Hlen.
  split; [|split; [|split]].
  - unfold wf_encoder, enc'. cbn. by rewrite fieldNum_tszUpd.
  - unfold wf_last, enc', h'. cbn. by rewrite lookup_insert_eq, md_clearFields.
  - unfold lastCleared, lastMessage, enc', h'. cbn. rewrite lookup_insert_eq.
    apply Forall_forall. intros n Hn. rewrite lookup_clearFields.
    by rewrite decide_True.
  - unfold enc'. cbn. by rewrite prevFloatBits_tszUpd.
Qed.

Lemma diffBase_cleared enc (h : gmap positive Message) p m prev :
  wf_last enc h -> lastCleared enc h ->
  md m = schema enc ->
  diffBase enc h p m = Some prev ->
  md prev = schema enc /\
  Forall (fun n => values prev !! n = None) (tszNums (schema enc)).
Proof.
  unfold wf_last, lastCleared, diffBase, lastMessage.
  destruct (lastEncoded enc) as [last|]; [|done].
  destruct (decide (last = p)) as [->|Hne].
  - rewrite lookup_insert_eq. intros _ _ Hmd [= <-].
    split; [by rewrite md_clearFields|].
    apply Forall_forall. intros n Hn. by rewrite lookup_clearFields, decide_True.
  - rewrite lookup_insert_ne by done. intros Hmdp Hcl _ Hprev.
    rewrite Hprev in Hmdp, Hcl. done.
Qed.

(** ** Errors and panics of [Encode] *)

(** [Encode] returns [nil] whenever it returns. *)
Lemma Encode_returns_nil Marshal p w err w' :
  Encode Marshal p w = Returned (err, w') -> err = None.
Proof.
  unfold Encode, bind, modifyEnc, ret.
  destruct (encodeTSZValues p w) as [[e1 w1]|]; [|done].
  destruct (encodeProtoValues Marshal p w1) as [[e2 w2]|]; [|done].
  by intros [= <- _].
Qed.

(** The loop stops with an error at a field that the message's descriptor
    does not declare. *)
Lemma encodeTSZLoop_unknown p i st rest enc (h : gmap positive Message) msg :
  h !! p = Some msg ->
  FindFieldDescriptor msg (fieldNum st) = None ->
  encodeTSZLoop p i (st :: rest) (enc, h) =
    Returned (Some (ErrGetField (fieldNum st)), (enc, h)).
Proof.
  intros Hp Hfd. cbn [encodeTSZLoop]. unfold bind, deref. cbn [snd].
  rewrite Hp. unfold TryGetFieldByNumber. by rewrite Hfd.
Qed.

(** The loop panics at a field whose value is neither a [float64] nor a
    [float32]. *)
Lemma encodeTSZLoop_not_float p i st rest enc (h : gmap positive Message) msg iVal :
  h !! p = Some msg ->
  TryGetFieldByNumber msg (fieldNum st) = inr iVal ->
  (forall v, iVal <> VFloat64 v) -> (forall v, iVal <> VFloat32 v) ->
  encodeTSZLoop p i (st :: rest) (enc, h) = Panicked.
Proof.
  intros Hp Hget H64 H32. cbn [encodeTSZLoop]. unfold bind at 1, deref at 1.
  cbn [snd]. rewrite Hp, Hget.
  destruct iVal as [v|v| | | |]; try done; [by destruct (H64 v) | by destruct (H32 v)].
Qed.

(** C2: on a message whose descriptor lacks the float field 1 of the schema,
    [encodeTSZValues] returns the error for field 1, and [Encode] returns
    [nil] all the same: the error does not reach the caller. *)
Theorem Encode_drops_missing_field_error :
  let enc := NewEncoder [] Scenario.sch in
  let h : gmap positive Message := <[1%positive := Scenario.tagOnly]> ∅ in
  (exists w, encodeTSZValues 1%positive (enc, h) = Returned (Some (ErrGetField 1), w)) /\
  (exists w, Encode wire.Marshal 1%positive (enc, h) = Returned (None, w)).
Proof. split; eexists; vm_compute; reflexivity. Qed.

(** C9: on a message that holds a string in the float field 1 of the schema,
    [Encode] panics in the type assertion; no error is returned. *)
Theorem Encode_panics_on_non_float :
  let enc := NewEncoder [] Scenario.sch in
  let h : gmap positive Message := <[1%positive := Scenario.stringValue]> ∅ in
  TryGetFieldByNumber Scenario.stringValue 1 = inr (VString "x") /\
  Encode wire.Marshal 1%positive (enc, h) = Panicked.
Proof. split; vm_compute; reflexivity. Qed.

(** ** The state after a call of [Encode] *)

Section OneCall.

Variable Marshal : Message -> option (list Z).
Variables (enc : encoder) (h : gmap positive Message).
Variables (p : positive) (m : Message) (vals : list Z).

Hypothesis Hschema : wf_schema (schema enc).
Hypothesis Hencoder : wf_encoder enc.
Hypothesis Hlast : wf_last enc h.
Hypothesis Hp : h !! p = Some m.
Hypothesis Hmd : md m = schema enc.
Hypothesis Hvals : floatValues enc m vals.
Hypothesis Hfit : payloadFits Marshal (framePayload enc h p m).

(** C7, amended: after [Encode] of a message that holds a float in every
    float field of the schema, [lastEncoded] is the caller's pointer, and
    the message it points to is the input with the float fields cleared:
    they read as unset, every other field is as in the input. *)
Theorem lastEncoded_after_Encode :
  exists enc' h',
    Encode Marshal p (enc, h) = Returned (None, (enc', h')) /\
    lastEncoded enc' = Some p /\
    lastMessage enc' h' = Some (clearFields (tszNums (schema enc)) m) /\
    (forall n, n ∈ tszNums (schema enc) ->
       values (clearFields (tszNums (schema enc)) m) !! n = None) /\
    (forall n, n ∉ tszNums (schema enc) ->
       values (clearFields (tszNums (schema enc)) m) !! n = values m !! n).
Proof.
  eexists _, _. split; [by apply Encode_run|].
  split; [done|]. split.
  - unfold lastMessage. cbn [lastEncoded]. apply lookup_insert_eq.
  - split; intros n Hn; rewrite lookup_clearFields.
    + by rewrite decide_True.
    + by rewrite decide_False.
Qed.

(** C8, amended: after [Encode] of a message of the schema that holds a
    float in every float field, the state of every float field holds in
    [prevFloatBits] the 64-bit pattern of the value that the message has
    for the field, a [float32] widened to [float64]; the states are those
    of the float fields of the schema, in order. *)
Theorem prevFloatBits_after_Encode :
  exists enc' h',
    Encode Marshal p (enc, h) = Returned (None, (enc', h')) /\
    fieldNum <$> tszFields enc' = tszNums (schema enc) /\
    prevFloatBits <$> tszFields enc' = Float64bits <$> vals /\
    Forall (fun st => tszValue m (fieldNum st) = Some (prevFloatBits st))
           (tszFields enc').
Proof.
  pose proof (Forall2_length _ _ _ Hvals) as Hlen.
  eexists _, _. split; [by apply Encode_run|]. cbn [tszFields].
  split; [by rewrite fieldNum_tszUpd|].
  split.
  - rewrite prevFloatBits_tszUpd by done. unfold Float64bits.
    by rewrite list_fmap_id.
  - by apply tszUpd_values.
Qed.

(** C10, amended: [Encode] writes to the caller's message.  On a message
    of the schema that holds a float in every float field: when [Encode]
    returns, the message at [p] has no float field of the schema set, its
    other fields are as they were (the diff ran on a clone), and no other
    message of the store has changed.  The fields are cleared before the
    general run is built: the general run written is that of the cleared
    message. *)
Theorem Encode_clears_float_fields_of_input :
  exists enc' h' m',
    Encode Marshal p (enc, h) = Returned (None, (enc', h')) /\
    h' !! p = Some m' /\
    md m' = md m /\
    (forall n, n ∈ tszNums (schema enc) -> values m' !! n = None) /\
    (forall n, n ∉ tszNums (schema enc) -> values m' !! n = values m !! n) /\
    (forall q, q <> p -> h' !! q = h !! q) /\
    stream enc' =
      stream enc ++ numericRun (hasWrittenFirstTSZ enc) (tszFields enc) vals
      ++ generalRunOf Marshal (schema enc) (diffBase enc h p m) m'.
Proof.
  eexists _, _, _. split; [by apply Encode_run|].
  split; [apply lookup_insert_eq|].
  split; [apply md_clearFields|].
  split; [|split; [|split]].
  - intros n Hn. rewrite lookup_clearFields. by rewrite decide_True.
  - intros n Hn. rewrite lookup_clearFields. by rewrite decide_False.
  - intros q Hq. by rewrite lookup_insert_ne.
  - reflexivity.
Qed.

End OneCall.

(** ** Frames *)

Section Frames.

Variable Marshal : Message -> option (list Z).

(** C3: the first frame of a stream.  [Encode] on a new encoder writes the
    64 raw bits of every float field in schema order, then the general run:
    the control bit [1], a bitmap of one [0] bit, and the marshalled message
    (its float fields cleared), prefixed by its length.  Each field state
    has the bit pattern of its value in both [prevFloatBits] and
    [prevXOR]. *)
Theorem first_frame b sc (h : gmap positive Message) p m vals payload :
  wf_schema sc ->
  h !! p = Some m ->
  md m = sc ->
  Forall2 (fun n v => tszValue m n = Some v) (tszNums sc) vals ->
  Marshal (clearFields (tszNums sc) m) = Some payload ->
  Z.of_nat (length payload) < 2 ^ 56 ->
  exists enc' h',
    Encode Marshal p (NewEncoder b sc, h) = Returned (None, (enc', h')) /\
    stream enc' =
      OStream.bytes_bits b
      ++ concat ((fun v => OStream.bits_msb 64 (Float64bits v)) <$> vals)
      ++ [true]
      ++ OStream.bytes_bits (uvarint 1) ++ [false]
      ++ OStream.bytes_bits (uvarint (Z.of_nat (length payload)))
      ++ OStream.bytes_bits payload /\
    tszFields enc' =
      zip_with (fun n v => mkTsz n (Float64bits v) (Float64bits v)) (tszNums sc) vals.
Proof.
  intros Hsc Hp Hmd Hv Hm Hfit.
  assert (Hv' : floatValues (NewEncoder b sc) m vals).
  { unfold floatValues. cbn [tszFields NewEncoder].
    rewrite <- newTszFields_fieldNum in Hv. by apply Forall2_fmap_l in Hv. }
  pose proof (Forall2_length _ _ _ Hv') as Hlen. cbn [tszFields NewEncoder] in Hlen.
  eexists _, _. split.
  - apply (Encode_run Marshal p (NewEncoder b sc) h m vals); try done.
    + apply NewEncoder_wf.
    + unfold payloadFits, toMarshal, lastMessage. cbn. by rewrite Hm.
  - cbn [stream tszFields NewEncoder hasWrittenFirstTSZ schema lastEncoded].
    split.
    + rewrite numericRun_first by done.
      unfold generalRunOf, lastMessage. cbn [lastEncoded]. rewrite Hm.
      unfold generalRun. reflexivity.
    + by apply tszUpd_first; [apply newTszFields_fieldNum|].
Qed.

(** C4: a message identical to the one encoded before.  When [Encode] runs
    on the message [m] and then on a second message object equal to [m], the
    second frame is one [0] bit per float field of the schema and one [0]
    bit for the general run, and nothing else. *)
Theorem same_message_frame enc (h : gmap positive Message) p1 p2 m vals :
  wf_schema (schema enc) ->
  wf_encoder enc ->
  wf_last enc h ->
  h !! p1 = Some m ->
  h !! p2 = Some m ->
  p1 <> p2 ->
  md m = schema enc ->
  floatValues enc m vals ->
  payloadFits Marshal (framePayload enc h p1 m) ->
  exists enc1 h1 enc2 h2,
    Encode Marshal p1 (enc, h) = Returned (None, (enc1, h1)) /\
    Encode Marshal p2 (enc1, h1) = Returned (None, (enc2, h2)) /\
    stream enc2 =
      stream enc1 ++ replicate (length (tszNums (schema enc))) false ++ [false].
Proof.
  intros Hsc Henc Hlast Hp1 Hp2 Hne Hmd Hv Hfit.
  pose proof (Encode_run Marshal p1 enc h m vals Hsc Henc Hlast Hp1 Hmd Hv Hfit) as Hrun1.
  cbv zeta in Hrun1.
  set (out := (stream enc ++ _)) in Hrun1.
  destruct (Encode_run_wf enc h p1 m vals out Henc Hmd Hv) as (Henc1 & Hlast1 & _ & Hprev).
  cbv zeta in Henc1, Hlast1, Hprev.
  set (enc1 := mkEncoder _ _ _ _ _) in *.
  set (cleared := clearFields (tszNums (schema enc)) m) in *.
  set (h1 := <[p1 := cleared]> h) in *.
  assert (Hp2' : h1 !! p2 = Some m) by (unfold h1; by rewrite lookup_insert_ne).
  assert (Hv1 : floatValues enc1 m vals).
  { unfold floatValues, enc1. cbn [tszFields].
    pose proof (Forall2_length _ _ _ Hv) as Hlen.
    apply (Forall2_fmap_l fieldNum (fun n v => tszValue m n = Some v)).
    rewrite fieldNum_tszUpd by done.
    by apply (Forall2_fmap_l fieldNum (fun n v => tszValue m n = Some v)). }
  assert (Hbase : lastMessage enc1 (<[p2 := cleared]> h1) = Some cleared).
  { unfold lastMessage, enc1. cbn [lastEncoded].
    rewrite lookup_insert_ne by done. unfold h1. apply lookup_insert_eq. }
  pose proof (Encode_run Marshal p2 enc1 h1 m vals) as Hrun2.
  cbn [schema hasWrittenFirstTSZ enc1] in Hrun2. fold enc1 cleared in Hrun2.
  cbv zeta in Hrun2. rewrite Hbase in Hrun2.
  unfold generalRunOf, payloadFits, toMarshal in Hrun2.
  rewrite changedNums_self in Hrun2.
  specialize (Hrun2 Hsc Henc1 Hlast1 Hp2' Hmd Hv1 I).
  eexists _, _, _, _. split; [exact Hrun1|]. split; [exact Hrun2|].
  cbn [stream]. f_equal. f_equal.
  rewrite <- Hprev, numericRun_same.
  f_equal. unfold wf_encoder in Henc1. cbn [schema enc1] in Henc1.
  by rewrite <- Henc1, length_fmap.
Qed.

End Frames.

(** ** The general run of a frame *)

Section GeneralRun.

Variable Marshal : Message -> option (list Z).
Variables (enc : encoder) (h : gmap positive Message).
Variables (p : positive) (m : Message) (vals payload : list Z).

Hypothesis Hschema : wf_schema (schema enc).
Hypothesis Hencoder : wf_encoder enc.
Hypothesis Hlast : wf_last enc h.
Hypothesis Hcleared : lastCleared enc h.
Hypothesis Hp : h !! p = Some m.
Hypothesis Hmd : md m = schema enc.
Hypothesis Hvals : floatValues enc m vals.
Hypothesis Hpayload : framePayload enc h p m ≫= Marshal = Some payload.
Hypothesis Hfit : Z.of_nat (length payload) < 2 ^ 56.

(** The frame of a call that marshals a payload. *)
Lemma Encode_with_payload :
  Encode Marshal p (enc, h) =
    Returned (None,
      (mkEncoder
         (stream enc ++ numericRun (hasWrittenFirstTSZ enc) (tszFields enc) vals
                     ++ generalRun (changedGeneral enc h p m) payload)
         (schema enc) true (Some p)
         (zip_with (tszUpd (hasWrittenFirstTSZ enc)) (tszFields enc) vals),
       <[p := clearFields (tszNums (schema enc)) m]> h)).
Proof.
  pose proof (Encode_run Marshal p enc h m vals Hschema Hencoder Hlast Hp Hmd Hvals)
    as Hrun.
  cbv zeta in Hrun. fold (diffBase enc h p m) in Hrun.
  fold (framePayload enc h p m) in Hrun.
  rewrite Hrun by (unfold payloadFits; by rewrite Hpayload).
  do 4 f_equal.
  unfold generalRunOf, changedGeneral.
  unfold framePayload, toMarshal in Hpayload.
  destruct (diffBase enc h p m) as [prev|] eqn:Eb.
  - destruct (diffBase_cleared enc h p m prev Hlast Hcleared Hmd Eb) as [Hmdp Hcl].
    rewrite <- (changed_general (schema enc) prev m) by done.
    destruct (changedNums prev (clearFields (tszNums (schema enc)) m) _); [done|].
    cbn in Hpayload. by rewrite Hpayload.
  - cbn in Hpayload. by rewrite Hpayload.
Qed.

(** The message that is marshalled when a general field changed: the float
    fields and the unchanged general fields are cleared, the changed fields
    are as in [m]. *)
Lemma framePayload_diff prev :
  diffBase enc h p m = Some prev ->
  changedGeneral enc h p m <> [] ->
  exists x,
    framePayload enc h p m = Some x /\
    x = diffMessage (schema enc) prev (clearFields (tszNums (schema enc)) m) /\
    (forall n, n ∈ tszNums (schema enc) -> values x !! n = None) /\
    (forall n, n ∈ changedGeneral enc h p m -> values x !! n = values m !! n) /\
    (forall n, n ∈ generalNums (schema enc) -> n ∉ changedGeneral enc h p m ->
       values x !! n = None).
Proof.
  intros Eb Hne. unfold framePayload, toMarshal, changedGeneral in *.
  rewrite Eb in *.
  destruct (diffBase_cleared enc h p m prev Hlast Hcleared Hmd Eb) as [Hmdp Hcl].
  pose proof (changed_general (schema enc) prev m Hschema Hmd Hmdp Hcl) as Hcg.
  rewrite <- Hcg in Hne.
  destruct (changedNums prev (clearFields (tszNums (schema enc)) m) _)
    as [|c cs] eqn:Ec; [done|].
  rewrite <- Ec in Hcg. clear Hne.
  eexists. split; [reflexivity|]. split; [reflexivity|].
  split; [|split].
  - intros n Hn. rewrite lookup_diffMessage, lookup_clearFields.
    rewrite (decide_True (P := n ∈ tszNums _)) by done. by case_decide.
  - intros n Hn. rewrite lookup_diffMessage, lookup_clearFields.
    rewrite decide_False by (apply changedNums_not_unchanged; by rewrite Hcg).
    rewrite decide_False; [done|].
    apply general_not_tsz; [done|]. by eapply changedNums_general_elem.
  - intros n Hn Hnc. rewrite lookup_diffMessage, decide_True; [done|].
    apply changedNums_unchangedNums; [|by rewrite Hcg].
    unfold generalNums in Hn.
    apply list_elem_of_fmap in Hn as (fd & -> & [_ Hfd]%list_elem_of_filter).
    apply list_elem_of_fmap. eauto.
Qed.

Lemma changedGeneral_nonneg : Forall (fun n => 0 <= n) (changedGeneral enc h p m).
Proof.
  apply Forall_forall. intros n Hn. unfold changedGeneral in Hn.
  destruct (diffBase enc h p m); [|by apply elem_of_nil in Hn].
  apply changedNums_general_elem in Hn. unfold generalNums in Hn.
  apply list_elem_of_fmap in Hn as (fd & -> & [_ Hfd]%list_elem_of_filter).
  destruct Hschema as [_ Hrange]. rewrite Forall_forall in Hrange.
  specialize (Hrange fd Hfd). lia.
Qed.

(** C5, amended: the general run of a frame with a payload.  When [Encode]
    runs on the first message, or on a message in which a general field
    changed, it writes after the numeric run: a [1] bit, the varint of the
    largest number in [changedFields] plus one, that many bits with bit [i]
    set exactly when [i] is in [changedFields], the varint of the length of
    the payload, and the payload.  For the first message [changedFields] is
    empty: the bitmap is one [0] bit after the varint of 1, and the payload
    is the marshalling of the whole message.  Otherwise [changedFields] is
    the general fields whose value differs from the message encoded before,
    and the payload is the marshalling of those fields.  The float fields
    are in neither payload. *)
Theorem general_run_layout :
  diffBase enc h p m = None \/ changedGeneral enc h p m <> [] ->
  let changed := changedGeneral enc h p m in
  exists enc' h',
    Encode Marshal p (enc, h) = Returned (None, (enc', h')) /\
    stream enc' =
      stream enc ++ numericRun (hasWrittenFirstTSZ enc) (tszFields enc) vals
      ++ [true]
      ++ OStream.bytes_bits (uvarint (maxField changed + 1))
      ++ bitmap changed
      ++ OStream.bytes_bits (uvarint (Z.of_nat (length payload)))
      ++ OStream.bytes_bits payload /\
    Z.of_nat (length (bitmap changed)) = maxField changed + 1 /\
    (forall i, 0 <= i <= maxField changed ->
       bitmap changed !! Z.to_nat i = Some (bool_decide (i ∈ changed))) /\
    (changed <> [] -> maxField changed ∈ changed) /\
    (forall n, n ∈ changed -> n <= maxField changed) /\
    exists x,
      framePayload enc h p m = Some x /\ Marshal x = Some payload /\
      (forall n, n ∈ tszNums (schema enc) -> values x !! n = None) /\
      (forall n, n ∈ changed -> values x !! n = values m !! n) /\
      match diffBase enc h p m with
      | None => x = clearFields (tszNums (schema enc)) m
      | Some _ =>
          forall n, n ∈ generalNums (schema enc) -> n ∉ changed -> values x !! n = None
      end.
Proof.
  intros Htrigger changed.
  eexists _, _. split; [exact Encode_with_payload|]. cbn [stream].
  split; [reflexivity|].
  split; [apply length_bitmap|].
  split; [apply lookup_bitmap|].
  split; [intros Hne; apply maxField_elem_of; [done | apply changedGeneral_nonneg]|].
  split; [apply maxField_ge|].
  destruct (diffBase enc h p m) as [prev|] eqn:Eb.
  - destruct Htrigger as [|Hne]; [done|].
    destruct (framePayload_diff prev Eb Hne) as (x & Hx & _ & Htsz & Hchg & Hrest).
    exists x. rewrite Hx in Hpayload. done.
  - unfold framePayload, toMarshal in *. rewrite Eb in *.
    eexists. split; [reflexivity|]. split; [exact Hpayload|].
    split; [|split; [|done]].
    + intros n Hn. by rewrite lookup_clearFields, decide_True.
    + intros n Hn. unfold changed, changedGeneral in Hn. rewrite Eb in Hn.
      by apply elem_of_nil in Hn.
Qed.

(** C6: one changed general field.  When the general field [n] is the only
    one whose value in [m] differs from the message encoded before, the
    payload of the frame is the marshalling of a message of the schema that
    sets no field but [n] and reads at [n] as [m] does, and the bitmap is
    [n] zeros and a single one. *)
Theorem single_changed_field prev n :
  declaredOnly m ->
  diffBase enc h p m = Some prev ->
  changedNums prev m (generalNums (schema enc)) = [n] ->
  exists enc' h' x,
    Encode Marshal p (enc, h) = Returned (None, (enc', h')) /\
    stream enc' =
      stream enc ++ numericRun (hasWrittenFirstTSZ enc) (tszFields enc) vals
      ++ [true]
      ++ OStream.bytes_bits (uvarint (n + 1))
      ++ (replicate (Z.to_nat n) false ++ [true])
      ++ OStream.bytes_bits (uvarint (Z.of_nat (length payload)))
      ++ OStream.bytes_bits payload /\
    popcount (replicate (Z.to_nat n) false ++ [true]) = 1%nat /\
    Marshal x = Some payload /\
    md x = schema enc /\
    TryGetFieldByNumber x n = TryGetFieldByNumber m n /\
    values x !! n = values m !! n /\
    (forall k, k <> n -> values x !! k = None).
Proof.
  intros Hdecl Hbase Hone.
  assert (Hchanged : changedGeneral enc h p m = [n])
    by (unfold changedGeneral; by rewrite Hbase).
  pose proof Encode_with_payload as Hrun.
  destruct (framePayload_diff prev Hbase) as (x & Hx & Hdef & Htsz & Hchg & Hrest);
    [by rewrite Hchanged|].
  rewrite Hchanged in *.
  pose proof changedGeneral_nonneg as Hpos. rewrite Hchanged in Hpos.
  apply Forall_cons in Hpos as [Hpos _].
  assert (Hmdx : md x = schema enc)
    by (rewrite Hdef; unfold diffMessage; by rewrite !md_clearFields).
  assert (Hxn : values x !! n = values m !! n) by (apply Hchg, list_elem_of_here).
  eexists _, _, x. split; [exact Hrun|]. cbn [stream]. split.
  { unfold generalRun, maxField. cbn [foldr]. rewrite Z.max_l by lia.
    by rewrite bitmap_singleton. }
  split; [apply popcount_singleton|].
  split; [by rewrite Hx in Hpayload|]. split; [exact Hmdx|].
  split; [|split; [exact Hxn|]].
  - unfold TryGetFieldByNumber, FindFieldDescriptor. by rewrite Hmdx, Hmd, Hxn.
  - intros k Hk.
    destruct (decide (k ∈ tszNums (schema enc))) as [Ht|Ht]; [by apply Htsz|].
    destruct (decide (k ∈ generalNums (schema enc))) as [Hg|Hg].
    { apply Hrest; [done|]. by intros ->%list_elem_of_singleton. }
    (* a number that the schema does not declare: [m] does not set it *)
    rewrite Hdef, lookup_diffMessage, lookup_clearFields.
    case_decide; [done|]. rewrite decide_False by done.
    destruct (values m !! k) as [v|] eqn:Ev; [|done].
    exfalso. specialize (Hdecl k v Ev). cbn in Hdecl. rewrite Hmd in Hdecl.
    apply list_elem_of_fmap in Hdecl as (fd & -> & Hfd).
    destruct (isTSZType (GetType fd)) eqn:Et.
    + apply Ht. unfold tszNums. apply list_elem_of_fmap. exists fd.
      split; [done|]. by apply list_elem_of_filter.
    + apply Hg. unfold generalNums. apply list_elem_of_fmap. exists fd.
      split; [done|]. by apply list_elem_of_filter.
Qed.

End GeneralRun.

(** ** Widening and narrowing *)

Lemma land_shiftl_low hi k lo :
  0 <= k -> 0 <= lo < 2 ^ k -> Z.land (Z.shiftl hi k) lo = 0.
Proof.
  intros Hk Hlo. apply Z.bits_inj'. intros n Hn.
  rewrite Z.land_spec, Z.bits_0.
  destruct (decide (n < k)) as [Hlt|Hge].
  - by rewrite Z.shiftl_spec_low.
  - destruct (decide (lo = 0)) as [->|Hne]; [by rewrite Z.bits_0, andb_false_r|].
    assert (Z.log2 lo < k) by (apply Z.log2_lt_pow2; lia).
    rewrite (Z.bits_above_log2 lo n) by lia. apply andb_false_r.
Qed.

Lemma lor_shiftl_low hi k lo :
  0 <= k -> 0 <= lo < 2 ^ k -> Z.lor (Z.shiftl hi k) lo = hi * 2 ^ k + lo.
Proof.
  intros Hk Hlo.
  pose proof (Z.add_lor_land (Z.shiftl hi k) lo) as H.
  rewrite land_shiftl_low in H by done.
  rewrite Z.shiftl_mul_pow2 in * by lia. lia.
Qed.

Lemma land_shiftr_ones b k n :
  0 <= k -> 0 <= n -> Z.land (Z.shiftr b k) (Z.ones n) = (b / 2 ^ k) mod 2 ^ n.
Proof. intros Hk Hn. by rewrite Z.land_ones, Z.shiftr_div_pow2. Qed.

Lemma float32_split b :
  0 <= b < 2 ^ 32 ->
  float32_parts b (Z.land (Z.shiftr b 31) 1) (Z.land (Z.shiftr b 23) 255)
                  (Z.land b 8388607).
Proof.
  intros Hb. unfold float32_parts.
  change (Z.land (Z.shiftr b 31) 1) with (Z.land (Z.shiftr b 31) (Z.ones 1)).
  change (Z.land (Z.shiftr b 23) 255) with (Z.land (Z.shiftr b 23) (Z.ones 8)).
  rewrite (land_shiftr_ones b 31 1), (land_shiftr_ones b 23 8) by lia.
  replace (Z.land b 8388607) with (b mod 2 ^ 23) by (symmetry; apply (Z.land_ones b 23); lia).
  change (2 ^ 32) with 4294967296 in *. change (2 ^ 31) with 2147483648.
  change (2 ^ 23) with 8388608. change (2 ^ 8) with 256. change (2 ^ 1) with 2.
  Z.div_mod_to_equations. lia.
Qed.

Lemma float64_fields s e m :
  0 <= s < 2 -> 0 <= e < 2048 -> 0 <= m < 2 ^ 52 ->
  let b := s * 2 ^ 63 + e * 2 ^ 52 + m in
  Z.land (Z.shiftr b 63) 1 = s /\
  Z.land (Z.shiftr b 52) 2047 = e /\
  Z.land b (2 ^ 52 - 1) = m.
Proof.
  intros Hs He Hm b.
  change (Z.land (Z.shiftr b 63) 1) with (Z.land (Z.shiftr b 63) (Z.ones 1)).
  change (Z.land (Z.shiftr b 52) 2047) with (Z.land (Z.shiftr b 52) (Z.ones 11)).
  change (2 ^ 52 - 1) with (Z.ones 52).
  rewrite (land_shiftr_ones b 63 1), (land_shiftr_ones b 52 11) by lia.
  rewrite (Z.land_ones b 52) by lia.
  subst b.
  change (2 ^ 63) with 9223372036854775808. change (2 ^ 52) with 4503599627370496 in *.
  change (2 ^ 11) with 2048. change (2 ^ 1) with 2.
  Z.div_mod_to_equations. lia.
Qed.

Lemma float64_of_fields s e m :
  0 <= s < 2 -> 0 <= e < 2048 -> 0 <= m < 2 ^ 52 ->
  Z.lor (Z.shiftl s 63) (Z.lor (Z.shiftl e 52) m) = s * 2 ^ 63 + e * 2 ^ 52 + m.
Proof.
  intros Hs He Hm.
  rewrite (lor_shiftl_low e 52 m) by lia.
  rewrite lor_shiftl_low; [lia | lia |].
  change (2 ^ 63) with 9223372036854775808. change (2 ^ 52) with 4503599627370496 in *.
  lia.
Qed.

Lemma float32_of_fields s e f :
  0 <= s < 2 -> 0 <= e < 256 -> 0 <= f < 2 ^ 23 ->
  Z.lor (Z.shiftl s 31) (Z.lor (Z.shiftl e 23) f) = s * 2 ^ 31 + e * 2 ^ 23 + f.
Proof.
  intros Hs He Hf.
  rewrite (lor_shiftl_low e 23 f) by lia.
  rewrite lor_shiftl_low; [lia | lia |].
  change (2 ^ 31) with 2147483648. change (2 ^ 23) with 8388608 in *.
  lia.
Qed.

(** The widening of a [float32], by its fields. *)
Lemma float32_to_float64_fields b :
  0 <= b < 2 ^ 32 ->
  exists s e f E M,
    float32_parts b s e f /\
    (signallingNaN b = true <-> e = 255 /\ 0 < f < 2 ^ 22) /\
    0 <= E < 2048 /\ 0 <= M < 2 ^ 52 /\
    float32_to_float64 b = s * 2 ^ 63 + E * 2 ^ 52 + M /\
    ((e = 255 /\ E = 2047 /\
      (f = 0 /\ M = 0 \/ 0 < f /\ M = 2 ^ 51 + (f mod 2 ^ 22) * 2 ^ 29)) \/
     (e = 0 /\ f = 0 /\ E = 0 /\ M = 0) \/
     (e = 0 /\ 0 < f /\ exists k, 0 <= k < 23 /\ 2 ^ k <= f < 2 ^ (k + 1) /\
                       E = k + 874 /\ M = (f - 2 ^ k) * 2 ^ (52 - k)) \/
     (0 < e < 255 /\ E = e + 896 /\ M = f * 2 ^ 29)).
Proof.
  intros Hb. pose proof (float32_split b Hb) as Hparts.
  assert (Hsig : signallingNaN b = true <->
                 Z.land (Z.shiftr b 23) 255 = 255 /\ 0 < Z.land b 8388607 < 2 ^ 22).
  { unfold signallingNaN. rewrite !andb_true_iff, Z.eqb_eq, !Z.ltb_lt. tauto. }
  unfold float32_to_float64. cbv zeta.
  set (s := Z.land (Z.shiftr b 31) 1) in *.
  set (e := Z.land (Z.shiftr b 23) 255) in *.
  set (f := Z.land b 8388607) in *.
  destruct Hparts as (Hbeq & Hs & He & Hf).
  change (2 ^ 23) with 8388608 in Hf.
  destruct (e =? 255) eqn:E255.
  - apply Z.eqb_eq in E255. destruct (f =? 0) eqn:F0.
    + apply Z.eqb_eq in F0. exists s, e, f, 2047, 0.
      split; [done|]. split; [exact Hsig|]. split; [lia|]. split; [lia|].
      split; [|left; lia].
      rewrite <- (float64_of_fields s 2047 0) by lia.
      by rewrite Z.lor_0_r.
    + apply Z.eqb_neq in F0.
      exists s, e, f, 2047, (2 ^ 51 + (f mod 2 ^ 22) * 2 ^ 29).
      assert (Hm : 0 <= f mod 2 ^ 22 < 2 ^ 22) by (apply Z.mod_pos_bound; lia).
      change (2 ^ 22) with 4194304 in *.
      split; [done|]. split; [exact Hsig|]. split; [lia|].
      split; [change (2 ^ 51) with 2251799813685248; change (2 ^ 52) with 4503599627370496;
              change (2 ^ 29) with 536870912; lia|].
      split; [|left; change (2 ^ 22) with 4194304; lia].
      rewrite <- (float64_of_fields s 2047 _)
        by (change (2 ^ 51) with 2251799813685248; change (2 ^ 52) with 4503599627370496;
            change (2 ^ 29) with 536870912; lia).
      do 2 f_equal.
      (* the quiet bit and the payload *)
      rewrite !Z.shiftl_mul_pow2 by lia. rewrite Z.mul_1_l.
      assert (Hsplit : f * 2 ^ 29 = (f / 4194304) * 2 ^ 51 + (f mod 4194304) * 2 ^ 29).
      { change (2 ^ 29) with 536870912. change (2 ^ 51) with 2251799813685248.
        Z.div_mod_to_equations. lia. }
      assert (Hq : f / 4194304 = 0 \/ f / 4194304 = 1) by (Z.div_mod_to_equations; lia).
      assert (Hlow : 0 <= (f mod 4194304) * 2 ^ 29 < 2 ^ 51).
      { change (2 ^ 29) with 536870912. change (2 ^ 51) with 2251799813685248. lia. }
      pose proof (lor_shiftl_low 1 51 _ ltac:(lia) Hlow) as Hl.
      rewrite Z.shiftl_mul_pow2, Z.mul_1_l in Hl by lia.
      rewrite Hsplit. destruct Hq as [-> | ->].
      * by rewrite Z.mul_0_l, Z.add_0_l.
      * rewrite Z.mul_1_l. rewrite <- Hl at 1.
        by rewrite Z.lor_assoc, Z.lor_diag.
  - apply Z.eqb_neq in E255. destruct (e =? 0) eqn:E0.
    + apply Z.eqb_eq in E0. destruct (f =? 0) eqn:F0.
      * apply Z.eqb_eq in F0. exists s, e, f, 0, 0.
        split; [done|]. split; [exact Hsig|]. split; [lia|]. split; [lia|].
        split; [|right; left; lia].
        rewrite Z.shiftl_mul_pow2 by lia. lia.
      * apply Z.eqb_neq in F0.
        set (k := Z.log2 f).
        assert (Hk : 2 ^ k <= f < 2 ^ (k + 1)).
        { pose proof (Z.log2_spec f ltac:(lia)) as H. unfold k. 
          replace (Z.log2 f + 1) with (Z.succ (Z.log2 f)) by lia. exact H. }
        assert (Hk0 : 0 <= k) by apply Z.log2_nonneg.
        assert (Hk23 : k < 23) by (apply Z.log2_lt_pow2; change (2 ^ 23) with 8388608; lia).
        assert (Hpow : 2 ^ k * 2 ^ (52 - k) = 2 ^ 52).
        { rewrite <- Z.pow_add_r by lia. f_equal. lia. }
        assert (Hp1 : 0 < 2 ^ k) by (apply Z.pow_pos_nonneg; lia).
        assert (Hp2 : 0 < 2 ^ (52 - k)) by (apply Z.pow_pos_nonneg; lia).
        assert (Hk1 : 2 ^ (k + 1) = 2 * 2 ^ k) by (rewrite Z.pow_add_r by lia; lia).
        assert (HM : 0 <= (f - 2 ^ k) * 2 ^ (52 - k) < 2 ^ 52).
        { rewrite <- Hpow. split; [nia|]. apply Z.mul_lt_mono_pos_r; lia. }
        exists s, e, f, (k + 874), ((f - 2 ^ k) * 2 ^ (52 - k)).
        split; [done|]. split; [exact Hsig|]. split; [lia|]. split; [done|].
        split.
        -- rewrite <- (float64_of_fields s (k + 874) _) by (done || lia).
           do 3 f_equal; [lia|].
           rewrite !Z.shiftl_mul_pow2 by lia. by rewrite Z.mul_1_l.
        -- right; right; left. split; [done|]. split; [lia|]. exists k. repeat split; lia.
    + apply Z.eqb_neq in E0. exists s, e, f, (e + 896), (f * 2 ^ 29).
      assert (HM : 0 <= f * 2 ^ 29 < 2 ^ 52).
      { change (2 ^ 29) with 536870912. change (2 ^ 52) with 4503599627370496. lia. }
      split; [done|]. split; [exact Hsig|]. split; [lia|]. split; [done|].
      split; [|right; right; right; lia].
      rewrite <- (float64_of_fields s (e + 896) _) by (done || lia).
      do 3 f_equal; [lia|]. by rewrite Z.shiftl_mul_pow2 by lia.
Qed.

Lemma lor_bit_set k x :
  0 <= k -> 2 ^ k <= x < 2 ^ (k + 1) -> Z.lor (Z.shiftl 1 k) x = x.
Proof.
  intros Hk Hx.
  assert (Hk1 : 2 ^ (k + 1) = 2 * 2 ^ k) by (rewrite Z.pow_add_r by lia; lia).
  pose proof (lor_shiftl_low 1 k (x - 2 ^ k) Hk ltac:(lia)) as Hl.
  replace (1 * 2 ^ k + (x - 2 ^ k)) with x in Hl by lia.
  rewrite <- Hl at 1. by rewrite Z.lor_assoc, Z.lor_diag.
Qed.

(** Narrowing gives a [float32] back from its widening, unless it is a
    signalling NaN. *)
Lemma float64_to_float32_widened b :
  0 <= b < 2 ^ 32 -> signallingNaN b = false ->
  float64_to_float32 (float32_to_float64 b) = b.
Proof.
  intros Hb Hquiet. apply not_true_iff_false in Hquiet.
  destruct (float32_to_float64_fields b Hb)
    as (s & e & f & E & M & (Hbeq & Hs & He & Hf) & Hsig & HE & HM & -> & Hcases).
  unfold float64_to_float32. cbv zeta.
  destruct (float64_fields s E M Hs HE HM) as (-> & -> & ->).
  change (2 ^ 23) with 8388608 in *. change (2 ^ 31) with 2147483648 in *.
  change (2 ^ 22) with 4194304 in *.
  destruct Hcases as [(-> & -> & HfM)|[(-> & -> & -> & ->)|[(-> & Hf0 & k & Hk & Hfk & -> & ->)
                     |(He0 & -> & ->)]]].
  - change (2047 =? 2047) with true. cbv iota.
    destruct HfM as [[-> ->]|[Hf0 ->]].
    + change (0 =? 0) with true. cbv iota.
      rewrite (lor_shiftl_low s 31) by (change (Z.shiftl 255 23) with 2139095040;
                                       change (2 ^ 31) with 2147483648; lia).
      change (Z.shiftl 255 23) with 2139095040. change (2 ^ 31) with 2147483648. lia.
    + assert (Hf22 : 4194304 <= f) by (destruct (decide (4194304 <= f)); [done|]; exfalso;
                                      apply Hquiet, Hsig; lia).
      assert (Hmod : f mod 4194304 = f - 4194304) by (Z.div_mod_to_equations; lia).
      rewrite Hmod.
      destruct (_ =? 0) eqn:E0.
      { apply Z.eqb_eq in E0. change (2 ^ 51) with 2251799813685248 in E0.
        change (2 ^ 29) with 536870912 in E0. lia. }
      assert (Hshift : Z.shiftr (2 ^ 51 + (f - 4194304) * 2 ^ 29) 29 = f).
      { rewrite Z.shiftr_div_pow2 by lia.
        change (2 ^ 51) with 2251799813685248. change (2 ^ 29) with 536870912.
        Z.div_mod_to_equations. lia. }
      rewrite Hshift. rewrite (lor_bit_set 22 f) by (change (2 ^ 22) with 4194304;
                                                      change (2 ^ (22 + 1)) with 8388608; lia).
      rewrite float32_of_fields by (change (2 ^ 23) with 8388608; lia).
      change (2 ^ 31) with 2147483648. change (2 ^ 23) with 8388608. lia.
  - cbn. rewrite Z.shiftl_mul_pow2 by lia. change (2 ^ 31) with 2147483648. lia.
  - assert (Hk1 : 2 ^ (k + 1) = 2 * 2 ^ k) by (rewrite Z.pow_add_r by lia; lia).
    assert (Hpow : 2 ^ k * 2 ^ (52 - k) = 2 ^ 52).
    { rewrite <- Z.pow_add_r by lia. f_equal. lia. }
    assert (Hp2 : 0 < 2 ^ (52 - k)) by (apply Z.pow_pos_nonneg; lia).
    destruct (k + 874 =? 2047) eqn:E1; [apply Z.eqb_eq in E1; lia|].
    destruct (1150 <? k + 874) eqn:E2; [apply Z.ltb_lt in E2; lia|].
    destruct (896 <? k + 874) eqn:E3; [apply Z.ltb_lt in E3; lia|].
    destruct (873 <? k + 874) eqn:E4; [|apply Z.ltb_ge in E4; lia].
    rewrite (lor_shiftl_low 1 52) by lia.
    replace (926 - (k + 874)) with (52 - k) by lia.
    rewrite Z.shiftr_div_pow2 by lia.
    replace (1 * 2 ^ 52 + (f - 2 ^ k) * 2 ^ (52 - k)) with (f * 2 ^ (52 - k)) by lia.
    rewrite Z.div_mul by lia.
    rewrite lor_shiftl_low by (change (2 ^ 31) with 2147483648; lia).
    change (2 ^ 31) with 2147483648. lia.
  - destruct (e + 896 =? 2047) eqn:E1; [apply Z.eqb_eq in E1; lia|].
    destruct (1150 <? e + 896) eqn:E2; [apply Z.ltb_lt in E2; lia|].
    destruct (896 <? e + 896) eqn:E3; [|apply Z.ltb_ge in E3; lia].
    replace (e + 896 - 896) with e by lia.
    rewrite Z.shiftr_div_pow2 by lia. rewrite Z.div_mul by lia.
    rewrite float32_of_fields by (change (2 ^ 23) with 8388608; lia).
    change (2 ^ 31) with 2147483648. change (2 ^ 23) with 8388608. lia.
Qed.

(** The widening of a [float32] is a pattern of 64 bits. *)
Lemma float32_to_float64_bits64 b : 0 <= b < 2 ^ 32 -> bits64 (float32_to_float64 b).
Proof.
  intros Hb.
  destruct (float32_to_float64_fields b Hb)
    as (s & e & f & E & M & (_ & Hs & _) & _ & HE & HM & -> & _).
  unfold bits64. change (2 ^ 64) with 18446744073709551616.
  change (2 ^ 63) with 9223372036854775808. change (2 ^ 52) with 4503599627370496 in *.
  lia.
Qed.

(** ** Well-typed messages *)

Lemma FindFieldDescriptor_schema m fd :
  wf_schema (md m) -> fd ∈ GetFields (md m) ->
  FindFieldDescriptor m (GetNumber fd) = Some fd.
Proof.
  intros Hsc Hfd. destruct (FindFieldDescriptor_declared m fd Hfd) as [fd' Hfd'].
  rewrite Hfd'. f_equal. unfold FindFieldDescriptor in Hfd'.
  apply List.find_some in Hfd' as [Hin Heq]. apply Z.eqb_eq in Heq.
  apply list_elem_of_In in Hin. symmetry. by eapply schema_number_inj.
Qed.

Lemma typed_field m fd :
  wf_schema (md m) -> fd ∈ GetFields (md m) -> isTSZType (GetType fd) = true ->
  floatTyped (GetType fd) (values m !! GetNumber fd) = true ->
  let v := floatBitsOf (values m !! GetNumber fd) in
  tszValue m (GetNumber fd) = Some v /\
  TryGetFieldByNumber m (GetNumber fd) = inr (floatOf (GetType fd) v) /\
  bits64 v.
Proof.
  intros Hsc Hfd Ht Hty. unfold tszValue, TryGetFieldByNumber.
  rewrite (FindFieldDescriptor_schema m fd Hsc Hfd).
  destruct (values m !! GetNumber fd) as [[x|b| | | |]|] eqn:Ev;
    destruct (GetType fd) eqn:Et; try done; cbn in Hty |- *.
  - apply bool_decide_eq_true in Hty. done.
  - apply andb_true_iff in Hty as [Hb Hq]. apply bool_decide_eq_true in Hb.
    apply negb_true_iff in Hq.
    rewrite float64_to_float32_widened by done.
    split; [done|]. split; [done|]. by apply float32_to_float64_bits64.
Qed.

Lemma Forall2_Forall_r_impl {A B} (R S : A -> B -> Prop) (Q : B -> Prop) l k :
  Forall2 R l k -> Forall Q k -> (forall x y, R x y -> Q y -> S x y) -> Forall2 S l k.
Proof.
  intros HR. induction HR as [|x y l k Hxy _ IH]; intros HQ Himpl; [constructor|].
  apply Forall_cons in HQ as [Hy HQ]. constructor; [by apply Himpl | by apply IH].
Qed.

Lemma fmap_eq_Forall2 {A B C} (f : A -> C) (g : B -> C) l : forall k,
  f <$> l = g <$> k -> Forall2 (fun x y => f x = g y) l k.
Proof.
  induction l as [|x l IH]; intros [|y k] Heq; cbn in Heq; try discriminate.
  - constructor.
  - injection Heq as Hxy Hlk. constructor; [done | by apply IH].
Qed.

Lemma wellTyped_floats enc m :
  wf_schema (schema enc) -> wf_encoder enc -> wellTyped (schema enc) m ->
  floatValues enc m (floatBits (schema enc) m) /\
  floatsExact (schema enc) m (floatBits (schema enc) m) /\
  Forall bits64 (floatBits (schema enc) m).
Proof.
  intros Hsc Henc [Hmd Hty]. rewrite <- Hmd in Hsc.
  unfold floatValues, floatsExact, floatBits.
  assert (Hall : Forall (fun fd =>
            let v := floatBitsOf (values m !! GetNumber fd) in
            tszValue m (GetNumber fd) = Some v /\
            TryGetFieldByNumber m (GetNumber fd) = inr (floatOf (GetType fd) v) /\
            bits64 v)
          (filter (fun fd => isTSZType (GetType fd) = true) (GetFields (schema enc)))).
  { rewrite Forall_forall in Hty. apply Forall_forall. intros fd Hfd.
    pose proof (Hty fd Hfd) as Hfdty.
    apply list_elem_of_filter in Hfd as [Ht Hfd]. rewrite <- Hmd in Hfd.
    by apply typed_field. }
  split; [|split].
  - apply Forall2_fmap_r.
    eapply (Forall2_Forall_r_impl _ _ _ _ _ (fmap_eq_Forall2 fieldNum GetNumber _ _ Henc) Hall).
    cbn. intros st fd -> (? & _). done.
  - apply Forall2_fmap_r. apply Forall_Forall2_diag.
    eapply Forall_impl; [exact Hall|]. cbn. tauto.
  - apply Forall_fmap. eapply Forall_impl; [exact Hall|]. cbn. tauto.
Qed.

(** ** The readers, on what the writers wrote *)

Lemma bits_msb_S k v :
  OStream.bits_msb (S k) v = Z.testbit v (Z.of_nat k) :: OStream.bits_msb k v.
Proof. reflexivity. Qed.

Lemma ReadBitsFrom_bits_msb n : forall v acc rest,
  ReadBitsFrom n acc (OStream.bits_msb n v ++ rest) =
    Some (acc * 2 ^ Z.of_nat n + v mod 2 ^ Z.of_nat n, rest).
Proof.
  induction n as [|n IH]; intros v acc rest.
  - cbn. rewrite Z.mod_1_r. f_equal. f_equal. lia.
  - rewrite bits_msb_S. cbn [ReadBitsFrom app]. rewrite IH. f_equal. f_equal.
    rewrite Nat2Z.inj_succ, Z.pow_succ_r by lia.
    rewrite (Z.mul_comm 2 (2 ^ Z.of_nat n)).
    rewrite Z.rem_mul_r by lia.
    rewrite Z.testbit_spec' by lia.
    lia.
Qed.

Lemma ReadBits_bits_msb n v rest :
  0 <= v < 2 ^ Z.of_nat n ->
  ReadBits n (OStream.bits_msb n v ++ rest) = Some (v, rest).
Proof.
  intros Hv. unfold ReadBits. rewrite ReadBitsFrom_bits_msb.
  rewrite Z.mod_small by lia. f_equal.
Qed.

Lemma ReadBytes_bytes_bits bs : forall rest,
  Forall (fun b => 0 <= b < 256) bs ->
  ReadBytes (length bs) (OStream.bytes_bits bs ++ rest) = Some (bs, rest).
Proof.
  induction bs as [|b bs IH]; intros rest Hbs; [done|].
  apply Forall_cons in Hbs as [Hb Hbs].
  cbn [length ReadBytes OStream.bytes_bits flat_map].
  rewrite <- app_assoc. rewrite ReadBits_bits_msb by (change (2 ^ Z.of_nat 8) with 256; lia).
  fold (OStream.bytes_bits bs). by rewrite IH.
Qed.

Lemma ReadBitmap_app bm : forall rest,
  ReadBitmap (length bm) (bm ++ rest) = Some (bm, rest).
Proof.
  induction bm as [|b bm IH]; intros rest; [done|].
  cbn [length ReadBitmap app]. by rewrite IH.
Qed.

Lemma continuation_byte a :
  0 <= a < 256 ->
  128 <= Z.lor a 128 < 256 /\ Z.lor a 128 mod 128 = a mod 128.
Proof.
  intros Ha.
  assert (Hall : Forall (fun a => 128 <= Z.lor a 128 < 256 /\
                                  Z.lor a 128 mod 128 = a mod 128) (seqZ 0 256))
    by (apply (bool_decide_unpack _); vm_compute; exact I).
  rewrite Forall_forall in Hall. apply Hall. apply elem_of_seqZ. lia.
Qed.

Lemma ReadVarintN_uvarintN fuel : forall x rest,
  fuel <> O ->
  0 <= x < 2 ^ (7 * Z.of_nat fuel) ->
  ReadVarintN fuel (OStream.bytes_bits (uvarintN fuel x) ++ rest) = Some (x, rest).
Proof.
  induction fuel as [|fuel IH]; intros x rest Hfuel Hx; [done|].
  - cbn [uvarintN ReadVarintN].
    assert (Hb : 0 <= x mod 256 < 256) by (apply Z.mod_pos_bound; lia).
    destruct (128 <=? x) eqn:Hge.
    + apply Z.leb_le in Hge.
      destruct (continuation_byte (x mod 256) Hb) as [Hrange Hlow].
      cbn [OStream.bytes_bits flat_map]. rewrite <- app_assoc.
      rewrite ReadBits_bits_msb by (change (2 ^ Z.of_nat 8) with 256; lia).
      fold (OStream.bytes_bits (uvarintN fuel (Z.shiftr x 7))).
      destruct (128 <=? Z.lor (x mod 256) 128) eqn:Hc; [|apply Z.leb_gt in Hc; lia].
      rewrite Z.shiftr_div_pow2 by lia.
      assert (Hx' : x < 128 * 2 ^ (7 * Z.of_nat fuel)).
      { replace (7 * Z.of_nat (S fuel)) with (7 + 7 * Z.of_nat fuel) in Hx by lia.
        rewrite Z.pow_add_r in Hx by lia. change (2 ^ 7) with 128 in Hx. lia. }
      rewrite IH.
      * f_equal. f_equal. rewrite Hlow. change (2 ^ 7) with 128.
        Z.div_mod_to_equations. lia.
      * intros ->. change (2 ^ (7 * Z.of_nat 0)) with 1 in Hx'. lia.
      * change (2 ^ 7) with 128. split; [apply Z.div_pos; lia|].
        apply Z.div_lt_upper_bound; lia.
    + apply Z.leb_gt in Hge.
      cbn [OStream.bytes_bits flat_map app]. rewrite app_nil_r.
      rewrite Z.mod_small by lia.
      rewrite ReadBits_bits_msb by (change (2 ^ Z.of_nat 8) with 256; lia).
      destruct (128 <=? x) eqn:Hc; [apply Z.leb_le in Hc; lia | done].
Qed.

Lemma ReadVarint_uvarint x rest :
  0 <= x < 2 ^ 56 ->
  ReadVarint (OStream.bytes_bits (uvarint x) ++ rest) = Some (x, rest).
Proof.
  intros Hx. apply ReadVarintN_uvarintN; [done|].
  change (7 * Z.of_nat 10) with 70.
  assert (2 ^ 56 < 2 ^ 70) by (apply Z.pow_lt_mono_r; lia). lia.
Qed.

(** ** Leading and trailing zeros *)

Lemma LeadingZeros64_bounds x :
  0 < x < 2 ^ 64 ->
  0 <= m3tsz.LeadingZeros64 x <= 63 /\ x < 2 ^ (64 - m3tsz.LeadingZeros64 x).
Proof.
  intros Hx. unfold m3tsz.LeadingZeros64.
  destruct (x =? 0) eqn:E; [apply Z.eqb_eq in E; lia|].
  destruct (Z.log2_spec x) as [Hlo Hhi]; [lia|].
  assert (0 <= Z.log2 x) by apply Z.log2_nonneg.
  assert (Z.log2 x < 64) by (apply Z.log2_lt_pow2; lia).
  split; [lia|].
  replace (64 - (63 - Z.log2 x)) with (Z.succ (Z.log2 x)) by lia. done.
Qed.

Lemma lowZeros_spec n : forall x,
  x <> 0 ->
  0 <= m3tsz.lowZeros n x <= Z.of_nat n /\
  exists q, x = q * 2 ^ m3tsz.lowZeros n x.
Proof.
  induction n as [|n IH]; intros x Hx.
  - cbn. split; [lia|]. exists x. lia.
  - cbn [m3tsz.lowZeros]. destruct (Z.odd x) eqn:Hodd.
    + split; [lia|]. exists x. change (2 ^ 0) with 1. lia.
    + assert (Hd : x = 2 * Z.div2 x).
      { rewrite (Z.div2_odd x) at 1. rewrite Hodd. simpl. lia. }
      destruct (IH (Z.div2 x)) as [Hr [q Hq]]; [lia|].
      split; [lia|]. exists q.
      rewrite Z.pow_add_r by lia. change (2 ^ 1) with 2. lia.
Qed.

Lemma TrailingZeros64_spec x :
  0 < x < 2 ^ 64 ->
  0 <= m3tsz.TrailingZeros64 x /\
  m3tsz.LeadingZeros64 x + m3tsz.TrailingZeros64 x <= 63 /\
  exists q, x = q * 2 ^ m3tsz.TrailingZeros64 x.
Proof.
  intros Hx. unfold m3tsz.TrailingZeros64, m3tsz.LeadingZeros64.
  destruct (x =? 0) eqn:E; [apply Z.eqb_eq in E; lia|].
  destruct (lowZeros_spec 64 x) as [Hr [q Hq]]; [lia|].
  split; [lia|]. split; [|by exists q].
  assert (Hpow : 0 < 2 ^ m3tsz.lowZeros 64 x) by (apply Z.pow_pos_nonneg; lia).
  assert (Hle : 2 ^ m3tsz.lowZeros 64 x <= x).
  { revert Hpow Hq. generalize (2 ^ m3tsz.lowZeros 64 x). intros pw Hpow Hq.
    assert (0 < q) by nia. nia. }
  apply Z.log2_le_mono in Hle. rewrite Z.log2_pow2 in Hle by lia. lia.
Qed.

Lemma shiftl_shiftr_multiple x t t' :
  0 <= t <= t' -> (exists q, x = q * 2 ^ t') ->
  Z.shiftl (Z.shiftr x t) t = x.
Proof.
  intros Ht [q ->].
  rewrite Z.shiftr_div_pow2, Z.shiftl_mul_pow2 by lia.
  replace t' with ((t' - t) + t) by lia. rewrite Z.pow_add_r by lia.
  rewrite Z.mul_assoc, Z.div_mul; [done|].
  apply Z.pow_nonzero; lia.
Qed.

Lemma shiftr_window x l t :
  0 <= t -> 0 <= 64 - l - t -> 0 <= x < 2 ^ (64 - l) ->
  0 <= Z.shiftr x t < 2 ^ (64 - l - t).
Proof.
  intros Ht Hn Hx. rewrite Z.shiftr_div_pow2 by lia.
  assert (0 < 2 ^ t) by (apply Z.pow_pos_nonneg; lia).
  split; [apply Z.div_pos; lia|].
  apply Z.div_lt_upper_bound; [lia|].
  rewrite <- Z.pow_add_r by lia. replace (t + (64 - l - t)) with (64 - l) by lia. lia.
Qed.

(** ** What [ReadXOR] makes of what [WriteXOR] wrote *)

Lemma ReadXOR_WriteXOR prev cur rest :
  0 <= prev < 2 ^ 64 -> 0 <= cur < 2 ^ 64 ->
  ReadXOR prev (m3tsz.WriteXOR [] prev cur ++ rest) = Some (cur, rest).
Proof.
  intros Hprev Hcur. unfold m3tsz.WriteXOR.
  destruct (cur =? 0) eqn:Hz.
  { apply Z.eqb_eq in Hz. by subst. }
  apply Z.eqb_neq in Hz.
  assert (Hcur' : 0 < cur < 2 ^ 64) by lia.
  destruct (LeadingZeros64_bounds cur Hcur') as [HL HcurL].
  destruct (TrailingZeros64_spec cur Hcur') as [HT [HLT Hq]].
  set (L := m3tsz.LeadingZeros64 cur) in *.
  set (T := m3tsz.TrailingZeros64 cur) in *.
  set (Lp := m3tsz.LeadingZeros64 prev) in *.
  set (Tp := m3tsz.TrailingZeros64 prev) in *.
  cbv zeta.
  destruct ((Lp <=? L) && (Tp <=? T)) eqn:Hreuse.
  - apply andb_true_iff in Hreuse as [HLp HTp].
    apply Z.leb_le in HLp. apply Z.leb_le in HTp.
    assert (Hprev' : 0 < prev < 2 ^ 64).
    { destruct (decide (prev = 0)) as [->|]; [|lia].
      subst Lp. unfold m3tsz.LeadingZeros64 in HLp. simpl in HLp. lia. }
    destruct (LeadingZeros64_bounds prev Hprev') as [HLpb _].
    destruct (TrailingZeros64_spec prev Hprev') as [HTpb [HLTp _]].
    fold Lp in HLpb, HLTp. fold Tp in HTpb, HLTp.
    unfold OStream.WriteBits, OStream.WriteBit. cbn [app ReadXOR ReadBit].
    fold Lp Tp.
    rewrite Z.min_l by lia.
    assert (Hsig : 0 <= Z.shiftr cur Tp < 2 ^ (64 - Lp - Tp)).
    { apply shiftr_window; [lia|lia|]. split; [lia|].
      eapply Z.lt_le_trans; [exact HcurL|]. apply Z.pow_le_mono_r; lia. }
    rewrite ReadBits_bits_msb by (rewrite Z2Nat.id by lia; exact Hsig).
    f_equal. f_equal. apply (shiftl_shiftr_multiple cur Tp T); [lia | done].
  - clear Hreuse.
    set (L' := Z.min L 31).
    assert (HL' : 0 <= L' <= 31 /\ L' <= L) by (unfold L'; lia).
    set (n := 64 - L' - T).
    assert (Hn : 1 <= n <= 64) by (unfold n; lia).
    unfold OStream.WriteBits, OStream.WriteBit. cbn [app ReadXOR ReadBit].
    change (Z.to_nat (Z.min 5 64)) with 5%nat.
    change (Z.to_nat (Z.min 6 64)) with 6%nat.
    rewrite <- !app_assoc.
    rewrite ReadBits_bits_msb by (change (2 ^ Z.of_nat 5) with 32; lia).
    rewrite ReadBits_bits_msb
      by (change (2 ^ Z.of_nat 6) with 64; apply Z.mod_pos_bound; lia).
    assert (Hcount : (if n mod 64 =? 0 then 64 else n mod 64) = n).
    { destruct (decide (n = 64)) as [->|Hne]; [done|].
      rewrite Z.mod_small by lia.
      destruct (n =? 0) eqn:E; [apply Z.eqb_eq in E; lia | done]. }
    cbv zeta. rewrite Hcount.
    rewrite Z.min_l by lia.
    assert (Hsig : 0 <= Z.shiftr cur T < 2 ^ (64 - L' - T)).
    { apply shiftr_window; [lia|lia|]. split; [lia|].
      eapply Z.lt_le_trans; [exact HcurL|]. apply Z.pow_le_mono_r; lia. }
    rewrite ReadBits_bits_msb by (fold n in Hsig; rewrite Z2Nat.id by lia; exact Hsig).
    f_equal. f_equal. replace (64 - L' - n) with T by (unfold n; lia).
    apply (shiftl_shiftr_multiple cur T T); [lia | done].
Qed.

(** ** The numeric run, read back *)

Lemma lxor_bits64 a b : bits64 a -> bits64 b -> bits64 (Z.lxor a b).
Proof.
  unfold bits64. intros Ha Hb.
  assert (Hnn : 0 <= Z.lxor a b) by (apply Z.lxor_nonneg; lia).
  split; [done|].
  destruct (decide (Z.lxor a b = 0)) as [->|Hne]; [lia|].
  apply Z.log2_lt_pow2; [lia|].
  pose proof (Z.log2_lxor a b ltac:(lia) ltac:(lia)) as Hlog.
  assert (Hla : Z.log2 a < 64).
  { destruct (decide (a = 0)) as [->|]; [done|]. apply Z.log2_lt_pow2; lia. }
  assert (Hlb : Z.log2 b < 64).
  { destruct (decide (b = 0)) as [->|]; [done|]. apply Z.log2_lt_pow2; lia. }
  lia.
Qed.

Lemma lxor_cancel a b : Z.lxor a (Z.lxor a b) = b.
Proof. by rewrite <- Z.lxor_assoc, Z.lxor_nilpotent, Z.lxor_0_l. Qed.

Lemma decodeFloat_tszOut written st v rest :
  bits64 v ->
  (written = true -> bits64 (prevXOR st) /\ bits64 (prevFloatBits st)) ->
  decodeFloat (stateOf written st) (tszOut written st v ++ rest) =
    Some (v, stateOf true (tszUpd written st v), rest).
Proof.
  intros Hv Hst. destruct written; cbn [stateOf tszOut tszUpd decodeFloat].
  - destruct (Hst eq_refl) as [Hx Hb].
    rewrite ReadXOR_WriteXOR; [| done | by apply lxor_bits64].
    cbn [prevFloatBits prevXOR]. by rewrite lxor_cancel.
  - rewrite ReadBits_bits_msb by exact Hv. done.
Qed.

Lemma numericRun_cons written st fields v vals :
  numericRun written (st :: fields) (v :: vals) =
    tszOut written st v ++ numericRun written fields vals.
Proof. reflexivity. Qed.

Lemma decodeTSZValues_numericRun written : forall fields dfs vals rest,
  Forall2 (fun st d => d.2 = stateOf written st) fields dfs ->
  length vals = length fields ->
  Forall bits64 vals ->
  (written = true ->
   Forall (fun st => bits64 (prevXOR st) /\ bits64 (prevFloatBits st)) fields) ->
  decodeTSZValues dfs (numericRun written fields vals ++ rest) =
    Some (zip dfs.*1 (stateOf true <$> zip_with (tszUpd written) fields vals),
          numericValues dfs.*1 vals, rest).
Proof.
  intros fields dfs vals rest Hsync. revert vals rest.
  induction Hsync as [|st [fd d] fields dfs Hd Hsync IH]; intros vals rest Hlen Hvals Hst.
  - destruct vals; [|done]. done.
  - destruct vals as [|v vals]; [done|].
    apply Forall_cons in Hvals as [Hv Hvals].
    cbn [snd] in Hd. subst d.
    rewrite numericRun_cons, <- app_assoc. cbn [decodeTSZValues].
    rewrite decodeFloat_tszOut; [| done |].
    + rewrite IH; [done | by inversion Hlen | done |].
      intros Hw. specialize (Hst Hw). by apply Forall_cons in Hst as [_ ?].
    + intros Hw. specialize (Hst Hw). by apply Forall_cons in Hst as [? _].
Qed.

(** ** The general run, read back *)

Lemma marked_bitmap changed n :
  Forall (fun c => 0 <= c) changed ->
  marked (bitmap changed) n = bool_decide (n ∈ changed).
Proof.
  intros Hpos. unfold marked.
  destruct (0 <=? n) eqn:Hn; cbn [andb].
  - apply Z.leb_le in Hn.
    destruct (decide (n <= maxField changed)) as [Hle|Hgt].
    + by rewrite lookup_bitmap by lia.
    + rewrite lookup_ge_None_2.
      * symmetry. apply bool_decide_eq_false. intros Hin%maxField_ge. lia.
      * pose proof (length_bitmap changed). lia.
  - apply Z.leb_gt in Hn. symmetry. apply bool_decide_eq_false. intros Hin.
    rewrite Forall_forall in Hpos. specialize (Hpos _ Hin). lia.
Qed.

Section ReadGeneral.

Variable Unmarshal : MessageDescriptor -> list Z -> option Message.

Lemma decodeProtoValues_generalRun sc last changed payload x rest :
  Forall (fun c => 0 <= c) changed ->
  maxField changed + 1 < 2 ^ 56 ->
  Forall (fun b => 0 <= b < 256) payload ->
  Z.of_nat (length payload) < 2 ^ 56 ->
  Unmarshal sc payload = Some x ->
  decodeProtoValues Unmarshal sc last (generalRun changed payload ++ rest) =
    Some (filter (fun kv => marked (bitmap changed) kv.1 = true) (values x)
            ∪ filter (fun kv => marked (bitmap changed) kv.1 = false)
                     (generalValues sc last), rest).
Proof.
  intros Hpos Hmax Hbytes Hlen Hx.
  unfold generalRun, decodeProtoValues. rewrite <- !app_assoc. cbn [app ReadBit].
  pose proof (maxField_nonneg changed) as Hnn.
  rewrite ReadVarint_uvarint by lia.
  rewrite <- length_bitmap, Nat2Z.id, ReadBitmap_app.
  rewrite ReadVarint_uvarint by lia.
  rewrite Nat2Z.id, ReadBytes_bytes_bits by done.
  by rewrite Hx.
Qed.

End ReadGeneral.

(** ** Reading fields *)

Lemma TryGet_values a b n :
  md a = md b -> values a !! n = values b !! n ->
  TryGetFieldByNumber a n = TryGetFieldByNumber b n.
Proof.
  intros Hmd Hv. unfold TryGetFieldByNumber, FindFieldDescriptor. by rewrite Hmd, Hv.
Qed.

Lemma TryGet_clearFields_notin nums m n :
  n ∉ nums -> TryGetFieldByNumber (clearFields nums m) n = TryGetFieldByNumber m n.
Proof.
  intros Hn. apply TryGet_values; [apply md_clearFields|].
  by rewrite lookup_clearFields, decide_False.
Qed.

Lemma lookup_generalValues sc last n :
  generalValues sc (Some last) !! n =
    if decide (n ∈ generalNums sc) then values last !! n else None.
Proof.
  unfold generalValues. apply option_eq. intros v.
  rewrite map_lookup_filter_Some. cbn [fst].
  destruct (decide (n ∈ generalNums sc)); [tauto|]. split; [tauto | done].
Qed.

Lemma lookup_unmarked bm (vs : gmap Z Value) n :
  filter (fun kv => marked bm kv.1 = false) vs !! n =
    if marked bm n then None else vs !! n.
Proof.
  apply option_eq. intros v. rewrite map_lookup_filter_Some. cbn [fst].
  destruct (marked bm n); [|tauto]. split; [intros [_ ?]; done | done].
Qed.

Lemma lookup_marked bm (vs : gmap Z Value) n :
  filter (fun kv => marked bm kv.1 = true) vs !! n =
    if marked bm n then vs !! n else None.
Proof.
  apply option_eq. intros v. rewrite map_lookup_filter_Some. cbn [fst].
  destruct (marked bm n); [tauto|]. split; [intros [_ ?]; done | done].
Qed.

Lemma generalNums_declared sc n :
  n ∈ generalNums sc -> n ∈ GetNumber <$> GetFields sc.
Proof.
  unfold generalNums.
  intros (fd & -> & [_ Hfd]%list_elem_of_filter)%list_elem_of_fmap.
  apply list_elem_of_fmap. eauto.
Qed.

Lemma declared_cases sc n :
  n ∈ GetNumber <$> GetFields sc -> n ∈ tszNums sc \/ n ∈ generalNums sc.
Proof.
  intros (fd & -> & Hfd)%list_elem_of_fmap. unfold tszNums, generalNums.
  destruct (isTSZType (GetType fd)) eqn:Et; [left|right];
    apply list_elem_of_fmap; exists fd; (split; [done|]); by apply list_elem_of_filter.
Qed.

(** ** The values of the numeric run *)

Lemma numericValues_keys fds : forall vals,
  length vals = length fds ->
  (zip_with (fun fd v => (GetNumber fd, floatOf (GetType fd) v)) fds vals).*1
  = GetNumber <$> fds.
Proof.
  induction fds as [|fd fds IH]; intros [|v vals] Hlen; try done.
  cbn. f_equal. apply IH. by inversion Hlen.
Qed.

Lemma numericValues_lookup fds vals i fd v :
  NoDup (GetNumber <$> fds) -> length vals = length fds ->
  fds !! i = Some fd -> vals !! i = Some v ->
  numericValues fds vals !! GetNumber fd = Some (floatOf (GetType fd) v).
Proof.
  intros Hnd Hlen Hfd Hv. unfold numericValues.
  apply elem_of_list_to_map.
  - by rewrite numericValues_keys.
  - apply list_elem_of_lookup. exists i. rewrite lookup_zip_with, Hfd. cbn. by rewrite Hv.
Qed.

Lemma numericValues_lookup_None fds vals n :
  n ∉ GetNumber <$> fds -> numericValues fds vals !! n = None.
Proof.
  intros Hn. unfold numericValues. apply not_elem_of_list_to_map.
  intros ([k val] & Hk & Hin)%list_elem_of_fmap. cbn in Hk. subst k.
  apply list_elem_of_lookup in Hin as [i Hi].
  rewrite lookup_zip_with in Hi.
  destruct (fds !! i) as [fd|] eqn:Efd; [|done]. cbn in Hi.
  destruct (vals !! i) as [v|]; [|done]. cbn in Hi. injection Hi as <- _.
  apply Hn. apply list_elem_of_fmap. exists fd. split; [done|].
  by eapply list_elem_of_lookup_2.
Qed.

(** ** The general fields of a frame, read back *)

Lemma unchanged_reads prev cur nums n :
  n ∈ nums -> n ∉ changedNums prev cur nums ->
  TryGetFieldByNumber cur n = TryGetFieldByNumber prev n.
Proof.
  intros Hn Hnc. unfold changedNums in Hnc. rewrite list_elem_of_filter in Hnc.
  unfold fieldChanged in Hnc.
  destruct (decide (TryGetFieldByNumber cur n = TryGetFieldByNumber prev n)); [done|].
  exfalso. apply Hnc. done.
Qed.

Lemma changedNums_bounds sc prev cur :
  wf_schema sc ->
  let changed := changedNums prev cur (GetNumber <$> GetFields sc) in
  Forall (fun c => 0 <= c) changed /\ maxField changed + 1 < 2 ^ 56.
Proof.
  intros [_ Hrange] changed.
  assert (Hall : Forall (fun c => 0 < c < 2 ^ 31) changed).
  { apply Forall_forall. intros n [Hn _]%changedNums_subseteq.
    apply list_elem_of_fmap in Hn as (fd & -> & Hfd).
    rewrite Forall_forall in Hrange. by apply Hrange. }
  assert (Hpos : Forall (fun c => 0 <= c) changed).
  { eapply Forall_impl; [exact Hall|]. cbn. lia. }
  split; [done|].
  destruct (decide (changed = [])) as [->|Hne]; [done|].
  pose proof (maxField_elem_of changed Hne Hpos) as Hin.
  rewrite Forall_forall in Hall. specialize (Hall _ Hin).
  assert (2 ^ 31 < 2 ^ 56) by (apply Z.pow_lt_mono_r; lia). lia.
Qed.

Section ReadGeneralRun.

Variable Marshal : Message -> option (list Z).
Variable Unmarshal : MessageDescriptor -> list Z -> option Message.

Lemma decodeProtoValues_generalRunOf sc m base last :
  wf_schema sc -> md m = sc ->
  (forall prev, base = Some prev -> md prev = sc) ->
  (base = None -> generalUnset sc m) ->
  lastSync sc base last ->
  let cleared := clearFields (tszNums sc) m in
  payloadExact Marshal Unmarshal sc (toMarshal sc base cleared) ->
  exists general,
    (forall rest,
       decodeProtoValues Unmarshal sc last
         (generalRunOf Marshal sc base cleared ++ rest) = Some (general, rest)) /\
    forall n, n ∈ generalNums sc ->
      TryGetFieldByNumber (mkMessage sc general) n = TryGetFieldByNumber m n.
Proof.
  intros Hsc Hmd Hbase Hfirst Hsync cleared Hpay.
  assert (Hgen : forall n, n ∈ generalNums sc ->
            TryGetFieldByNumber cleared n = TryGetFieldByNumber m n
            /\ values cleared !! n = values m !! n).
  { intros n Hn. pose proof (general_not_tsz sc n Hsc Hn) as Hnt. split.
    - by apply TryGet_clearFields_notin.
    - unfold cleared. by rewrite lookup_clearFields, decide_False. }
  unfold generalRunOf, toMarshal in *.
  destruct base as [prev|]; destruct last as [last|]; try done.
  - destruct Hsync as [Hmdl Hsync]. specialize (Hbase prev eq_refl).
    pose proof (changedNums_bounds sc prev cleared Hsc) as Hbounds. cbv zeta in Hbounds.
    destruct (changedNums prev cleared (GetNumber <$> GetFields sc)) as [|c cs] eqn:Ec.
    + (* no field changed *)
      eexists. split; [intros rest; reflexivity|].
      intros n Hn. destruct (Hgen n Hn) as [<- _].
      rewrite (unchanged_reads prev cleared (GetNumber <$> GetFields sc) n);
        [| by apply generalNums_declared | rewrite Ec; apply not_elem_of_nil].
      rewrite <- (Hsync n Hn). apply TryGet_values; [done|].
      cbn [values]. by rewrite lookup_generalValues, decide_True.
    + (* some field changed *)
      destruct Hpay as (payload & HM & Hlen & Hbytes & HU).
      destruct Hbounds as [Hpos Hmax].
      exists (filter (fun kv => marked (bitmap (c :: cs)) kv.1 = true)
                     (values (diffMessage sc prev cleared)) ∪
                filter (fun kv => marked (bitmap (c :: cs)) kv.1 = false)
                       (generalValues sc (Some last))).
      split.
      * intros rest. rewrite HM. by apply decodeProtoValues_generalRun.
      * intros n Hn. destruct (Hgen n Hn) as [Hread Hval].
        pose proof (generalNums_declared sc n Hn) as Hdecl.
        destruct (decide (n ∈ c :: cs)) as [Hin|Hnin].
        -- apply TryGet_values; [done|]. cbn [values].
           rewrite lookup_union, lookup_marked, lookup_unmarked, marked_bitmap by done.
           rewrite bool_decide_eq_true_2 by done.
           rewrite lookup_diffMessage.
           rewrite decide_False
             by (apply changedNums_not_unchanged; by rewrite Ec).
           rewrite Hval. by destruct (values m !! n).
        -- rewrite <- Hread.
           rewrite (unchanged_reads prev cleared (GetNumber <$> GetFields sc) n);
             [| done | by rewrite Ec].
           rewrite <- (Hsync n Hn). apply TryGet_values; [done|]. cbn [values].
           rewrite lookup_union, lookup_marked, lookup_unmarked, marked_bitmap by done.
           rewrite bool_decide_eq_false_2 by done.
           rewrite lookup_generalValues, decide_True by done.
           by destruct (values last !! n).
  - (* the first message: the bitmap marks no field *)
    destruct Hpay as (payload & HM & Hlen & Hbytes & HU).
    exists (filter (fun kv => marked (bitmap []) kv.1 = true) (values cleared) ∪
              filter (fun kv => marked (bitmap []) kv.1 = false) (generalValues sc None)).
    split.
    + intros rest. fold cleared. rewrite HM.
      by apply decodeProtoValues_generalRun.
    + intros n Hn. rewrite (Hfirst eq_refl n Hn).
      apply TryGet_values; [done|]. cbn [values].
      rewrite lookup_union, lookup_marked, lookup_unmarked, marked_bitmap by done.
      rewrite bool_decide_eq_false_2 by apply not_elem_of_nil.
      unfold generalValues. by rewrite lookup_empty.
Qed.

End ReadGeneralRun.

(** ** One frame, written and read back *)

Lemma Forall2_snd_fmap {A B C} (f : A -> C) (l : list A) : forall (k : list (B * C)),
  k.*2 = f <$> l -> Forall2 (fun x d => d.2 = f x) l k.
Proof.
  induction l as [|x l IH]; intros [|d k] Heq; cbn in Heq; try discriminate.
  - constructor.
  - injection Heq as Hd Hk. constructor; [done | by apply IH].
Qed.

Lemma tszUpd_bits64 written : forall fields vals,
  Forall bits64 vals ->
  (written = true ->
   Forall (fun st => bits64 (prevXOR st) /\ bits64 (prevFloatBits st)) fields) ->
  Forall (fun st => bits64 (prevXOR st) /\ bits64 (prevFloatBits st))
         (zip_with (tszUpd written) fields vals).
Proof.
  induction fields as [|st fields IH]; intros [|v vals] Hvals Hst; try by constructor.
  apply Forall_cons in Hvals as [Hv Hvals]. cbn [zip_with]. constructor.
  - destruct written; cbn; [|done].
    specialize (Hst eq_refl). apply Forall_cons in Hst as [[_ Hb] _].
    split; [by apply lxor_bits64 | done].
  - apply IH; [done|]. intros Hw. specialize (Hst Hw). by apply Forall_cons in Hst as [_ ?].
Qed.

Lemma lastSync_diffBase enc (h : gmap positive Message) p m last :
  wf_schema (schema enc) ->
  h !! p = Some m ->
  lastSync (schema enc) (lastMessage enc h) last ->
  lastSync (schema enc) (diffBase enc h p m) last.
Proof.
  intros Hsc Hp. unfold diffBase, lastMessage.
  destruct (lastEncoded enc) as [q|]; [|done].
  destruct (decide (q = p)) as [->|Hne].
  - rewrite lookup_insert_eq, Hp. destruct last as [last|]; [|done].
    intros [Hmd Hsync]. split; [done|]. intros n Hn. rewrite (Hsync n Hn).
    symmetry. apply TryGet_clearFields_notin. by apply general_not_tsz.
  - by rewrite lookup_insert_ne.
Qed.

Lemma diffBase_first enc (h : gmap positive Message) p m :
  wf_last enc h -> diffBase enc h p m = None -> lastEncoded enc = None.
Proof.
  unfold wf_last, diffBase, lastMessage.
  destruct (lastEncoded enc) as [q|]; [|done].
  destruct (decide (q = p)) as [->|Hne].
  - by rewrite lookup_insert_eq.
  - rewrite lookup_insert_ne by done. by destruct (h !! q).
Qed.

Section Frame.

Variable Marshal : Message -> option (list Z).
Variable Unmarshal : MessageDescriptor -> list Z -> option Message.

Lemma frame_read_back enc (h : gmap positive Message) dec p :
  synced (enc, h) dec ->
  frameDecodable Marshal Unmarshal (enc, h) p ->
  exists m frame out enc' dec',
    h !! p = Some m /\
    Encode Marshal p (enc, h) =
      Returned (None, (enc', <[p := clearFields (tszNums (schema enc)) m]> h)) /\
    stream enc' = stream enc ++ frame /\
    schema enc' = schema enc /\
    (forall rest, Decode Unmarshal dec (frame ++ rest) = Some (out, dec', rest)) /\
    sameFields (schema enc) out m /\
    synced (enc', <[p := clearFields (tszNums (schema enc)) m]> h) dec'.
Proof.
  intros (Hsc & Henc & Hlast & Hcl & Hds & Hd1 & Hd2 & Hrange & Hls)
         (m & Hp & Hty & Hfirst & Hpay).
  cbn [fst snd] in *.
  destruct (wellTyped_floats enc m Hsc Henc Hty) as (Hvals & Hexact & Hbits).
  destruct Hty as [Hmd _].
  set (vals := floatBits (schema enc) m) in *.
  pose proof (Forall2_length _ _ _ Hvals) as Hlen.
  set (sc := schema enc) in *.
  set (cleared := clearFields (tszNums sc) m) in *.
  pose proof (Encode_run Marshal p enc h m vals Hsc Henc Hlast Hp Hmd Hvals) as Hrun.
  cbv zeta in Hrun. fold (diffBase enc h p m) in Hrun. fold sc cleared in Hrun.
  unfold framePayload in Hpay. fold sc cleared in Hpay.
  specialize (Hrun ltac:(
    unfold payloadFits; unfold payloadExact in Hpay;
    destruct (toMarshal sc (diffBase enc h p m) cleared) as [x|]; [|done];
    destruct Hpay as (payload & HM & ? & _); cbn; rewrite HM; done)).
  destruct (decodeProtoValues_generalRunOf Marshal Unmarshal sc m
              (diffBase enc h p m) (LastMessage dec) Hsc Hmd)
    as (general & Hgeneral & Hreads).
  { intros prev Hprev. by destruct (diffBase_cleared enc h p m prev Hlast Hcl Hmd Hprev). }
  { intros Hnone. apply Hfirst. by apply (diffBase_first enc h p m). }
  { by apply lastSync_diffBase. }
  { exact Hpay. }
  fold cleared in Hgeneral.
  set (frame := numericRun (hasWrittenFirstTSZ enc) (tszFields enc) vals
                ++ generalRunOf Marshal sc (diffBase enc h p m) cleared) in *.
  set (numeric := numericValues (dfields dec).*1 vals).
  set (out := mkMessage sc (numeric ∪ general)).
  set (fields' := zip (dfields dec).*1
                    (stateOf true <$> zip_with (tszUpd (hasWrittenFirstTSZ enc))
                                               (tszFields enc) vals)).
  assert (Hnd : NoDup (GetNumber <$> (dfields dec).*1)).
  { rewrite Hd1. by apply tszNums_NoDup. }
  assert (Hlen1 : length (dfields dec).*1 = length (tszFields enc)).
  { rewrite Hd1. unfold wf_encoder in Henc. fold sc in Henc.
    apply (f_equal length) in Henc. unfold tszNums in Henc.
    by rewrite !length_fmap in Henc. }
  assert (Hsame : sameFields sc out m).
  { split; [done|]. intros n Hn.
    destruct (declared_cases sc n Hn) as [Ht|Hg].
    - unfold tszNums in Ht. apply list_elem_of_fmap in Ht as (fd & -> & Hfd).
      apply list_elem_of_lookup in Hfd as [i Hi].
      unfold floatsExact in Hexact. fold sc in Hexact.
      destruct (Forall2_lookup_l _ _ _ _ _ Hexact Hi) as (v & Hv & Hread).
      rewrite Hread. unfold TryGetFieldByNumber.
      destruct (FindFieldDescriptor_declared out fd) as [fd' ->].
      { apply list_elem_of_filter in Hi as [_ ?] || idtac.
        cbn [md out]. eapply list_elem_of_filter.
        eapply list_elem_of_lookup_2. exact Hi. }
      cbn [values out]. erewrite lookup_union_Some_l; [done|].
      unfold numeric. apply (numericValues_lookup _ _ i); [done | lia | by rewrite Hd1 | done].
    - rewrite <- (Hreads n Hg). apply TryGet_values; [done|]. cbn [values out].
      rewrite lookup_union_r; [done|].
      apply numericValues_lookup_None. rewrite Hd1.
      by apply general_not_tsz. }
  exists m, frame, out. eexists. exists (mkDecoder (dschema dec) fields' (Some out)).
  split; [done|]. split; [exact Hrun|]. split; [done|]. split; [done|].
  split; [|split; [done|]].
  - intros rest. unfold Decode, frame. rewrite <- app_assoc.
    rewrite (decodeTSZValues_numericRun (hasWrittenFirstTSZ enc) (tszFields enc));
      [| by apply Forall2_snd_fmap | lia | done | done].
    rewrite Hds. fold sc. by rewrite Hgeneral.
  - destruct (Encode_run_wf enc h p m vals
                (stream enc ++ frame) Henc Hmd Hvals) as (Henc' & Hlast' & Hcl' & _).
    fold sc cleared in Hlast', Hcl'.
    unfold synced. cbn [fst snd schema hasWrittenFirstTSZ tszFields dschema dfields LastMessage].
    fold sc. split; [done|]. split; [exact Henc'|]. split; [exact Hlast'|].
    split; [exact Hcl'|]. split; [done|].
    assert (Hlen2 : length (zip_with (tszUpd (hasWrittenFirstTSZ enc)) (tszFields enc) vals)
                    = length (tszFields enc)).
    { rewrite length_zip_with. lia. }
    split; [|split; [|split]].
    + unfold fields'. rewrite fst_zip; [done|]. rewrite Hlen1, length_fmap, Hlen2. lia.
    + unfold fields'. rewrite snd_zip; [done|]. rewrite Hlen1, length_fmap, Hlen2. lia.
    + intros _. by apply tszUpd_bits64.
    + unfold lastSync, lastMessage. cbn [lastEncoded]. rewrite lookup_insert_eq.
      split; [done|]. intros n Hn. destruct Hsame as [_ Hsame].
      rewrite Hsame by (by apply generalNums_declared).
      symmetry. apply TryGet_clearFields_notin. by apply general_not_tsz.
Qed.

End Frame.

(** ** A sequence of frames, written and read back *)

Lemma Forall2_impl_elem_of {A B} (P Q : A -> B -> Prop) l k :
  Forall2 P l k -> (forall x y, x ∈ l -> P x y -> Q x y) -> Forall2 Q l k.
Proof.
  induction 1 as [|x y l k Hxy _ IH]; intros Himpl; constructor.
  - apply Himpl; [apply list_elem_of_here | done].
  - apply IH. intros x' y' Hx'. apply Himpl. by apply list_elem_of_further.
Qed.

Section Sequence.

Variable Marshal : Message -> option (list Z).
Variable Unmarshal : MessageDescriptor -> list Z -> option Message.

Lemma sequence_read_back : forall ps w dec,
  synced w dec ->
  NoDup ps ->
  decodable Marshal Unmarshal w ps ->
  exists w' frames outs dec',
    encodeAll Marshal ps w = Returned w' /\
    stream w'.1 = stream w.1 ++ frames /\
    (forall rest,
       decodeAll Unmarshal (length ps) dec (frames ++ rest) = Some (outs, dec', rest)) /\
    Forall2 (fun p out => exists m, w.2 !! p = Some m /\ sameFields (schema w.1) out m)
            ps outs.
Proof.
  induction ps as [|p ps IH]; intros [enc h] dec Hsync Hnd Hdec.
  - exists (enc, h), [], [], dec. cbn. rewrite app_nil_r. by repeat split.
  - apply NoDup_cons in Hnd as [Hp Hnd]. destruct Hdec as [Hframe Hdec].
    destruct (frame_read_back Marshal Unmarshal enc h dec p Hsync Hframe)
      as (m & frame & out & enc1 & dec1 & Hm & Hrun & Hstream & Hschema & Hread
          & Hsame & Hsync1).
    unfold afterEncode in Hdec. rewrite Hrun in Hdec.
    destruct (IH _ dec1 Hsync1 Hnd Hdec)
      as (w' & frames & outs & dec' & Hrun' & Hstream' & Hread' & Hsame').
    exists w', (frame ++ frames), (out :: outs), dec'.
    cbn [encodeAll fst snd] in *. rewrite Hrun.
    split; [done|]. split; [by rewrite Hstream', Hstream, app_assoc|].
    split.
    + intros rest. cbn [length decodeAll]. rewrite <- app_assoc, Hread, Hread'. done.
    + constructor; [by exists m|].
      rewrite Hschema in Hsame'.
      eapply Forall2_impl_elem_of; [exact Hsame'|].
      intros q o Hq (mq & Hmq & Hs). exists mq. split; [|done].
      rewrite lookup_insert_ne in Hmq; [done|]. intros ->. done.
Qed.

Lemma NewDecoder_synced sc (h : gmap positive Message) :
  wf_schema sc -> synced (NewEncoder [] sc, h) (NewDecoder sc).
Proof.
  intros Hsc. unfold synced. cbn.
  split; [done|]. split; [apply NewEncoder_wf|].
  split; [done|]. split; [done|]. split; [done|].
  unfold newTszFields.
  generalize (filter (fun fd => isTSZType (GetType fd) = true) (GetFields sc)).
  intros l. split; [|split; [|done]].
  - induction l as [|fd l IH]; cbn; [done | by rewrite IH].
  - induction l as [|fd l IH]; cbn; [done | by rewrite IH].
Qed.


End Sequence.

(** ** More on [Encode]: what it returns and what it leaves alone *)

(** X1: [Encode] never hands an error to its caller, and whenever it returns,
    [lastEncoded] is the pointer it was given, also when [encodeTSZValues]
    or [encodeProtoValues] stopped with an error. *)
Theorem Encode_returns_nil_and_keeps_pointer Marshal p w err w' :
  Encode Marshal p w = Returned (err, w') ->
  err = None /\ lastEncoded w'.1 = Some p.
Proof.
  unfold Encode, bind, modifyEnc, ret.
  destruct (encodeTSZValues p w) as [[e1 w1]|]; [|done].
  destruct (encodeProtoValues Marshal p w1) as [[e2 w2]|]; [|done].
  by intros [= <- <-].
Qed.

Section MoreCalls.

Variable Marshal : Message -> option (list Z).
Variables (enc : encoder) (h : gmap positive Message).
Variables (p : positive) (m : Message) (vals : list Z).

Hypothesis Hschema : wf_schema (schema enc).
Hypothesis Hencoder : wf_encoder enc.
Hypothesis Hp : h !! p = Some m.
Hypothesis Hmd : md m = schema enc.
Hypothesis Hvals : floatValues enc m vals.

(** X4: the same message object again.  When [lastEncoded] is the pointer
    that [Encode] is given, the diff compares the message with itself: the
    general run is a single [0] bit whatever the general fields hold. *)
Theorem Encode_same_pointer :
  lastEncoded enc = Some p ->
  Encode Marshal p (enc, h) =
    Returned (None,
      (mkEncoder
         (stream enc ++ numericRun (hasWrittenFirstTSZ enc) (tszFields enc) vals ++ [false])
         (schema enc) true (Some p)
         (zip_with (tszUpd (hasWrittenFirstTSZ enc)) (tszFields enc) vals),
       <[p := clearFields (tszNums (schema enc)) m]> h)).
Proof.
  intros Hlast.
  assert (Hwf : wf_last enc h) by (unfold wf_last; by rewrite Hlast, Hp).
  pose proof (Encode_run Marshal p enc h m vals Hschema Hencoder Hwf Hp Hmd Hvals) as Hrun.
  cbv zeta in Hrun. unfold lastMessage in Hrun. rewrite Hlast, lookup_insert_eq in Hrun.
  unfold toMarshal, generalRunOf in Hrun. rewrite changedNums_self in Hrun.
  by apply Hrun.
Qed.

(** X5: only the floats changed.  When every general field of the schema
    reads in [m] as in the message [lastEncoded] points to, the general run
    is a single [0] bit, whatever the float fields hold. *)
Theorem Encode_general_fields_unchanged last prev :
  lastEncoded enc = Some last -> last <> p ->
  h !! last = Some prev -> md prev = schema enc ->
  Forall (fun n => values prev !! n = None) (tszNums (schema enc)) ->
  (forall n, n ∈ generalNums (schema enc) ->
     TryGetFieldByNumber m n = TryGetFieldByNumber prev n) ->
  Encode Marshal p (enc, h) =
    Returned (None,
      (mkEncoder
         (stream enc ++ numericRun (hasWrittenFirstTSZ enc) (tszFields enc) vals ++ [false])
         (schema enc) true (Some p)
         (zip_with (tszUpd (hasWrittenFirstTSZ enc)) (tszFields enc) vals),
       <[p := clearFields (tszNums (schema enc)) m]> h)).
Proof.
  intros Hlast Hne Hprev Hmdp Hcl Hsame.
  assert (Hwf : wf_last enc h) by (unfold wf_last; by rewrite Hlast, Hprev).
  pose proof (Encode_run Marshal p enc h m vals Hschema Hencoder Hwf Hp Hmd Hvals) as Hrun.
  cbv zeta in Hrun. unfold lastMessage in Hrun.
  rewrite Hlast, lookup_insert_ne, Hprev in Hrun by done.
  unfold toMarshal, generalRunOf in Hrun.
  rewrite (changed_general (schema enc) prev m Hschema Hmd Hmdp Hcl) in Hrun.
  assert (Hnone : changedNums prev m (generalNums (schema enc)) = []).
  { destruct (changedNums prev m (generalNums (schema enc))) as [|c cs] eqn:Ec; [done|].
    assert (Hc : c ∈ changedNums prev m (generalNums (schema enc)))
      by (rewrite Ec; apply list_elem_of_here).
    apply changedNums_subseteq in Hc as [Hin Hch]. destruct Hch. by apply Hsame. }
  rewrite Hnone in Hrun. by apply Hrun.
Qed.

(** X6: a marshalling error is dropped.  When [Marshal] fails on the message
    to marshal, [encodeProtoValues] returns the error having written
    nothing, and [Encode] returns [nil]: the frame in the stream is the
    numeric run alone, without a control bit. *)
Theorem Encode_drops_marshal_error x :
  wf_last enc h ->
  framePayload enc h p m = Some x -> Marshal x = None ->
  exists w1,
    encodeTSZValues p (enc, h) = Returned (None, w1) /\
    encodeProtoValues Marshal p w1 = Returned (Some ErrMarshal, w1) /\
    Encode Marshal p (enc, h) = Returned (None, (set_lastEncoded (Some p) w1.1, w1.2)) /\
    stream w1.1 = stream enc ++ numericRun (hasWrittenFirstTSZ enc) (tszFields enc) vals.
Proof.
  intros Hwf Hx HM.
  pose proof (encodeTSZValues_ok p enc h m vals Hp (wf_encoder_NoDup enc Hschema Hencoder) Hvals)
    as Htsz.
  rewrite Hencoder in Htsz.
  set (cleared := clearFields (tszNums (schema enc)) m) in *.
  set (enc1 := mkEncoder _ _ _ _ _) in Htsz.
  set (h1 := <[p := cleared]> h) in *.
  assert (Hp1 : h1 !! p = Some cleared) by apply lookup_insert_eq.
  assert (Hmd1 : md cleared = schema enc) by (unfold cleared; by rewrite md_clearFields).
  assert (Hproto : encodeProtoValues Marshal p (enc1, h1) = Returned (Some ErrMarshal, (enc1, h1))).
  { unfold framePayload, diffBase, toMarshal, lastMessage in Hx. fold cleared h1 in Hx.
    unfold encodeProtoValues.
    unfold bind at 1, getEnc at 1. cbn [fst].
    unfold bind at 1, deref at 1. cbn [snd]. rewrite Hp1. cbn [lastEncoded enc1].
    destruct (lastEncoded enc) as [last|] eqn:El.
    - assert (Hex : exists prev, h1 !! last = Some prev /\ md prev = schema enc).
      { unfold wf_last in Hwf. rewrite El in Hwf. unfold h1.
        destruct (decide (last = p)) as [->|Hne].
        - rewrite lookup_insert_eq. eauto.
        - rewrite lookup_insert_ne by done. destruct (h !! last); [eauto|done]. }
      destruct Hex as (prev & Hprev & Hmdp). rewrite Hprev in Hx.
      erewrite bind_run
        by (apply (encodeProtoValues_diff last enc1 h1 cleared prev); [done..|apply Hschema]).
      cbn [fst snd schema enc1].
      destruct (changedNums prev cleared (GetNumber <$> GetFields (schema enc)))
        as [|c cs] eqn:Ec; [done|].
      injection Hx as <-. rewrite HM. reflexivity.
    - injection Hx as <-.
      unfold bind at 1, ret at 1. cbn [fst snd length Nat.eqb andb].
      rewrite bool_decide_eq_false_2 by (intros Hn; by apply Hn). by rewrite HM. }
  exists (enc1, h1). split; [exact Htsz|]. split; [exact Hproto|]. split.
  - unfold Encode. erewrite bind_run by exact Htsz. erewrite bind_run by exact Hproto.
    reflexivity.
  - reflexivity.
Qed.

End MoreCalls.

(** *** What a call may change *)

Lemma bind_inv {A B} (c : Go A) (k : A -> Go B) w b w' :
  bind c k w = Returned (b, w') ->
  exists a w1, c w = Returned (a, w1) /\ k a w1 = Returned (b, w').
Proof. unfold bind. destruct (c w) as [[a w1]|]; [eauto | done]. Qed.

Lemma onlyAppends_refl w : onlyAppends w w.
Proof. exists []. destruct w as [[] ?]. unfold set_stream. cbn. by rewrite app_nil_r. Qed.

Lemma onlyAppends_trans w1 w2 w3 :
  onlyAppends w1 w2 -> onlyAppends w2 w3 -> onlyAppends w1 w3.
Proof.
  intros [b1 ->] [b2 ->]. exists (b1 ++ b2). unfold set_stream. cbn.
  by rewrite app_assoc.
Qed.

Lemma onlyAppends_stream enc (h : gmap positive Message) bits :
  onlyAppends (enc, h) (set_stream (stream enc ++ bits) enc, h).
Proof. by exists bits. Qed.

Lemma frameRule_refl p w : frameRule p w w.
Proof. repeat split; try done. intros m Hm. exists m. by repeat split. Qed.

Lemma frameRule_trans p w1 w2 w3 :
  frameRule p w1 w2 -> frameRule p w2 w3 -> frameRule p w1 w3.
Proof.
  intros (Hs1 & Hsc1 & Hf1 & Hw1 & Ho1 & Hp1) (Hs2 & Hsc2 & Hf2 & Hw2 & Ho2 & Hp2).
  split; [by etrans|]. split; [congruence|]. split; [congruence|].
  split; [tauto|]. split.
  - intros q Hq. rewrite Ho2, Ho1; done.
  - intros m Hm. destruct (Hp1 m Hm) as (m1 & Hm1 & Hmd1 & Hv1).
    destruct (Hp2 m1 Hm1) as (m2 & Hm2 & Hmd2 & Hv2).
    exists m2. split; [done|]. split; [congruence|].
    intros n Hn. rewrite Hv2, Hv1; [done | done | by rewrite Hf1].
Qed.

Lemma onlyAppends_frameRule p w w' : onlyAppends w w' -> frameRule p w w'.
Proof.
  intros [bits ->]. destruct w as [enc h]. unfold set_stream. cbn.
  split; [by apply prefix_app_r|]. repeat split; try done.
  intros m Hm. exists m. by repeat split.
Qed.

(** *** The writers of the general run only append *)

Lemma WriteBit_appends b w r w' : WriteBit b w = Returned (r, w') -> onlyAppends w w'.
Proof. intros [= _ <-]. destruct w. apply onlyAppends_stream. Qed.

Lemma WriteBytes_appends bs w r w' : WriteBytes bs w = Returned (r, w') -> onlyAppends w w'.
Proof. intros [= _ <-]. destruct w. apply onlyAppends_stream. Qed.

Lemma writeVarInt_appends x w r w' : writeVarInt x w = Returned (r, w') -> onlyAppends w w'.
Proof.
  unfold writeVarInt. destruct (PutUvarint 8 x); [apply WriteBytes_appends | done].
Qed.

Lemma writeBitsetLoop_appends vals : forall idx w r w',
  writeBitsetLoop idx vals w = Returned (r, w') -> onlyAppends w w'.
Proof.
  induction idx as [|i idx IH]; intros w r w' Hrun.
  - injection Hrun as _ <-. apply onlyAppends_refl.
  - cbn [writeBitsetLoop] in Hrun. apply bind_inv in Hrun as (a & w1 & H1 & H2).
    eapply onlyAppends_trans; [|by eapply IH].
    destruct (existsb (Z.eqb i) vals); by eapply WriteBit_appends.
Qed.

Lemma writeBitset_appends vals w r w' :
  writeBitset vals w = Returned (r, w') -> onlyAppends w w'.
Proof.
  unfold writeBitset. intros (a & w1 & H1 & H2)%bind_inv.
  eapply onlyAppends_trans; [by eapply writeVarInt_appends | by eapply writeBitsetLoop_appends].
Qed.

Lemma liftO_inv {A} (o : outcome A) w a w' :
  liftO o w = Returned (a, w') -> o = Returned a /\ w' = w.
Proof. unfold liftO. destruct o; [|done]. by intros [= <- <-]. Qed.

Lemma deref_inv p w m w' :
  deref p w = Returned (m, w') -> w.2 !! p = Some m /\ w' = w.
Proof. unfold deref. destruct (w.2 !! p); [|done]. by intros [= <- <-]. Qed.

(** The diff reads and never writes. *)
Lemma diffLoop_reads last : forall fields m changed w r w',
  diffLoop last fields m changed w = Returned (r, w') -> w' = w.
Proof.
  induction fields as [|fd fields IH]; intros m changed w r w' Hrun.
  - by injection Hrun as _ <-.
  - cbn [diffLoop] in Hrun.
    apply bind_inv in Hrun as (prev & w1 & [_ ->]%deref_inv & Hrun).
    apply bind_inv in Hrun as (prevVal & w2 & [_ ->]%liftO_inv & Hrun).
    apply bind_inv in Hrun as (curVal & w3 & [_ ->]%liftO_inv & Hrun).
    destruct (fieldsEqual curVal prevVal).
    + apply bind_inv in Hrun as (m' & w4 & [_ ->]%liftO_inv & Hrun). by eapply IH.
    + by eapply IH.
Qed.

Section ProtoValues.

Variable Marshal : Message -> option (list Z).

Lemma encodeProtoValues_appends p w err w' :
  encodeProtoValues Marshal p w = Returned (err, w') -> onlyAppends w w'.
Proof.
  unfold encodeProtoValues. intros Hrun.
  apply bind_inv in Hrun as (enc & w1 & [= <- <-] & Hrun).
  apply bind_inv in Hrun as (orig & w2 & [_ ->]%deref_inv & Hrun).
  apply bind_inv in Hrun as (diff & w3 & Hdiff & Hrun).
  assert (w3 = w) as ->.
  { destruct (lastEncoded w.1) as [last|].
    - apply bind_inv in Hdiff as (clone & w4 & [_ ->]%liftO_inv & Hdiff).
      by eapply diffLoop_reads.
    - by injection Hdiff as _ <-. }
  destruct ((length diff.2 =? 0)%nat && bool_decide (lastEncoded w.1 <> None)).
  - apply bind_inv in Hrun as (a & w4 & H1 & [= _ <-]). by eapply WriteBit_appends.
  - destruct (Marshal diff.1) as [marshaled|].
    + apply bind_inv in Hrun as (a1 & w4 & H1 & Hrun).
      apply bind_inv in Hrun as (a2 & w5 & H2 & Hrun).
      apply bind_inv in Hrun as (a3 & w6 & H3 & Hrun).
      apply bind_inv in Hrun as (a4 & w7 & H4 & [= _ <-]).
      eapply onlyAppends_trans; [by eapply WriteBit_appends|].
      eapply onlyAppends_trans; [by eapply writeBitset_appends|].
      eapply onlyAppends_trans; [by eapply writeVarInt_appends|].
      by eapply WriteBytes_appends.
    + injection Hrun as _ <-. apply onlyAppends_refl.
Qed.

(** X3: [encodeProtoValues] appends bits to the stream and changes nothing
    else: not the caller's message, which it clones before the diff, not the
    message [lastEncoded] points to, not the encoder's other fields. *)
Theorem encodeProtoValues_only_appends p w err w' :
  encodeProtoValues Marshal p w = Returned (err, w') -> onlyAppends w w'.
Proof. apply encodeProtoValues_appends. Qed.

End ProtoValues.

(** *** The numeric run *)

Lemma fieldNum_insert_same i st x (fs : list tszFieldState) :
  fs !! i = Some st -> fieldNum x = fieldNum st ->
  fieldNum <$> <[i := x]> fs = fieldNum <$> fs.
Proof.
  intros Hi Hx. rewrite list_fmap_insert, Hx. apply list_insert_id.
  by rewrite list_lookup_fmap, Hi.
Qed.

Lemma tszFieldAt_inv i w st w' :
  tszFieldAt i w = Returned (st, w') -> tszFields w.1 !! i = Some st /\ w' = w.
Proof.
  unfold tszFieldAt. intros (e & w1 & [= <- <-] & Hrun)%bind_inv.
  destruct (tszFields w.1 !! i); [|done]. by injection Hrun as <- <-.
Qed.

Lemma writeTSZValue_frame p i v w r w' :
  (if negb (hasWrittenFirstTSZ w.1) then writeFirstTSZValue i v else writeNextTSZValue i v) w
    = Returned (r, w') ->
  frameRule p w w' /\ w'.2 = w.2.
Proof.
  destruct w as [enc h]. cbn [fst].
  destruct (hasWrittenFirstTSZ enc) eqn:Hw; cbn [negb].
  - unfold writeNextTSZValue. intros (st & w1 & [Hi ->]%tszFieldAt_inv & Hrun)%bind_inv.
    cbn [fst] in Hi. injection Hrun as _ <-. cbn.
    split; [|done]. unfold frameRule. cbn.
    split; [rewrite WriteXOR_app; by apply prefix_app_r|].
    split; [done|]. split; [by apply (fieldNum_insert_same i st)|].
    split; [done|]. split; [done|].
    intros m Hm. exists m. by repeat split.
  - unfold writeFirstTSZValue. intros (a & w1 & [= _ <-] & Hrun)%bind_inv.
    apply bind_inv in Hrun as (st & w2 & [Hi ->]%tszFieldAt_inv & Hrun).
    cbn in Hi. injection Hrun as _ <-. cbn.
    split; [|done]. unfold frameRule. cbn.
    split; [by apply prefix_app_r|].
    split; [done|]. split; [by apply (fieldNum_insert_same i st)|].
    split; [by rewrite Hw|]. split; [done|].
    intros m Hm. exists m. by repeat split.
Qed.

Lemma encodeTSZLoop_frame p : forall fields i w r w',
  (forall st, st ∈ fields -> fieldNum st ∈ fieldNum <$> tszFields w.1) ->
  encodeTSZLoop p i fields w = Returned (r, w') -> frameRule p w w'.
Proof.
  induction fields as [|st fields IH]; intros i w r w' Hin Hrun.
  - injection Hrun as _ <-. apply frameRule_refl.
  - cbn [encodeTSZLoop] in Hrun.
    apply bind_inv in Hrun as (msg & w1 & [Hmsg ->]%deref_inv & Hrun).
    destruct (TryGetFieldByNumber msg (fieldNum st)) as [e|iVal].
    { injection Hrun as _ <-. apply frameRule_refl. }
    apply bind_inv in Hrun as (val & w1 & Hval & Hrun).
    assert (w1 = w) as ->.
    { destruct iVal; try done; by injection Hval as _ <-. }
    apply bind_inv in Hrun as (enc & w1 & [= <- <-] & Hrun).
    apply bind_inv in Hrun as (a & w2 & Hwrite & Hrun).
    apply (writeTSZValue_frame p) in Hwrite as [Hframe Hheap].
    apply bind_inv in Hrun as (msg2 & w3 & [Hmsg2 ->]%deref_inv & Hrun).
    apply bind_inv in Hrun as (cleared & w3 & [Hclear ->]%liftO_inv & Hrun).
    apply bind_inv in Hrun as (a2 & w3 & [= _ <-] & Hrun).
    rewrite Hheap, Hmsg in Hmsg2. injection Hmsg2 as <-.
    unfold ClearFieldByNumber in Hclear.
    destruct (FindFieldDescriptor msg (fieldNum st)); [|done].
    injection Hclear as <-.
    destruct Hframe as (Hs & Hsc & Hf & Hw & Ho & Hp).
    eapply frameRule_trans; [|eapply IH; [|exact Hrun]].
    + unfold frameRule. cbn [fst snd].
      split; [done|]. split; [done|]. split; [done|]. split; [done|]. split.
      * intros q Hq. rewrite lookup_insert_ne by done. by apply Ho.
      * intros m Hm. rewrite Hmsg in Hm. injection Hm as <-.
        exists (mkMessage (md msg) (delete (fieldNum st) (values msg))).
        split; [apply lookup_insert_eq|]. split; [done|].
        intros n Hn. cbn [values]. rewrite lookup_delete_ne; [done|].
        intros <-. apply Hn, Hin, list_elem_of_here.
    + cbn [fst]. intros st' Hst'. rewrite Hf. apply Hin. by apply list_elem_of_further.
Qed.

Lemma encodeTSZValues_frame p w r w' :
  encodeTSZValues p w = Returned (r, w') -> frameRule p w w'.
Proof.
  unfold encodeTSZValues. intros (enc & w1 & [= <- <-] & Hrun)%bind_inv.
  apply bind_inv in Hrun as (err & w1 & Hloop & Hrun).
  apply encodeTSZLoop_frame in Hloop;
    [|intros st Hst; apply list_elem_of_fmap; by exists st].
  destruct err as [e|].
  - by injection Hrun as _ <-.
  - apply bind_inv in Hrun as (a & w2 & [= _ <-] & [= _ <-]).
    eapply frameRule_trans; [exact Hloop|].
    destruct w1 as [enc1 h1]. unfold frameRule. cbn.
    repeat split; try done. intros m Hm. exists m. by repeat split.
Qed.

(** X2: what a call of [Encode] leaves alone, whatever happens inside and
    whatever it is given.  When it returns, the bits that were in the stream
    are still its beginning, the schema and the field numbers of the float
    states are unchanged, [hasWrittenFirstTSZ] has not gone back to false,
    no message other than the one at [p] has changed, and the message at
    [p] has its descriptor and every field other than the float fields of
    the encoder as before. *)
Theorem Encode_frame_rule Marshal p w err w' :
  Encode Marshal p w = Returned (err, w') -> frameRule p w w'.
Proof.
  unfold Encode. intros (e1 & w1 & H1 & Hrun)%bind_inv.
  apply bind_inv in Hrun as (e2 & w2 & H2 & Hrun).
  apply bind_inv in Hrun as (a & w3 & [= _ <-] & [= _ <-]).
  apply encodeTSZValues_frame in H1.
  apply encodeProtoValues_appends in H2.
  eapply frameRule_trans; [exact H1|].
  eapply frameRule_trans; [by apply onlyAppends_frameRule|].
  destruct w2 as [enc2 h2]. unfold frameRule. cbn.
  repeat split; try done. intros m Hm. exists m. by repeat split.
Qed.

(** ** Stopping in the middle of the numeric run *)

(** The loop on the fields that hold floats, up to the field where it
    goes on. *)
Lemma encodeTSZLoop_prefix p : forall good pre enc (h : gmap positive Message) msg vals rest,
  tszFields enc = pre ++ good ++ rest ->
  h !! p = Some msg ->
  NoDup (fieldNum <$> good) ->
  Forall2 (fun st v => tszValue msg (fieldNum st) = Some v) good vals ->
  encodeTSZLoop p (length pre) (good ++ rest) (enc, h) =
    encodeTSZLoop p (length pre + length good) rest
      (mkEncoder
         (stream enc ++ numericRun (hasWrittenFirstTSZ enc) good vals)
         (schema enc) (hasWrittenFirstTSZ enc) (lastEncoded enc)
         (pre ++ zip_with (tszUpd (hasWrittenFirstTSZ enc)) good vals ++ rest),
       <[p := clearFields (fieldNum <$> good) msg]> h).
Proof.
  induction good as [|st good IH]; intros pre enc h msg vals rest Hf Hp Hnd Hv.
  - apply Forall2_nil_inv_l in Hv as ->. cbn.
    rewrite app_nil_r, Nat.add_0_r, insert_id by done. cbn in Hf. rewrite <- Hf.
    by destruct enc.
  - apply Forall2_cons_inv_l in Hv as (v & vals' & Hv1 & Hv & ->).
    rewrite fmap_cons in Hnd. apply NoDup_cons in Hnd as [Hnotin Hnd].
    assert (Hlk : tszFields enc !! length pre = Some st)
      by (rewrite Hf; cbn; by rewrite list_lookup_middle).
    cbn [app].
    rewrite (encodeTSZLoop_cons p _ st (good ++ rest) enc h msg v Hp Hv1 Hlk).
    specialize (IH (pre ++ [tszUpd (hasWrittenFirstTSZ enc) st v])).
    rewrite length_app, Nat.add_1_r in IH.
    erewrite IH; [| | apply lookup_insert_eq | exact Hnd
                  | by apply Forall2_tszValue_clear ].
    + cbn [stream schema hasWrittenFirstTSZ lastEncoded tszFields zip_with
           fmap list_fmap clearFields length].
      rewrite insert_insert_eq, numericRun_cons, <- !app_assoc.
      replace (length pre + S (length good))%nat with (S (length pre) + length good)%nat
        by lia.
      reflexivity.
    + cbn [tszFields]. rewrite Hf.
      rewrite <- (Nat.add_0_r (length pre)), insert_app_r.
      by rewrite <- app_assoc.
Qed.

Section Stops.

Variables (enc : encoder) (h : gmap positive Message) (p : positive) (msg : Message).
Variables (good : list tszFieldState) (st : tszFieldState) (post : list tszFieldState).
Variable vals : list Z.

Hypothesis Hfields : tszFields enc = good ++ st :: post.
Hypothesis Hnd : NoDup (fieldNum <$> tszFields enc).
Hypothesis Hp : h !! p = Some msg.
Hypothesis Hgood : Forall2 (fun st v => tszValue msg (fieldNum st) = Some v) good vals.

Lemma NoDup_good : NoDup (fieldNum <$> good) /\ fieldNum st ∉ fieldNum <$> good.
Proof.
  rewrite Hfields, fmap_app, fmap_cons in Hnd.
  apply NoDup_app in Hnd as (Hg & Hdis & _). split; [done|].
  intros Hin. apply (Hdis _ Hin). apply list_elem_of_here.
Qed.

(** X7: no rollback.  When the descriptor of the message does not declare
    a float field of the encoder, [encodeTSZValues] returns the error for
    that field after it has written the values of the float fields before
    it, updated their states and cleared them from the caller's message;
    [hasWrittenFirstTSZ] is left as it was. *)
Theorem encodeTSZValues_stops_at_undeclared_field :
  FindFieldDescriptor msg (fieldNum st) = None ->
  encodeTSZValues p (enc, h) =
    Returned (Some (ErrGetField (fieldNum st)),
      (mkEncoder
         (stream enc ++ numericRun (hasWrittenFirstTSZ enc) good vals)
         (schema enc) (hasWrittenFirstTSZ enc) (lastEncoded enc)
         (zip_with (tszUpd (hasWrittenFirstTSZ enc)) good vals ++ st :: post),
       <[p := clearFields (fieldNum <$> good) msg]> h)).
Proof.
  intros Hnone. destruct NoDup_good as [Hg _].
  unfold encodeTSZValues. unfold bind at 1, getEnc at 1. cbn [fst].
  rewrite Hfields.
  pose proof (encodeTSZLoop_prefix p good [] enc h msg vals (st :: post) Hfields Hp Hg Hgood)
    as Hloop.
  cbn [length app Nat.add] in Hloop. unfold bind at 1. rewrite Hloop.
  erewrite encodeTSZLoop_unknown; [reflexivity | apply lookup_insert_eq |].
  unfold FindFieldDescriptor in *. by rewrite md_clearFields.
Qed.

(** X8: the unchecked type assertion.  When a float field of the encoder
    holds in the message a value that is neither a [float64] nor a
    [float32], [Encode] panics, after the float fields before it have been
    written. *)
Theorem Encode_panics_at_non_float Marshal iVal :
  TryGetFieldByNumber msg (fieldNum st) = inr iVal ->
  (forall v, iVal <> VFloat64 v) -> (forall v, iVal <> VFloat32 v) ->
  Encode Marshal p (enc, h) = Panicked.
Proof.
  intros Hget H64 H32. destruct NoDup_good as [Hg Hst].
  unfold Encode, encodeTSZValues. unfold bind at 1 2, getEnc at 1. cbn [fst].
  rewrite Hfields. unfold bind at 1.
  pose proof (encodeTSZLoop_prefix p good [] enc h msg vals (st :: post) Hfields Hp Hg Hgood)
    as Hloop.
  cbn [length app Nat.add] in Hloop. rewrite Hloop.
  erewrite encodeTSZLoop_not_float; [reflexivity | apply lookup_insert_eq | | done | done].
  rewrite <- Hget. unfold TryGetFieldByNumber, FindFieldDescriptor.
  by rewrite md_clearFields, lookup_clearFields, decide_False.
Qed.

End Stops.

(** ** The float fields of a schema *)

Lemma isDoubleOrFloat_isTSZType fd : isDoubleOrFloat fd = isTSZType (GetType fd).
Proof. unfold isDoubleOrFloat. by destruct (GetType fd). Qed.

Lemma tszFieldsLoop_fold fields : forall acc,
  fold_left (fun s field =>
               if isDoubleOrFloat field then s ++ [mkTsz (GetNumber field) 0 0] else s)
            fields acc
  = acc ++ ((fun fd => mkTsz (GetNumber fd) 0 0) <$>
              filter (fun fd => isTSZType (GetType fd) = true) fields).
Proof.
  induction fields as [|fd fields IH]; intros acc; cbn [fold_left].
  - by rewrite app_nil_r.
  - rewrite IH, filter_cons, isDoubleOrFloat_isTSZType.
    destruct (isTSZType (GetType fd)) eqn:Et.
    + rewrite decide_True by done. by rewrite fmap_cons, <- app_assoc.
    + by rewrite decide_False by done.
Qed.

Lemma numTSZFieldsLoop_fold fields : forall n,
  fold_left (fun numTSZFields field =>
               if isDoubleOrFloat field then S numTSZFields else numTSZFields) fields n
  = (n + length (filter (fun fd => isTSZType (GetType fd) = true) fields))%nat.
Proof.
  induction fields as [|fd fields IH]; intros n; cbn [fold_left].
  - cbn. lia.
  - rewrite IH, filter_cons, isDoubleOrFloat_isTSZType.
    destruct (isTSZType (GetType fd)) eqn:Et.
    + rewrite decide_True by done. cbn. lia.
    + by rewrite decide_False by done.
Qed.

(** X9: [tszFields] returns, whatever slice it is given, one state per DOUBLE
    or FLOAT field of the schema, in the order of the schema, with the number
    of the field and zero bits; there are [numTSZFields] of them, the
    capacity that was reserved. *)
Theorem tszFields_of_schema s cap_s schema :
  fieldNum <$> tszFieldsLoop s cap_s schema = tszNums schema /\
  Forall (fun st => prevXOR st = 0 /\ prevFloatBits st = 0) (tszFieldsLoop s cap_s schema) /\
  length (tszFieldsLoop s cap_s schema) = numTSZFieldsLoop schema /\
  tszFieldsLoop s cap_s schema = tszFields (NewEncoder [] schema).
Proof.
  unfold tszFieldsLoop, numTSZFieldsLoop. cbv zeta.
  rewrite tszFieldsLoop_fold, numTSZFieldsLoop_fold, take_0.
  replace (if (_ <=? cap_s)%nat then [] else []) with (@nil tszFieldState)
    by (by destruct (_ <=? _)%nat).
  cbn [app Nat.add].
  split; [|split; [|split]].
  - unfold tszNums. rewrite <- list_fmap_compose. done.
  - apply Forall_fmap, Forall_forall. by intros fd _.
  - by rewrite length_fmap.
  - reflexivity.
Qed.

(** ** [writeVarInt] *)

Lemma PutUvarint_overflow room : forall x,
  2 ^ (7 * Z.of_nat room) <= x -> PutUvarint room x = None.
Proof.
  induction room as [|room IH]; intros x Hx; [done|].
  cbn [PutUvarint].
  replace (7 * Z.of_nat (S room)) with (7 + 7 * Z.of_nat room) in Hx by lia.
  rewrite Z.pow_add_r in Hx by lia. change (2 ^ 7) with 128 in Hx.
  assert (Hpos : 0 < 2 ^ (7 * Z.of_nat room)) by (apply Z.pow_pos_nonneg; lia).
  destruct (128 <=? x) eqn:E; [|apply Z.leb_gt in E; nia].
  rewrite IH; [done|]. rewrite Z.shiftr_div_pow2 by lia. change (2 ^ 7) with 128.
  apply Z.div_le_lower_bound; lia.
Qed.

Lemma PutUvarint_length room : forall x bs,
  PutUvarint room x = Some bs -> (1 <= length bs <= room)%nat.
Proof.
  induction room as [|room IH]; intros x bs Hput; [done|].
  cbn [PutUvarint] in Hput. destruct (128 <=? x).
  - destruct (PutUvarint room (Z.shiftr x 7)) as [bs'|] eqn:E'; [|done].
    injection Hput as <-. cbn [length]. specialize (IH _ _ E'). lia.
  - injection Hput as <-. cbn. lia.
Qed.

(** X10: the buffer of [writeVarInt] has 8 bytes.  A value below [2^56] is
    written as its varint, of at most 8 bytes; on a larger one
    [PutUvarint] indexes past the buffer and the call panics. *)
Theorem writeVarInt_bound x enc (h : gmap positive Message) :
  0 <= x ->
  if x <? 2 ^ 56
  then writeVarInt x (enc, h) =
         Returned (tt, (set_stream (stream enc ++ OStream.bytes_bits (uvarint x)) enc, h))
       /\ (1 <= length (uvarint x) <= 8)%nat
  else writeVarInt x (enc, h) = Panicked.
Proof.
  intros Hx. destruct (x <? 2 ^ 56) eqn:E.
  - apply Z.ltb_lt in E. split; [apply writeVarInt_run; lia|].
    apply (PutUvarint_length 8 x). apply PutUvarint_uvarint. lia.
  - apply Z.ltb_ge in E. unfold writeVarInt.
    by rewrite (PutUvarint_overflow 8 x).
Qed.

(** ** Varints end themselves *)

Lemma readUvarint_PutUvarint room : forall x bs rest,
  0 <= x -> PutUvarint room x = Some bs ->
  wire.readUvarint room (bs ++ rest) = Some (x, rest).
Proof.
  induction room as [|room IH]; intros x bs rest Hx Hput; [done|].
  cbn [PutUvarint] in Hput.
  assert (Hb : 0 <= x mod 256 < 256) by (apply Z.mod_pos_bound; lia).
  destruct (128 <=? x) eqn:Hge.
  - apply Z.leb_le in Hge.
    destruct (PutUvarint room (Z.shiftr x 7)) as [bs'|] eqn:E'; [|done].
    apply (inj Some) in Hput. subst bs.
    destruct (continuation_byte (x mod 256) Hb) as [Hrange Hlow].
    cbn [app wire.readUvarint].
    destruct (128 <=? Z.lor (x mod 256) 128) eqn:Hc; [|apply Z.leb_gt in Hc; lia].
    rewrite (IH _ _ rest (proj2 (Z.shiftr_nonneg x 7) Hx) E').
    f_equal. f_equal. rewrite Hlow, Z.shiftr_div_pow2 by lia. change (2 ^ 7) with 128.
    Z.div_mod_to_equations. lia.
  - apply Z.leb_gt in Hge. apply (inj Some) in Hput. subst bs.
    cbn [app wire.readUvarint]. rewrite Z.mod_small by lia.
    destruct (128 <=? x) eqn:Hc; [apply Z.leb_le in Hc; lia | done].
Qed.

(** X11: what [writeVarInt] writes ends itself: the bytes of two values,
    each followed by anything, are the same bytes only when the values are
    the same and what follows is the same. *)
Theorem writeVarInt_self_delimiting x y bx by_ r1 r2 :
  0 <= x -> 0 <= y ->
  PutUvarint 8 x = Some bx -> PutUvarint 8 y = Some by_ ->
  bx ++ r1 = by_ ++ r2 -> x = y /\ r1 = r2.
Proof.
  intros Hx Hy Hbx Hby Heq.
  pose proof (readUvarint_PutUvarint 8 x bx r1 Hx Hbx) as H1.
  pose proof (readUvarint_PutUvarint 8 y by_ r2 Hy Hby) as H2.
  rewrite Heq, H2 in H1. by injection H1 as -> ->.
Qed.

(** ** The bits of [writeBitset] *)

Lemma popcount_fmap_decide {A} (P : A -> Prop) `{!forall x, Decision (P x)} (l : list A) :
  popcount ((fun x => bool_decide (P x)) <$> l) = length (filter P l).
Proof.
  unfold popcount. induction l as [|x l IH]; [done|].
  rewrite fmap_cons, !filter_cons. destruct (decide (P x)) as [HP|HP].
  - rewrite bool_decide_eq_true_2 by done. rewrite decide_True by done. cbn. by rewrite IH.
  - rewrite bool_decide_eq_false_2 by done. by rewrite decide_False by done.
Qed.

Lemma popcount_bitmap vals :
  popcount (bitmap vals) = length (remove_dups (filter (fun v => 0 <= v) vals)).
Proof.
  unfold bitmap. rewrite (popcount_fmap_decide (fun i => i ∈ vals)).
  apply Permutation_length, NoDup_Permutation.
  - apply NoDup_filter, NoDup_seqZ.
  - apply NoDup_remove_dups.
  - intros x. rewrite list_elem_of_filter, elem_of_seqZ, elem_of_remove_dups,
      list_elem_of_filter.
    split; [intros [? ?]; split; [lia | done]|].
    intros [? Hin]. split; [done|]. pose proof (maxField_ge vals x Hin). lia.
Qed.

(** X12: [writeBitset] on any values.  It writes the varint of the number of
    bits and then the bits: there is at least one, bit [i] is set exactly
    when [i] is one of the values, so a value that is repeated is marked
    once and a negative value is not marked at all. *)
Theorem writeBitset_bits vals enc (h : gmap positive Message) :
  maxField vals + 1 < 2 ^ 56 ->
  exists bits,
    writeBitset vals (enc, h) =
      Returned (tt, (set_stream
        (stream enc ++ OStream.bytes_bits (uvarint (Z.of_nat (length bits))) ++ bits)
        enc, h)) /\
    (1 <= length bits)%nat /\
    (forall i : nat, bits !! i = Some true <-> Z.of_nat i ∈ vals) /\
    popcount bits = length (remove_dups (filter (fun v => 0 <= v) vals)).
Proof.
  intros Hmax. exists (bitmap vals).
  pose proof (length_bitmap vals) as Hlen. pose proof (maxField_nonneg vals) as Hnn.
  split; [rewrite Hlen; by apply writeBitset_run|].
  split; [lia|]. split; [|apply popcount_bitmap].
  intros i. destruct (decide (Z.of_nat i <= maxField vals)) as [Hle|Hgt].
  - pose proof (lookup_bitmap vals (Z.of_nat i) ltac:(lia)) as Hlk.
    rewrite Nat2Z.id in Hlk. rewrite Hlk. split.
    + intros [= Hb]. by apply bool_decide_eq_true in Hb.
    + intros Hin. f_equal. by apply bool_decide_eq_true.
  - rewrite lookup_ge_None_2 by lia. split; [done|].
    intros Hin%maxField_ge. lia.
Qed.

(** ** The XOR state *)

Lemma prevXOR_tszUpd written fields : forall vals,
  length vals = length fields ->
  prevXOR <$> zip_with (tszUpd written) fields vals =
    if written then zip_with Z.lxor (prevFloatBits <$> fields) vals else vals.
Proof.
  induction fields as [|st fields IH]; intros [|v vals] Hlen; try (by destruct written).
  cbn [zip_with fmap list_fmap]. rewrite IH by (cbn in Hlen; lia).
  by destruct written.
Qed.

Section XorState.

Variable Marshal : Message -> option (list Z).
Variables (enc : encoder) (h : gmap positive Message).
Variables (p : positive) (m : Message) (vals : list Z).

Hypothesis Hschema : wf_schema (schema enc).
Hypothesis Hencoder : wf_encoder enc.
Hypothesis Hlast : wf_last enc h.
Hypothesis Hp : h !! p = Some m.
Hypothesis Hmd : md m = schema enc.
Hypothesis Hvals : floatValues enc m vals.
Hypothesis Hfit : payloadFits Marshal (framePayload enc h p m).

(** X13: [prevXOR] after a call.  After the first message it is the bits of
    the value; after a later one it is the XOR that was written, the
    previous bits XOR the new ones, also when that is zero: an unchanged
    value leaves no window for the next XOR to reuse. *)
Theorem prevXOR_after_Encode :
  exists enc' h',
    Encode Marshal p (enc, h) = Returned (None, (enc', h')) /\
    prevXOR <$> tszFields enc' =
      if hasWrittenFirstTSZ enc
      then zip_with Z.lxor (prevFloatBits <$> tszFields enc) vals
      else vals.
Proof.
  pose proof (Forall2_length _ _ _ Hvals) as Hlen.
  eexists _, _. split; [by apply Encode_run|]. cbn [tszFields].
  by apply prevXOR_tszUpd.
Qed.

End XorState.

(** X14: widening keeps [float32] values apart.  Two [float32] bit patterns,
    neither a signalling NaN, that [encodeTSZValues] widens to the same
    [float64] are the same pattern. *)
Theorem float32_to_float64_injective a b :
  0 <= a < 2 ^ 32 -> 0 <= b < 2 ^ 32 ->
  signallingNaN a = false -> signallingNaN b = false ->
  float32_to_float64 a = float32_to_float64 b -> a = b.
Proof.
  intros Ha Hb Hqa Hqb Heq.
  rewrite <- (float64_to_float32_widened a Ha Hqa), <- (float64_to_float32_widened b Hb Hqb).
  by rewrite Heq.
Qed.

(** ** Checks on the scenario *)

Module ScenarioFacts.

Import Scenario Run.

Example float32_one : float32_to_float64 0x3F800000 = 0x3FF0000000000000.
Proof. reflexivity. Qed.

Example float32_subnormal : float32_to_float64 1 = 0x36A0000000000000.
Proof. reflexivity. Qed.

Example float32_minus_zero : float32_to_float64 0x80000000 = 0x8000000000000000.
Proof. reflexivity. Qed.

Example float32_infinity : float32_to_float64 0x7F800000 = 0x7FF0000000000000.
Proof. reflexivity. Qed.

(** A signalling NaN and the quiet NaN of the same payload widen to the same
    [float64]. *)
Example float32_snan_quieted :
  float32_to_float64 0x7F800001 = 0x7FF8000020000000 /\
  float32_to_float64 0x7FC00001 = 0x7FF8000020000000.
Proof. split; reflexivity. Qed.

Example uvarint_300 : PutUvarint 8 300 = Some [172; 2].
Proof. reflexivity. Qed.

Example uvarint_overflow : PutUvarint 8 (2 ^ 56) = None.
Proof. reflexivity. Qed.

(** The frame of [m1]: 64 raw bits, then the general run with the three
    bytes of the tag. *)
Example frame1_length : length (stream w1.1) = 106%nat.
Proof. vm_compute. reflexivity. Qed.

(** The frame of [m2] is two [0] bits. *)
Example frame2 : stream w2.1 = stream w1.1 ++ [false; false].
Proof. vm_compute. reflexivity. Qed.

(** The general run of [m3] sets bit 2 only. *)
Example frame3_bitmap : changedNums m1 m3 [1; 2] = [1; 2] /\ bitmap [2] = [false; false; true].
Proof. split; vm_compute; reflexivity. Qed.

(** The XOR [1] has 63 leading zeros: the header holds 31 and 33
    significant bits, and the XOR is read back. *)
Example WriteXOR_last_bit :
  m3tsz.WriteXOR [] 0 1 =
    [true; true] ++ OStream.bits_msb 5 31 ++ OStream.bits_msb 6 33
    ++ OStream.bits_msb 33 1 /\
  ReadXOR 0 (m3tsz.WriteXOR [] 0 1) = Some (1, []).
Proof. split; vm_compute; reflexivity. Qed.

(** An XOR of 64 significant bits: the header holds 0 and 0, and the XOR is
    read back. *)
Example WriteXOR_all_bits :
  m3tsz.WriteXOR [] 0 (2 ^ 64 - 1) =
    [true; true] ++ OStream.bits_msb 5 0 ++ OStream.bits_msb 6 0
    ++ OStream.bits_msb 64 (2 ^ 64 - 1) /\
  ReadXOR 0 (m3tsz.WriteXOR [] 0 (2 ^ 64 - 1)) = Some (2 ^ 64 - 1, []).
Proof. split; vm_compute; reflexivity. Qed.

(** The encoder writes the same stream for a message with a [float32]
    signalling NaN and for the message with the quiet NaN of the same
    payload: no reader of the stream tells them apart. *)
Example signalling_nan_same_stream :
  hSignalling <> hQuiet /\
  streamOf sch3 hSignalling [1%positive] = streamOf sch3 hQuiet [1%positive].
Proof.
  split; [|vm_compute; reflexivity].
  intros Heq. apply (f_equal (fun h => h !! 1%positive ≫= fun m => values m !! 3)) in Heq.
  vm_compute in Heq. discriminate Heq.
Qed.

(** With the quiet NaN the message is read back: the signalling NaN alone
    makes the round trip fail. *)
Example quiet_nan_round_trip :
  roundTrips wire.Marshal wire.Unmarshal sch3 hQuiet [1%positive].
Proof.
  eexists _, _, _. split; [vm_compute; reflexivity|].
  split; [vm_compute; reflexivity|].
  constructor; [|constructor].
  eexists. split; [vm_compute; reflexivity|]. split; [reflexivity|].
  intros n Hn. cbn in Hn.
  repeat (apply elem_of_cons in Hn as [->|Hn]; [vm_compute; reflexivity|]).
  by apply elem_of_nil in Hn.
Qed.

(** The first frame of the scenario: its bitmap marks no field, and the
    decoder of section 4.4, which takes the fields of the payload at the
    marked numbers, reads [m1] back without its tag. *)
Example first_frame_tag_not_read_back :
  exists outs dec',
    decodeAll wire.Unmarshal 1 (NewDecoder sch) (stream w1.1) = Some (outs, dec', []) /\
    (fun out => TryGetFieldByNumber out 2) <$> outs = [inr (VString "")] /\
    TryGetFieldByNumber m1 2 = inr (VString "a").
Proof. eexists _, _. split; [vm_compute; reflexivity|]. split; vm_compute; reflexivity. Qed.

(** A signalling NaN comes back quiet. *)
Example float32_snan_not_narrowed_back :
  float64_to_float32 (float32_to_float64 0x7F800001) = 0x7FC00001.
Proof. reflexivity. Qed.

End ScenarioFacts.


(** C5, counterexample: the first frame of the scenario.  Field 2 is in the
    changed set of step 2, and the bitmap written is a single [0] bit after
    the varint of 1. *)
Lemma first_frame_bitmap_marks_no_field :
  ~ general_run_of_changed_set wire.Marshal (NewEncoder [] Scenario.sch) Scenario.h0
      1%positive Scenario.m1 [Scenario.f10_0].
Proof.
  intros (enc' & h' & payload & Hrun & Hstream).
  vm_compute in Hrun. injection Hrun as <- _.
  unfold generalRun in Hstream.
  set (rest := OStream.bytes_bits (uvarint (Z.of_nat (length payload)))
               ++ OStream.bytes_bits payload) in Hstream.
  clearbody rest. vm_compute in Hstream. discriminate Hstream.
Qed.

(** C8, counterexample: after [Encode] of a message of [sch3] with the value
    [10.0] in field 1, a call on a message whose descriptor does not declare
    field 3 stops with an error at that field; [Encode] returns, and the
    state of field 1 holds [10.5], the value of the message that failed.
    The states hold the values of neither message: the message that failed
    has no field 3. *)
Lemma prevFloatBits_after_failed_call :
  ~ (prevFloatBits_of_last_success wire.Marshal Run.v1 2%positive
       (Scenario.msg3 Scenario.f10_0 Scenario.single1_0) \/
     prevFloatBits_of_last_success wire.Marshal Run.v1 2%positive
       Scenario.noThirdNext).
Proof.
  assert (Hloop : exists w1, encodeTSZValues 2%positive Run.v1
                             = Returned (Some (ErrGetField 3), w1))
    by (eexists; vm_compute; reflexivity).
  destruct Hloop as [w1 Hloop].
  assert (Hrun : exists w' x y z,
                   Encode wire.Marshal 2%positive Run.v1 = Returned (None, w') /\
                   tszFields w'.1 !! 0%nat = Some (mkTsz 1 x Scenario.f10_5) /\
                   tszFields w'.1 !! 1%nat = Some (mkTsz 3 y z)).
  { eexists _, _, _, _. split; [|split]; vm_compute; reflexivity. }
  destruct Hrun as (w' & x & y & z & Hrun & Hst1 & Hst3).
  intros [Hclaim|Hclaim]; specialize (Hclaim _ _ _ _ Hloop Hrun).
  - pose proof (Forall_lookup_1 _ _ _ _ Hclaim Hst1) as Hfirst.
    vm_compute in Hfirst. discriminate Hfirst.
  - pose proof (Forall_lookup_1 _ _ _ _ Hclaim Hst3) as Hthird.
    vm_compute in Hthird. discriminate Hthird.
Qed.

(** C10, counterexample: [Encode] on a message whose descriptor does not
    declare the float field 1 of the schema returns [nil] with the float
    field 3 still set in the message. *)
Lemma float_field_left_after_failed_call :
  ~ Encode_clears_every_float_field wire.Marshal
      (Run.enc3, <[1%positive := Scenario.noFirst]> ∅) 1%positive.
Proof.
  intros Hclaim.
  assert (Hrun : exists w', Encode wire.Marshal 1%positive
                              (Run.enc3, <[1%positive := Scenario.noFirst]> ∅)
                            = Returned (None, w') /\
                   w'.2 !! 1%positive = Some Scenario.noFirst)
    by (eexists; split; vm_compute; reflexivity).
  destruct Hrun as (w' & Hrun & Hm).
  destruct (Hclaim _ _ Hrun) as (m' & Hm' & Hcleared).
  rewrite Hm in Hm'. injection Hm' as <-.
  specialize (Hcleared 3 ltac:(by_compute)).
  vm_compute in Hcleared. discriminate Hcleared.
Qed.

(** C7, counterexample: after [Encode] of [m1 = {value: 10.0, tag: "a"}] on
    a new encoder, the message [lastEncoded] points to has no [value]. *)
Lemma lastEncoded_is_not_input :
  ~ lastEncoded_is_input wire.Marshal (NewEncoder [] Scenario.sch) Scenario.h0
      1%positive Scenario.m1.
Proof.
  intros Hclaim.
  assert (Hrun : Encode wire.Marshal 1%positive (NewEncoder [] Scenario.sch, Scenario.h0)
                 = Returned (None, Run.w1)) by (vm_compute; reflexivity).
  destruct Run.w1 as [enc' h'] eqn:Ew.
  specialize (Hclaim _ _ _ Hrun).
  assert (Hlk : (lastMessage enc' h' ≫= fun m => values m !! 1) = None).
  { replace enc' with (Run.w1.1) by (by rewrite Ew).
    replace h' with (Run.w1.2) by (by rewrite Ew). vm_compute. reflexivity. }
  rewrite Hclaim in Hlk. vm_compute in Hlk. discriminate Hlk.
Qed.

(** ** The theorems on the scenario *)

Lemma lastEncoded_after_Encode_witness :
  exists enc' h',
    Encode wire.Marshal 3%positive Run.w2 = Returned (None, (enc', h')) /\
    lastEncoded enc' = Some 3%positive /\
    lastMessage enc' h' = Some (clearFields (tszNums (schema Run.w2.1)) Scenario.m3) /\
    (forall n, n ∈ tszNums (schema Run.w2.1) ->
       values (clearFields (tszNums (schema Run.w2.1)) Scenario.m3) !! n = None) /\
    (forall n, n ∉ tszNums (schema Run.w2.1) ->
       values (clearFields (tszNums (schema Run.w2.1)) Scenario.m3) !! n
       = values Scenario.m3 !! n).
Proof.
  apply (lastEncoded_after_Encode wire.Marshal Run.w2.1 Run.w2.2 3%positive
           Scenario.m3 [Scenario.f10_5]).
  - by_compute.
  - vm_compute. reflexivity.
  - vm_compute. reflexivity.
  - vm_compute. reflexivity.
  - reflexivity.
  - repeat constructor.
  - vm_compute. reflexivity.
Defined.

Lemma prevFloatBits_after_Encode_witness :
  exists enc' h',
    Encode wire.Marshal 3%positive Run.w2 = Returned (None, (enc', h')) /\
    fieldNum <$> tszFields enc' = tszNums (schema Run.w2.1) /\
    prevFloatBits <$> tszFields enc' = Float64bits <$> [Scenario.f10_5] /\
    Forall (fun st => tszValue Scenario.m3 (fieldNum st) = Some (prevFloatBits st))
           (tszFields enc').
Proof.
  apply (prevFloatBits_after_Encode wire.Marshal Run.w2.1 Run.w2.2 3%positive
           Scenario.m3 [Scenario.f10_5]).
  - by_compute.
  - vm_compute. reflexivity.
  - vm_compute. reflexivity.
  - vm_compute. reflexivity.
  - reflexivity.
  - repeat constructor.
  - vm_compute. reflexivity.
Defined.

Lemma Encode_clears_float_fields_of_input_witness :
  exists enc' h' m',
    Encode wire.Marshal 3%positive Run.w2 = Returned (None, (enc', h')) /\
    h' !! 3%positive = Some m' /\
    md m' = md Scenario.m3 /\
    (forall n, n ∈ tszNums (schema Run.w2.1) -> values m' !! n = None) /\
    (forall n, n ∉ tszNums (schema Run.w2.1) ->
       values m' !! n = values Scenario.m3 !! n) /\
    (forall q, q <> 3%positive -> h' !! q = Run.w2.2 !! q) /\
    stream enc' =
      stream Run.w2.1
      ++ numericRun (hasWrittenFirstTSZ Run.w2.1) (tszFields Run.w2.1) [Scenario.f10_5]
      ++ generalRunOf wire.Marshal (schema Run.w2.1)
           (diffBase Run.w2.1 Run.w2.2 3%positive Scenario.m3) m'.
Proof.
  apply (Encode_clears_float_fields_of_input wire.Marshal Run.w2.1 Run.w2.2 3%positive
           Scenario.m3 [Scenario.f10_5]).
  - by_compute.
  - vm_compute. reflexivity.
  - vm_compute. reflexivity.
  - vm_compute. reflexivity.
  - reflexivity.
  - repeat constructor.
  - vm_compute. reflexivity.
Defined.

Lemma first_frame_witness :
  exists enc' h',
    Encode wire.Marshal 1%positive (NewEncoder [] Scenario.sch, Scenario.h0)
      = Returned (None, (enc', h')) /\
    stream enc' =
      OStream.bytes_bits []
      ++ concat ((fun v => OStream.bits_msb 64 (Float64bits v)) <$> [Scenario.f10_0])
      ++ [true]
      ++ OStream.bytes_bits (uvarint 1) ++ [false]
      ++ OStream.bytes_bits (uvarint (Z.of_nat (length [18; 1; 97])))
      ++ OStream.bytes_bits [18; 1; 97] /\
    tszFields enc' =
      zip_with (fun n v => mkTsz n (Float64bits v) (Float64bits v))
               (tszNums Scenario.sch) [Scenario.f10_0].
Proof.
  apply (first_frame wire.Marshal [] Scenario.sch Scenario.h0 1%positive
           Scenario.m1 [Scenario.f10_0] [18; 1; 97]).
  - by_compute.
  - vm_compute. reflexivity.
  - reflexivity.
  - repeat constructor.
  - vm_compute. reflexivity.
  - vm_compute. reflexivity.
Defined.

Lemma same_message_frame_witness :
  exists enc1 h1 enc2 h2,
    Encode wire.Marshal 1%positive (NewEncoder [] Scenario.sch, Scenario.h0)
      = Returned (None, (enc1, h1)) /\
    Encode wire.Marshal 2%positive (enc1, h1) = Returned (None, (enc2, h2)) /\
    stream enc2 =
      stream enc1
      ++ replicate (length (tszNums (schema (NewEncoder [] Scenario.sch)))) false
      ++ [false].
Proof.
  apply (same_message_frame wire.Marshal (NewEncoder [] Scenario.sch) Scenario.h0
           1%positive 2%positive Scenario.m1 [Scenario.f10_0]).
  - by_compute.
  - vm_compute. reflexivity.
  - vm_compute. exact I.
  - vm_compute. reflexivity.
  - vm_compute. reflexivity.
  - discriminate.
  - reflexivity.
  - repeat constructor.
  - vm_compute. reflexivity.
Defined.

Lemma general_run_layout_witness :
  let changed := changedGeneral Run.w2.1 Run.w2.2 3%positive Scenario.m3 in
  changed = [2] /\
  exists enc' h',
    Encode wire.Marshal 3%positive (Run.w2.1, Run.w2.2) = Returned (None, (enc', h')) /\
    stream enc' =
      stream Run.w2.1
      ++ numericRun (hasWrittenFirstTSZ Run.w2.1) (tszFields Run.w2.1) [Scenario.f10_5]
      ++ [true]
      ++ OStream.bytes_bits (uvarint (maxField changed + 1))
      ++ bitmap changed
      ++ OStream.bytes_bits (uvarint (Z.of_nat (length [18; 1; 98])))
      ++ OStream.bytes_bits [18; 1; 98] /\
    Z.of_nat (length (bitmap changed)) = maxField changed + 1 /\
    (forall i, 0 <= i <= maxField changed ->
       bitmap changed !! Z.to_nat i = Some (bool_decide (i ∈ changed))) /\
    (changed <> [] -> maxField changed ∈ changed) /\
    (forall n, n ∈ changed -> n <= maxField changed) /\
    exists x,
      framePayload Run.w2.1 Run.w2.2 3%positive Scenario.m3 = Some x /\
      wire.Marshal x = Some [18; 1; 98] /\
      (forall n, n ∈ tszNums (schema Run.w2.1) -> values x !! n = None) /\
      (forall n, n ∈ changed -> values x !! n = values Scenario.m3 !! n) /\
      match diffBase Run.w2.1 Run.w2.2 3%positive Scenario.m3 with
      | None => x = clearFields (tszNums (schema Run.w2.1)) Scenario.m3
      | Some _ =>
          forall n, n ∈ generalNums (schema Run.w2.1) -> n ∉ changed ->
                    values x !! n = None
      end.
Proof.
  split; [vm_compute; reflexivity|].
  apply (general_run_layout wire.Marshal Run.w2.1 Run.w2.2 3%positive Scenario.m3
           [Scenario.f10_5] [18; 1; 98]).
  - by_compute.
  - vm_compute. reflexivity.
  - vm_compute. reflexivity.
  - vm_compute. repeat constructor.
  - vm_compute. reflexivity.
  - reflexivity.
  - repeat constructor.
  - vm_compute. reflexivity.
  - vm_compute. reflexivity.
  - right. vm_compute. discriminate.
Defined.

Lemma single_changed_field_witness :
  exists enc' h' x,
    Encode wire.Marshal 3%positive (Run.w2.1, Run.w2.2) = Returned (None, (enc', h')) /\
    stream enc' =
      stream Run.w2.1
      ++ numericRun (hasWrittenFirstTSZ Run.w2.1) (tszFields Run.w2.1) [Scenario.f10_5]
      ++ [true]
      ++ OStream.bytes_bits (uvarint (2 + 1))
      ++ (replicate (Z.to_nat 2) false ++ [true])
      ++ OStream.bytes_bits (uvarint (Z.of_nat (length [18; 1; 98])))
      ++ OStream.bytes_bits [18; 1; 98] /\
    popcount (replicate (Z.to_nat 2) false ++ [true]) = 1%nat /\
    wire.Marshal x = Some [18; 1; 98] /\
    md x = schema Run.w2.1 /\
    TryGetFieldByNumber x 2 = TryGetFieldByNumber Scenario.m3 2 /\
    values x !! 2 = values Scenario.m3 !! 2 /\
    (forall k, k <> 2 -> values x !! k = None).
Proof.
  apply (single_changed_field wire.Marshal Run.w2.1 Run.w2.2 3%positive Scenario.m3
           [Scenario.f10_5] [18; 1; 98])
    with (prev := mkMessage Scenario.sch (<[2 := VString "a"]> ∅)).
  - by_compute.
  - vm_compute. reflexivity.
  - vm_compute. reflexivity.
  - vm_compute. repeat constructor.
  - vm_compute. reflexivity.
  - reflexivity.
  - repeat constructor.
  - vm_compute. reflexivity.
  - vm_compute. reflexivity.
  - by_compute.
  - vm_compute. reflexivity.
  - vm_compute. reflexivity.
Defined.


(** ** More checks on the scenario *)

Lemma Encode_returns_nil_and_keeps_pointer_witness :
  (None : option error) = None /\ lastEncoded Run.w1.1 = Some 1%positive.
Proof.
  apply (Encode_returns_nil_and_keeps_pointer wire.Marshal 1%positive Run.w0 None Run.w1).
  vm_compute. reflexivity.
Defined.

Lemma Encode_frame_rule_witness : frameRule 1%positive Run.w0 Run.w1.
Proof.
  apply (Encode_frame_rule wire.Marshal 1%positive Run.w0 None Run.w1).
  vm_compute. reflexivity.
Defined.

Lemma encodeProtoValues_only_appends_witness :
  onlyAppends Run.w1 (Run.afterProto Run.w1 2%positive).
Proof.
  apply (encodeProtoValues_only_appends wire.Marshal 2%positive Run.w1 None).
  vm_compute. reflexivity.
Defined.

(** The caller changes the tag of the message that was encoded and passes
    the same object again: the general run is a [0] bit. *)
Lemma Encode_same_pointer_witness :
  let h := <[1%positive := Scenario.msg Scenario.f10_5 "zzz"]> Run.w1.2 in
  exists w',
    Encode wire.Marshal 1%positive (Run.w1.1, h) = Returned (None, w') /\
    stream w'.1 =
      stream Run.w1.1
      ++ numericRun (hasWrittenFirstTSZ Run.w1.1) (tszFields Run.w1.1) [Scenario.f10_5]
      ++ [false].
Proof.
  intros h. eexists. split.
  { apply (Encode_same_pointer wire.Marshal Run.w1.1 h 1%positive
             (Scenario.msg Scenario.f10_5 "zzz") [Scenario.f10_5]).
    - by_compute.
    - vm_compute. reflexivity.
    - vm_compute. reflexivity.
    - reflexivity.
    - repeat constructor.
    - vm_compute. reflexivity. }
  reflexivity.
Defined.

Lemma Encode_general_fields_unchanged_witness :
  let h := <[2%positive := Scenario.msg Scenario.f10_5 "a"]> Run.w1.2 in
  exists w',
    Encode wire.Marshal 2%positive (Run.w1.1, h) = Returned (None, w') /\
    stream w'.1 =
      stream Run.w1.1
      ++ numericRun (hasWrittenFirstTSZ Run.w1.1) (tszFields Run.w1.1) [Scenario.f10_5]
      ++ [false].
Proof.
  intros h. eexists. split.
  { apply (Encode_general_fields_unchanged wire.Marshal Run.w1.1 h 2%positive
             (Scenario.msg Scenario.f10_5 "a") [Scenario.f10_5]
             ltac:(by_compute) ltac:(vm_compute; reflexivity) ltac:(vm_compute; reflexivity)
             ltac:(reflexivity) ltac:(repeat constructor)
             1%positive (mkMessage Scenario.sch (<[2 := VString "a"]> ∅))).
    - vm_compute. reflexivity.
    - done.
    - vm_compute. reflexivity.
    - reflexivity.
    - vm_compute. repeat constructor.
    - intros n Hn. vm_compute in Hn.
      apply list_elem_of_singleton in Hn. subst n. vm_compute. reflexivity. }
  reflexivity.
Defined.

Lemma Encode_drops_marshal_error_witness :
  exists w1,
    encodeTSZValues 1%positive Run.w0 = Returned (None, w1) /\
    encodeProtoValues Scenario.failingMarshal 1%positive w1
      = Returned (Some ErrMarshal, w1) /\
    Encode Scenario.failingMarshal 1%positive Run.w0
      = Returned (None, (set_lastEncoded (Some 1%positive) w1.1, w1.2)) /\
    stream w1.1 = stream Run.w0.1 ++ numericRun false (tszFields Run.w0.1) [Scenario.f10_0].
Proof.
  apply (Encode_drops_marshal_error Scenario.failingMarshal Run.w0.1 Run.w0.2 1%positive
           Scenario.m1 [Scenario.f10_0]
           ltac:(by_compute) ltac:(vm_compute; reflexivity) ltac:(vm_compute; reflexivity)
           ltac:(reflexivity) ltac:(repeat constructor)
           (clearFields [1] Scenario.m1)).
  - exact I.
  - vm_compute. reflexivity.
  - reflexivity.
Defined.



Lemma encodeTSZValues_stops_at_undeclared_field_witness :
  let h : gmap positive Message := <[1%positive := Scenario.noThird]> ∅ in
  encodeTSZValues 1%positive (Run.enc3, h) =
    Returned (Some (ErrGetField 3),
      (mkEncoder (stream Run.enc3 ++ numericRun false [mkTsz 1 0 0] [Scenario.f10_0])
         Scenario.sch3 false None
         (zip_with (tszUpd false) [mkTsz 1 0 0] [Scenario.f10_0] ++ [mkTsz 3 0 0]),
       <[1%positive := clearFields [1] Scenario.noThird]> h)).
Proof.
  intros h.
  apply (encodeTSZValues_stops_at_undeclared_field Run.enc3 h 1%positive Scenario.noThird
           [mkTsz 1 0 0] (mkTsz 3 0 0) [] [Scenario.f10_0]).
  - reflexivity.
  - by_compute.
  - vm_compute. reflexivity.
  - repeat constructor.
  - vm_compute. reflexivity.
Defined.

Lemma Encode_panics_at_non_float_witness :
  let h : gmap positive Message := <[1%positive := Scenario.stringThird]> ∅ in
  Encode wire.Marshal 1%positive (Run.enc3, h) = Panicked.
Proof.
  intros h.
  apply (Encode_panics_at_non_float Run.enc3 h 1%positive Scenario.stringThird
           [mkTsz 1 0 0] (mkTsz 3 0 0) [] [Scenario.f10_0]
           ltac:(reflexivity) ltac:(by_compute) ltac:(vm_compute; reflexivity)
           ltac:(repeat constructor) wire.Marshal (VString "x")).
  - vm_compute. reflexivity.
  - done.
  - done.
Defined.

Lemma writeVarInt_bound_witness : writeVarInt (2 ^ 56) Run.w0 = Panicked.
Proof. apply (writeVarInt_bound (2 ^ 56) Run.w0.1 Run.w0.2). lia. Defined.

Lemma writeVarInt_self_delimiting_witness : 300 = 300 /\ [1; 2] = [1; 2].
Proof.
  apply (writeVarInt_self_delimiting 300 300 [172; 2] [172; 2] [1; 2] [1; 2]);
    (lia || reflexivity).
Defined.

Lemma writeBitset_bits_witness :
  exists bits,
    writeBitset [2; 2; -1; 0] Run.w0 =
      Returned (tt, (set_stream
        (stream Run.w0.1 ++ OStream.bytes_bits (uvarint (Z.of_nat (length bits))) ++ bits)
        Run.w0.1, Run.w0.2)) /\
    (1 <= length bits)%nat /\
    (forall i : nat, bits !! i = Some true <-> Z.of_nat i ∈ [2; 2; -1; 0]) /\
    popcount bits = length (remove_dups (filter (fun v => 0 <= v) [2; 2; -1; 0])).
Proof.
  apply (writeBitset_bits [2; 2; -1; 0] Run.w0.1 Run.w0.2). vm_compute. reflexivity.
Defined.

Lemma prevXOR_after_Encode_witness :
  exists enc' h',
    Encode wire.Marshal 3%positive (Run.w2.1, Run.w2.2) = Returned (None, (enc', h')) /\
    prevXOR <$> tszFields enc' =
      if hasWrittenFirstTSZ Run.w2.1
      then zip_with Z.lxor (prevFloatBits <$> tszFields Run.w2.1) [Scenario.f10_5]
      else [Scenario.f10_5].
Proof.
  apply (prevXOR_after_Encode wire.Marshal Run.w2.1 Run.w2.2 3%positive Scenario.m3
           [Scenario.f10_5]).
  - by_compute.
  - vm_compute. reflexivity.
  - vm_compute. reflexivity.
  - vm_compute. reflexivity.
  - reflexivity.
  - repeat constructor.
  - vm_compute. reflexivity.
Defined.

Lemma float32_to_float64_injective_witness : 0x3F800000 = 0x3F800000.
Proof.
  apply (float32_to_float64_injective 0x3F800000 0x3F800000); (lia || reflexivity).
Defined.
